(** * torecsys: numeric utilities, embedding inputs, mixture of experts
      and sub-sampling, embedded in Rocq.

    Python integers are [Z]; Python floats and numpy [float64] values are
    IEEE binary64 numbers ([PrimFloat.float], or [spec_float] where an
    integer of arbitrary size is converted); a raised exception is the left
    summand of [result].  Tensors carry their shape and their elements in
    row-major order. *)

From Stdlib Require Import ZArith List Lia String Ascii Reals Lra.
From Stdlib Require Import Floats.PrimFloat Floats.SpecFloat Numbers.Cyclic.Int63.Uint63.
From stdpp Require Import base option list strings gmap.

Set Warnings "-inexact-float".
#[local] Set Default Proof Using "Type*".
Import ListNotations.

(** ** Exceptions and the error monad *)

Inductive exn : Type :=
| ValueError
| TypeError
| IndexError
| KeyError
| ZeroDivisionError
| OverflowError
| RuntimeError.

Definition result (A : Type) : Type := (exn + A)%type.

Definition ok {A} (a : A) : result A := inr a.
Definition raise {A} (e : exn) : result A := inl e.

Definition rbind {A B} (m : result A) (k : A -> result B) : result B :=
  match m with
  | inl e => inl e
  | inr a => k a
  end.

Notation "'let!' x ':=' m 'in' k" := (rbind m (fun x => k))
  (at level 10, x pattern, m at level 100, k at level 200).

(** [[f(x) for x in l]] where [f] may raise: the first exception wins. *)
Fixpoint rmapM {A B} (f : A -> result B) (l : list A) : result (list B) :=
  match l with
  | [] => ok []
  | x :: l' =>
      let! y := f x in
      let! ys := rmapM f l' in
      ok (y :: ys)
  end.

(** ** Python built-ins *)

Module Py.

(** [range(start, stop, step)] for a non-zero [step]. *)
Definition range (start stop step : Z) : list Z :=
  let len := (if 0 <? step then (stop - start + step - 1) / step
              else if step <? 0 then (start - stop - step - 1) / (- step)
              else 0)%Z in
  map (fun i => (start + Z.of_nat i * step)%Z) (seq 0 (Z.to_nat len)).

(** [functools.reduce(f, l, init)]. *)
Definition reduce {A B} (f : B -> A -> B) (l : list A) (init : B) : B :=
  fold_left f l init.

(** An integer of any size read as a binary float with exponent 0: the
    exact value, before any rounding. *)
Definition exact_int (z : Z) : spec_float :=
  match z with
  | Z0 => S754_zero false
  | Zpos p => S754_finite false p 0
  | Zneg p => S754_finite true p 0
  end.

(** [a / b] on two [int]s: the quotient correctly rounded (to nearest,
    ties to even) to binary64; division by zero and a quotient beyond the
    range of a float raise. *)
Definition int_truediv (a b : Z) : result spec_float :=
  if (b =? 0)%Z then raise ZeroDivisionError
  else match SFdiv 53 1024 (exact_int a) (exact_int b) with
       | S754_infinity _ => raise OverflowError
       | S754_nan => raise ValueError
       | f => ok f
       end.

(** [int(f)] on a float: truncation towards zero. *)
Definition int_of_float (f : spec_float) : result Z :=
  match f with
  | S754_zero _ => ok 0%Z
  | S754_finite s m e =>
      let v := (if 0 <=? e then Z.pos m * 2 ^ e else Z.pos m / 2 ^ (- e))%Z in
      ok (if s then (- v)%Z else v)
  | S754_infinity _ => raise OverflowError
  | S754_nan => raise ValueError
  end.

(** [sub in s] on two [str]s. *)
Fixpoint str_contains (sub s : string) : bool :=
  String.prefix sub s ||
  match s with
  | EmptyString => false
  | String _ s' => str_contains sub s'
  end.

End Py.

(** ** Scalars of a tensor

    The element type of a tensor (float32 by default, float64, ...) with the
    arithmetic the tensor library applies element by element, and the
    conversion of a Python number that meets a tensor in an expression. *)

Class Scalar (F : Type) : Type := {
  fadd : F -> F -> F;
  fmul : F -> F -> F;
  fdiv : F -> F -> F;
  fsqrt : F -> F;
  fpow : F -> Z -> F;
  of_int : Z -> F;
  of_float : float -> F;
}.

#[export] Instance float64_scalar : Scalar float := {
  fadd := PrimFloat.add;
  fmul := PrimFloat.mul;
  fdiv := PrimFloat.div;
  fsqrt := PrimFloat.sqrt;
  fpow := fun x n =>
    match n with
    | Z0 => 1%float
    | Zpos p => Pos.iter (PrimFloat.mul x) 1%float p
    | Zneg p => PrimFloat.div 1%float (Pos.iter (PrimFloat.mul x) 1%float p)
    end;
  of_int := fun z =>
    if (z <? 0)%Z then PrimFloat.opp (PrimFloat.of_uint63 (Uint63.of_Z (- z)))
    else PrimFloat.of_uint63 (Uint63.of_Z z);
  of_float := fun f => f;
}.

#[export] Instance float_inhabited : Inhabited float := populate 0%float.

#[export] Instance R_inhabited : Inhabited R := populate 0%R.

(** ** Tensors: a shape and the elements in row-major order *)

Module Tensor.

Record tensor (A : Type) : Type := mk_tensor {
  shape : list nat;
  data : list A;
}.

Arguments mk_tensor {A} _ _.
Arguments shape {A} _.
Arguments data {A} _.

(** Number of elements of a tensor of shape [sh]. *)
Definition numel (sh : list nat) : nat := foldr Nat.mul 1 sh.

(** Offset of a multi-index in the row-major layout. *)
Fixpoint ravel (sh idx : list nat) : nat :=
  match sh, idx with
  | _ :: sh', i :: idx' => i * numel sh' + ravel sh' idx'
  | _, _ => 0
  end.

(** All multi-indices of a shape, in row-major order. *)
Fixpoint indices (sh : list nat) : list (list nat) :=
  match sh with
  | [] => [[]]
  | n :: sh' => i ← seq 0 n; (cons i) <$> indices sh'
  end.

Definition valid_index (sh idx : list nat) : Prop :=
  Forall2 (fun i n => i < n) idx sh.

Definition wf {A} (x : tensor A) : Prop :=
  length (data x) = numel (shape x).

Section Ops.
Context {A : Type} `{Inhabited A}.

(** [x[idx]] *)
Definition at_ (x : tensor A) (idx : list nat) : A :=
  nth (ravel (shape x) idx) (data x) inhabitant.

(** The tensor of shape [sh] whose element at [idx] is [f idx]. *)
Definition init (sh : list nat) (f : list nat -> A) : tensor A :=
  mk_tensor sh (f <$> indices sh).

(** The vector [x[idx]] along the last dimension. *)
Definition vector (x : tensor A) (idx : list nat) : list A :=
  (fun e => at_ x (idx ++ [e])) <$> seq 0 (List.last (shape x) 0).

(** [torch.Tensor([])]: one dimension of size zero, no element. *)
Definition empty : tensor A := mk_tensor [0] [].

End Ops.

(** A dimension argument, negative ones counting from the end; a tensor
    without dimensions accepts 0 and -1. *)
Definition wrap_dim (ndim : nat) (dim : Z) : result nat :=
  let n := Z.of_nat (Nat.max ndim 1) in
  if decide (- n <= dim < n)%Z then ok (Z.to_nat (dim `mod` n)) else raise IndexError.

(** Broadcasting: shapes are aligned at their last dimension; two sizes
    are compatible when they are equal or one of them is 1. *)
Definition pad_shape (n : nat) (sh : list nat) : list nat :=
  replicate (n - length sh) 1 ++ sh.

Definition broadcast_dim (a b : nat) : option nat :=
  if decide (a = b) then Some a
  else if decide (a = 1) then Some b
  else if decide (b = 1) then Some a
  else None.

Definition broadcast_shapes (s1 s2 : list nat) : option (list nat) :=
  let n := Nat.max (length s1) (length s2) in
  mapM (fun p => broadcast_dim p.1 p.2) (zip (pad_shape n s1) (pad_shape n s2)).

(** The index read in an operand of shape [sh] for the output index [idx]. *)
Definition broadcast_index (sh idx : list nat) : list nat :=
  zip_with (fun n i => if decide (n = 1) then 0 else i) sh (drop (length idx - length sh) idx).

Section Pointwise.
Context {A B C : Type} `{Inhabited A, Inhabited B, Inhabited C}.

(** A unary operation applied to every element. *)
Definition unary (f : A -> B) (x : tensor A) : tensor B :=
  init (shape x) (fun idx => f (at_ x idx)).

(** A binary operation applied element by element, with broadcasting. *)
Definition binary (f : A -> B -> C) (x : tensor A) (y : tensor B) : result (tensor C) :=
  match broadcast_shapes (shape x) (shape y) with
  | Some sh =>
      ok (init sh (fun idx => f (at_ x (broadcast_index (shape x) idx))
                                (at_ y (broadcast_index (shape y) idx))))
  | None => raise RuntimeError
  end.

End Pointwise.

End Tensor.

Abbreviation tensor := Tensor.tensor.

(** ** The tensor library: reductions, concatenation, embedding tables *)

Module Torch.

Section Reductions.
Context {F : Type} `{Scalar F, Inhabited F}.

(** [torch.sum(x, dim=dim, keepdim=True)]: the elements along [dim] are
    added up in index order and the dimension is kept with size 1. *)
Definition sum_keepdim (x : tensor F) (dim : Z) : result (tensor F) :=
  let sh := Tensor.shape x in
  let! d := Tensor.wrap_dim (length sh) dim in
  ok (Tensor.init (<[d := 1]> sh)
        (fun idx =>
           fold_left fadd
             ((fun k => Tensor.at_ x (<[d := k]> idx)) <$> seq 0 (nth d sh 1))
             (of_int 0))).

(** [torch.pow(x, n)] for an integer exponent. *)
Definition pow (x : tensor F) (n : Z) : tensor F :=
  Tensor.unary (fun v => fpow v n) x.

(** [torch.sqrt(x)] *)
Definition sqrt (x : tensor F) : tensor F := Tensor.unary fsqrt x.

End Reductions.

Section Cat.
Context {A : Type} `{Inhabited A}.

(** Position [n] along the concatenated dimension: which tensor it falls
    in, and where in that tensor. *)
Fixpoint cat_locate (sizes : list nat) (n : nat) : nat * nat :=
  match sizes with
  | [] => (0, n)
  | s :: rest =>
      if decide (n < s) then (0, n)
      else let '(j, r) := cat_locate rest (n - s) in (S j, r)
  end.

(** Two shapes that agree everywhere but at dimension [dim]. *)
Definition same_but (dim : nat) (s1 s2 : list nat) : bool :=
  bool_decide (<[dim := 0]> s1 = <[dim := 0]> s2).

(** [torch.cat(ts, dim=dim)] *)
Definition cat (ts : list (tensor A)) (dim : nat) : result (tensor A) :=
  match ts with
  | [] => raise RuntimeError
  | t0 :: _ =>
      let sh0 := Tensor.shape t0 in
      if bool_decide (dim < length sh0)
         && forallb (fun t => same_but dim sh0 (Tensor.shape t)) ts
      then
        let sizes := (fun t => nth dim (Tensor.shape t) 0) <$> ts in
        ok (Tensor.init (<[dim := foldr Nat.add 0 sizes]> sh0)
              (fun idx =>
                 let '(j, r) := cat_locate sizes (nth dim idx 0) in
                 Tensor.at_ (nth j ts t0) (<[dim := r]> idx)))
      else raise RuntimeError
  end.

End Cat.

(** [torch.Tensor(seq)] builds a float32 tensor: every integer of the
    sequence is rounded to the nearest binary32 number (ties to even). *)
Definition float32_of_int (z : Z) : spec_float :=
  binary_normalize 24 128 z 0 false.

(** [.long()] on a float element: truncation towards zero. *)
Definition long_of_float (f : spec_float) : Z :=
  match f with
  | S754_finite s m e =>
      let v := (if 0 <=? e then Z.pos m * 2 ^ e else Z.pos m / 2 ^ (- e))%Z in
      if s then (- v)%Z else v
  | _ => 0%Z
  end.

(** [torch.Tensor(l).long()] on a sequence of integers. *)
Definition Tensor_long (l : list Z) : tensor Z :=
  Tensor.mk_tensor [length l] ((fun z => long_of_float (float32_of_int z)) <$> l).

Section Embedding.
Context {F : Type} `{Inhabited F}.

(** [nn.Embedding]: [weight i] is row [i] of the weight matrix. *)
Record Embedding : Type := mk_Embedding {
  num_embeddings : Z;
  embedding_dim : nat;
  weight : Z -> list F;
}.

(** [embedding(inputs)]: every index is replaced by its row; an index out
    of the table raises. *)
Definition Embedding_forward (emb : Embedding) (inputs : tensor Z) : result (tensor F) :=
  if forallb (fun i => (0 <=? i)%Z && (i <? num_embeddings emb)%Z) (Tensor.data inputs)
  then
    let nd := length (Tensor.shape inputs) in
    ok (Tensor.init (Tensor.shape inputs ++ [embedding_dim emb])
          (fun idx =>
             nth (nth nd idx 0) (weight emb (Tensor.at_ inputs (take nd idx))) inhabitant))
  else raise IndexError.

End Embedding.

Arguments Embedding : clear implicits.

Section Views.
Context {A : Type} `{Inhabited A}.

(** [x.unsqueeze(dim)]: a dimension of size one is inserted at [dim], which
    may be the number of dimensions itself; negative ones count from the
    end. *)
Definition unsqueeze (x : tensor A) (dim : Z) : result (tensor A) :=
  let sh := Tensor.shape x in
  let n := Z.of_nat (S (length sh)) in
  if decide (- n <= dim < n)%Z then
    let d := Z.to_nat (dim `mod` n) in
    ok (Tensor.mk_tensor (take d sh ++ 1 :: drop d sh) (Tensor.data x))
  else raise IndexError.

(** [x.repeat(sizes)]: the tensor is tiled [sizes[i]] times along dimension
    [i]; every dimension needs a size, none may be negative, and the sizes
    in excess stand for new leading dimensions. *)
Definition repeat (x : tensor A) (sizes : list Z) : result (tensor A) :=
  let sh := Tensor.shape x in
  if bool_decide (length sh <= length sizes) && forallb (fun s => (0 <=? s)%Z) sizes then
    let sh' := Tensor.pad_shape (length sizes) sh in
    ok (Tensor.init (zip_with (fun n s => n * Z.to_nat s) sh' sizes)
          (fun idx =>
             Tensor.at_ x (drop (length sizes - length sh) (zip_with Nat.modulo idx sh'))))
  else raise RuntimeError.

(** [x.view(sizes)] on a contiguous tensor: the same elements in the same
    order under another shape with as many elements; one size may be -1 and
    is then inferred from the others. *)
Definition view (x : tensor A) (sizes : list Z) : result (tensor A) :=
  let n := Tensor.numel (Tensor.shape x) in
  if forallb (fun s => (0 <=? s)%Z) sizes then
    let sh := Z.to_nat <$> sizes in
    if decide (Tensor.numel sh = n) then ok (Tensor.mk_tensor sh (Tensor.data x))
    else raise RuntimeError
  else if forallb (fun s => (-1 <=? s)%Z) sizes
          && bool_decide (length (List.filter (fun s => (s =? -1)%Z) sizes) = 1) then
    let known := Tensor.numel (Z.to_nat <$> List.filter (fun s => negb (s =? -1)%Z) sizes) in
    if bool_decide (known <> 0) && bool_decide (n `mod` known = 0) then
      ok (Tensor.mk_tensor
            ((fun s => if (s =? -1)%Z then n `div` known else Z.to_nat s) <$> sizes)
            (Tensor.data x))
    else raise RuntimeError
  else raise RuntimeError.

End Views.

Section SumDim.
Context {F : Type} `{Scalar F, Inhabited F}.

(** [x.sum(dim=dim)]: as with [keepdim=True], and the dimension is then
    dropped. *)
Definition sum_dim (x : tensor F) (dim : Z) : result (tensor F) :=
  let! s := sum_keepdim x dim in
  let! d := Tensor.wrap_dim (length (Tensor.shape x)) dim in
  ok (Tensor.mk_tensor (delete d (Tensor.shape s)) (Tensor.data s)).

End SumDim.

End Torch.

(** ** torecsys/utils/operations.py *)

Module Operations.

(** [combination(n, r)] *)
Definition combination (n r : Z) : result Z :=
  let r := Z.min r (n - r) in
  let numer := Py.reduce Z.mul (Py.range n (n - r) (-1)) 1%Z in
  let denom := Py.reduce Z.mul (Py.range 1 (r + 1) 1) 1%Z in
  let! q := Py.int_truediv numer denom in
  Py.int_of_float q.

Section TensorFunctions.
Context {F : Type} `{Scalar F, Inhabited F}.

(** [dummy_attention(key, query, value)] *)
Definition dummy_attention (key query value : tensor F) : tensor F * tensor F :=
  (key, Tensor.empty).

(** The value of [loss] in [regularize]: the Python float it starts as, or
    the zero-dimensional tensor it becomes once a norm has been added. *)
Inductive loss_value : Type :=
| PyFloat (f : float)
| Tensor0 (v : F).

(** [loss += t] for a zero-dimensional tensor [t]. *)
Definition loss_iadd (loss : loss_value) (t : F) : loss_value :=
  match loss with
  | PyFloat f => Tensor0 (fadd (of_float f) t)
  | Tensor0 v => Tensor0 (fadd v t)
  end.

(** [loss * weight_decay] for a Python float [weight_decay]. *)
Definition loss_mul (loss : loss_value) (weight_decay : float) : loss_value :=
  match loss with
  | PyFloat f => PyFloat (PrimFloat.mul f weight_decay)
  | Tensor0 v => Tensor0 (fmul v (of_float weight_decay))
  end.

(** The body of the loop of [regularize]; [torch_norm] is
    [torch.norm(param, p=norm)]. *)
Definition regularize_step (torch_norm : tensor F -> Z -> F) (norm : Z)
    (loss : loss_value) (np : string * tensor F) : loss_value :=
  let '(name, param) := np in
  if Py.str_contains "weight" name
  then loss_iadd loss (torch_norm param norm)
  else loss.

(** [regularize(parametes, weight_decay, norm)] *)
Definition regularize (torch_norm : tensor F -> Z -> F)
    (parametes : list (string * tensor F)) (weight_decay : float) (norm : Z)
    : loss_value :=
  let loss := fold_left (regularize_step torch_norm norm) parametes (PyFloat 0%float) in
  loss_mul loss weight_decay.

(** The parameters that [regularize] counts, and the sum of their norms
    as the loop accumulates it. *)
Definition named_weight (np : string * tensor F) : bool :=
  Py.str_contains "weight" np.1.

Definition sum_of_norms (torch_norm : tensor F -> Z -> F) (norm : Z)
    (ws : list (string * tensor F)) : F :=
  fold_left fadd ((fun np => torch_norm np.2 norm) <$> ws) (of_float 0%float).

(** [squash(inputs, dim)] *)
Definition squash (inputs : tensor F) (dim : Z) : result (tensor F) :=
  let! squared_norm := Torch.sum_keepdim (Torch.pow inputs 2) dim in
  let! scale :=
    Tensor.binary fdiv squared_norm (Tensor.unary (fadd (of_int 1)) squared_norm) in
  let! unit :=
    Tensor.binary fdiv inputs
      (Tensor.unary (fun v => fadd v (of_float 1e-8%float)) (Torch.sqrt squared_norm)) in
  Tensor.binary fmul scale unit.



End TensorFunctions.

(** A 2 x 2 tensor to run [squash] on. *)
Definition squash_example_input : tensor float :=
  Tensor.mk_tensor [2; 2] [3; 4; 0; 1]%float.

(** The binomial coefficient as the specification words it:
    [n! / (r! * (n - r)!)]. *)
Definition factorial (n : Z) : Z :=
  foldr Z.mul 1%Z (Z.of_nat <$> seq 1 (Z.to_nat n)).

Definition binomial (n r : Z) : Z :=
  (factorial n / (factorial r * factorial (n - r)))%Z.

(** Whether [combination] returns the binomial coefficient. *)
Definition combination_agrees (n r : Z) : bool :=
  match combination n r with
  | inr v => (v =? binomial n r)%Z
  | inl _ => false
  end.

Section MoreTensorFunctions.
Context {F : Type} `{Scalar F, Inhabited F}.

(** [inner_product_similarity(a, b, dim)] *)
Definition inner_product_similarity (a b : tensor F) (dim : Z) : result (tensor F) :=
  let! ab := Tensor.binary fmul a b in
  Torch.sum_dim ab dim.

(** [replicate_tensor(tensor, size, dim)]; [tensor.size(0)] needs a
    dimension. *)
Definition replicate_tensor (x : tensor F) (size dim : Z) : result (tensor F) :=
  match Tensor.shape x with
  | [] => raise IndexError
  | batch_size :: tensor_shape =>
      let repeat_size := 1%Z :: size :: replicate (length tensor_shape) 1%Z in
      let! unsqueezed := Torch.unsqueeze x dim in
      let! repeat_tensor := Torch.repeat unsqueezed repeat_size in
      let reshape_size := (Z.of_nat batch_size * size)%Z :: (Z.of_nat <$> tensor_shape) in
      Torch.view repeat_tensor reshape_size
  end.

End MoreTensorFunctions.

(** The element of a tensor that [x.sum(dim)] adds up at [idx] for the
    position [k] along the summed dimension [d]. *)
Definition along (d k : nat) (idx : list nat) : list nat :=
  take d idx ++ k :: drop d idx.

(** Pascal's triangle: the number of ways to choose [k] elements among
    [n]. *)
Fixpoint pascal (n k : nat) : nat :=
  match n, k with
  | _, 0 => 1
  | 0, S _ => 0
  | S n', S k' => pascal n' k' + pascal n' (S k')
  end.

(** [str.split(sep)] for a separator of one character. *)
Fixpoint str_split (sep : ascii) (s : string) : list string :=
  match s with
  | EmptyString => [EmptyString]
  | String c s' =>
      if Ascii.eqb c sep then EmptyString :: str_split sep s'
      else match str_split sep s' with
           | w :: ws => String c w :: ws
           | [] => [String c EmptyString]
           end
  end.

(** The [xaxis] and [yaxis] arguments of [show_attention]: [None], a [str]
    or a [list]. *)
Inductive axis_arg : Type :=
| AxisNone
| AxisStr (s : string)
| AxisList (l : list string).

(** The calls that [show_attention] makes to matplotlib, in order. *)
Inductive plot_call (A : Type) : Type :=
| PltFigure
| FigAddSubplot (position : Z)
| AxMatshow (attentions : A)
| FigColorbar
| AxSetXTickLabels (labels : list string) (rotation : Z)
| AxSetYTickLabels (labels : list string)
| AxisSetMajorLocator (axis : string) (base : Z)
| PltShow
| PltSavefig (fname : string).

Arguments PltFigure {A}.
Arguments FigAddSubplot {A} _.
Arguments AxMatshow {A} _.
Arguments FigColorbar {A}.
Arguments AxSetXTickLabels {A} _ _.
Arguments AxSetYTickLabels {A} _.
Arguments AxisSetMajorLocator {A} _ _.
Arguments PltShow {A}.
Arguments PltSavefig {A} _.

(** The labels handed to [set_xticklabels] and [set_yticklabels]. *)
Definition tick_labels (axis : axis_arg) : option (list string) :=
  match axis with
  | AxisNone => None
  | AxisStr s => Some (EmptyString :: str_split "," s)
  | AxisList l => Some (EmptyString :: l)
  end.

(** [show_attention(attentions, xaxis, yaxis, savedir)] *)
Definition show_attention {A} (attentions : A) (xaxis yaxis : axis_arg)
    (savedir : option string) : list (plot_call A) :=
  [PltFigure; FigAddSubplot 111; AxMatshow attentions; FigColorbar]
  ++ match tick_labels xaxis with
     | Some labels => [AxSetXTickLabels labels 90]
     | None => []
     end
  ++ match tick_labels yaxis with
     | Some labels => [AxSetYTickLabels labels]
     | None => []
     end
  ++ [AxisSetMajorLocator "x" 1; AxisSetMajorLocator "y" 1]
  ++ [match savedir with
      | None => PltShow
      | Some fname => PltSavefig fname
      end].

End Operations.

(** ** numpy and pandas

    An [ndarray] is a tensor of integers (the token ids of a data set); a
    [DataFrame] has named columns, rows of integers and the default
    [RangeIndex], so that the label of a row is its position. *)

Module Np.

(** [np.cumsum(l)] *)
Fixpoint cumsum_from (acc : Z) (l : list Z) : list Z :=
  match l with
  | [] => []
  | x :: l' => (acc + x)%Z :: cumsum_from (acc + x)%Z l'
  end.

Definition cumsum (l : list Z) : list Z := cumsum_from 0%Z l.

(** An integer index into a dimension of size [n], negative ones counting
    from the end. *)
Definition index (n : nat) (i : Z) : result nat :=
  if decide (0 <= i < Z.of_nat n)%Z then ok (Z.to_nat i)
  else if decide (- Z.of_nat n <= i < 0)%Z then ok (Z.to_nat (Z.of_nat n + i))
  else raise IndexError.

(** The [i]-th block of [sz] elements. *)
Definition chunk (sz : nat) (l : list Z) (i : nat) : list Z :=
  take sz (drop (i * sz) l).

(** [a[i]] *)
Definition getitem (a : tensor Z) (i : Z) : result (tensor Z) :=
  match Tensor.shape a with
  | [] => raise IndexError
  | n :: rest =>
      let! k := index n i in
      ok (Tensor.mk_tensor rest (chunk (Tensor.numel rest) (Tensor.data a) k))
  end.

(** [a[i, j]] *)
Definition getitem2 (a : tensor Z) (i j : Z) : result (tensor Z) :=
  let! row := getitem a i in
  getitem row j.

(** [a[:, j]] *)
Definition column (a : tensor Z) (j : Z) : result (tensor Z) :=
  match Tensor.shape a with
  | n :: m :: rest =>
      let! _ := index m j in
      let! cells := rmapM (fun i => getitem2 a (Z.of_nat i) j) (seq 0 n) in
      ok (Tensor.mk_tensor (n :: rest) (concat (Tensor.data <$> cells)))
  | _ => raise IndexError
  end.

(** [np.unique(xs, return_counts=True)]: the distinct values in increasing
    order, each with its number of occurrences. *)
Fixpoint count_in (x : Z) (l : list (Z * nat)) : list (Z * nat) :=
  match l with
  | [] => [(x, 1)]
  | (y, c) :: l' =>
      if (x =? y)%Z then (y, S c) :: l'
      else if (x <? y)%Z then (x, 1) :: (y, c) :: l'
      else (y, c) :: count_in x l'
  end.

Definition unique_counts (xs : list Z) : list Z * list nat :=
  let table := fold_left (fun acc x => count_in x acc) xs [] in
  (table.*1, table.*2).

(** [np.atleast_2d(a)] *)
Definition atleast_2d (a : tensor Z) : tensor Z :=
  match Tensor.shape a with
  | [] => Tensor.mk_tensor [1; 1] (Tensor.data a)
  | [n] => Tensor.mk_tensor [1; n] (Tensor.data a)
  | _ => a
  end.

(** [np.vstack(l)]: the arrays, made two-dimensional at least, are joined
    along their first dimension; an empty list raises [ValueError]. *)
Definition vstack (l : list (tensor Z)) : result (tensor Z) :=
  match atleast_2d <$> l with
  | [] => raise ValueError
  | (a0 :: _) as l2 =>
      let rest := tail (Tensor.shape a0) in
      if forallb (fun a => bool_decide (tail (Tensor.shape a) = rest)) l2
      then ok (Tensor.mk_tensor
                 (foldr Nat.add 0 ((fun a => hd 0 (Tensor.shape a)) <$> l2) :: rest)
                 (concat (Tensor.data <$> l2)))
      else raise ValueError
  end.

(** The order in which [np.unique] returns the distinct values. *)
Fixpoint increasing (l : list Z) : Prop :=
  match l with
  | [] => True
  | x :: l' => Forall (Z.lt x) l' /\ increasing l'
  end.

End Np.

Module Pd.

Record DataFrame : Type := mk_DataFrame {
  columns : list string;
  rows : list (list Z);
}.

(** Position of a column label. *)
Fixpoint column_position (name : string) (cols : list string) : option nat :=
  match cols with
  | [] => None
  | c :: cols' =>
      if String.eqb name c then Some 0 else S <$> column_position name cols'
  end.

(** [df.iloc[i]] *)
Definition iloc_row (df : DataFrame) (i : Z) : result (list Z) :=
  let! k := Np.index (length (rows df)) i in
  match rows df !! k with
  | Some r => ok r
  | None => raise IndexError
  end.

(** [df.iloc[i, j]] *)
Definition iloc (df : DataFrame) (i j : Z) : result Z :=
  let! r := iloc_row df i in
  let! k := Np.index (length (columns df)) j in
  match r !! k with
  | Some v => ok v
  | None => raise IndexError
  end.

(** [df.iloc[:, j]] *)
Definition iloc_column (df : DataFrame) (j : Z) : result (list Z) :=
  let! k := Np.index (length (columns df)) j in
  ok ((fun r => nth k r 0%Z) <$> rows df).

(** [df[name]] *)
Definition getitem (df : DataFrame) (name : string) : result (list Z) :=
  match column_position name (columns df) with
  | Some k => ok ((fun r => nth k r 0%Z) <$> rows df)
  | None => raise KeyError
  end.

(** [df.loc[i, name]]: the row whose label is [i]. *)
Definition loc (df : DataFrame) (i : Z) (name : string) : result Z :=
  match column_position name (columns df) with
  | Some k =>
      if decide (0 <= i < Z.of_nat (length (rows df)))%Z
      then match rows df !! Z.to_nat i with
           | Some r => ok (nth k r 0%Z)
           | None => raise KeyError
           end
      else raise KeyError
  | None => raise KeyError
  end.

End Pd.

(** ** torecsys/inputs/base/single_index_emb.py *)

Module SingleIndexEmbedding.

Section Layer.
Context {F : Type} `{Inhabited F}.

Record layer : Type := mk_layer {
  embedding : Torch.Embedding F;
  length : nat;
}.

(** [__init__(embed_size, field_size, padding_idx, nn_embedding)]: the
    pretrained table when there is one, else a new table of [field_size]
    rows whose weights are [initial] (the row of [padding_idx] is zero
    there and is read like the others). *)
Definition init (embed_size : nat) (field_size : Z) (padding_idx : option Z)
    (nn_embedding : option (Torch.Embedding F)) (initial : Z -> list F) : layer :=
  match nn_embedding with
  | Some pretrained =>
      {| embedding := pretrained; length := Torch.embedding_dim pretrained |}
  | None =>
      {| embedding := Torch.mk_Embedding field_size embed_size initial;
         length := embed_size |}
  end.

(** [forward(inputs)]; the names [('B', 'N', 'E')] need three dimensions. *)
Definition forward (self : layer) (inputs : tensor Z) : result (tensor F) :=
  let! embedded_tensor := Torch.Embedding_forward (embedding self) inputs in
  if decide (List.length (Tensor.shape embedded_tensor) = 3) then ok embedded_tensor
  else raise RuntimeError.

End Layer.

Arguments layer : clear implicits.

(** A table of three rows of width two, and a batch of two indices. *)
Definition example_layer : layer Z :=
  init 2 3%Z None None (fun i => [i; (i + 10)%Z]).

Definition example_inputs : tensor Z := Tensor.mk_tensor [2; 1] [2; 0]%Z.

End SingleIndexEmbedding.

(** ** torecsys/inputs/base/value_inp.py *)

Module ValueInputs.

Record layer : Type := mk_layer {
  num_fields : Z;
  length : nat;
}.

(** [__init__(num_fields)] *)
Definition init (num_fields : Z) : layer :=
  {| num_fields := num_fields; length := 1 |}.

(** [forward(inputs)]; the names [('B', 'N', 'E')] need three dimensions. *)
Definition forward {A} (self : layer) (inputs : tensor A) : result (tensor A) :=
  let! inputs :=
    if decide (List.length (Tensor.shape inputs) = 2) then Torch.unsqueeze inputs (-1)
    else ok inputs in
  if decide (List.length (Tensor.shape inputs) = 3) then ok inputs else raise RuntimeError.

End ValueInputs.

(** ** torecsys/inputs/base/multi_indices_field_aware_emb.py *)

Module MultiIndicesFieldAwareEmbedding.

Section Layer.
Context {F : Type} `{Inhabited F}.

Record layer : Type := mk_layer {
  num_fields : nat;
  embeddings : list (Torch.Embedding F);
  offsets : tensor Z;
  length : nat;
}.

(** [(0, *np.cumsum(field_sizes)[:-1])] *)
Definition offsets_tuple (field_sizes : list Z) : list Z :=
  0%Z :: removelast (Np.cumsum field_sizes).

(** [__init__(embed_size, field_sizes)]; [weights i] are the rows of the
    [i]-th table. *)
Definition init (embed_size : nat) (field_sizes : list Z)
    (weights : nat -> Z -> list F) : layer :=
  let num_fields := List.length field_sizes in
  let offsets := Torch.Tensor_long (offsets_tuple field_sizes) in
  {| num_fields := num_fields;
     embeddings :=
       (fun i => Torch.mk_Embedding (foldr Z.add 0%Z field_sizes) embed_size (weights i))
         <$> seq 0 num_fields;
     offsets := Tensor.mk_tensor (1 :: Tensor.shape offsets) (Tensor.data offsets);
     length := embed_size |}.

(** [forward(inputs)] *)
Definition forward (self : layer) (inputs : tensor Z) : result (tensor F) :=
  let! inputs := Tensor.binary Z.add inputs (offsets self) in
  let! embedded :=
    rmapM (fun i =>
             match embeddings self !! i with
             | Some emb => Torch.Embedding_forward emb inputs
             | None => raise IndexError
             end)
          (seq 0 (num_fields self)) in
  let! outputs := Torch.cat embedded 1 in
  if decide (List.length (Tensor.shape outputs) = 3) then ok outputs
  else raise RuntimeError.

(** The offsets as the specification words them: the sums of the field
    sizes before each field. *)
Definition prefix_sum (field_sizes : list Z) (i : nat) : Z :=
  foldr Z.add 0%Z (take i field_sizes).

End Layer.

Arguments layer : clear implicits.

(** Tables of width one: row [i] of table [j] holds [j * 10^8 + i]. *)
Definition tagged_tables (j : nat) (i : Z) : list Z :=
  [(Z.of_nat j * 100000000 + i)%Z].

End MultiIndicesFieldAwareEmbedding.

(** ** torecsys/data/subsampling/subsampler.py *)

Module Subsampler.

(** The [data] argument: an [ndarray], a [DataFrame], or any other object. *)
Inductive pydata : Type :=
| NdArray (a : tensor Z)
| PdDataFrame (df : Pd.DataFrame)
| PyOther.

(** The [key] argument: an [int] or a [str]. *)
Inductive pykey : Type :=
| KInt (k : Z)
| KStr (s : string).

(** A value used as the key of a [dict]: a scalar, or an array, which has
    no hash. *)
Inductive dict_key : Type :=
| Hashable (z : Z)
| Unhashable.

(** [data[i, key]] is a scalar when [data] has two dimensions, an array
    when it has more. *)
Definition as_dict_key (v : tensor Z) : dict_key :=
  match Tensor.shape v, Tensor.data v with
  | [], [z] => Hashable z
  | _, _ => Unhashable
  end.

(** [prob[k]] *)
Definition dict_getitem (prob : gmap Z float) (k : dict_key) : result float :=
  match k with
  | Hashable z =>
      match prob !! z with
      | Some p => ok p
      | None => raise KeyError
      end
  | Unhashable => raise TypeError
  end.

(** The formula selected by the [formula] argument. *)
Definition select_formula (formula : string) : result (float -> float -> float) :=
  if String.eqb formula "code"
  then ok (fun f t => ((f - t) / f - PrimFloat.sqrt (t / f))%float)
  else if String.eqb formula "paper"
  then ok (fun f t => (1 - PrimFloat.sqrt (t / f))%float)
  else raise ValueError.

(** The selectors bound by the type of [data]; [R] is the type of a row. *)
Record selectors (R : Type) : Type := mk_selectors {
  row_func : nat -> result R;
  col_func : result (list Z);
  val_func : nat -> result dict_key;
  cat_func : list R -> result pydata;
  shape0 : nat;
}.

Arguments row_func {R} _ _.
Arguments col_func {R} _.
Arguments val_func {R} _ _.
Arguments cat_func {R} _ _.
Arguments shape0 {R} _.

(** The selectors of the [np.ndarray] branch. *)
Definition ndarray_selectors (data : tensor Z) (key : pykey) : selectors (tensor Z) :=
  {| row_func := fun i => Np.getitem data (Z.of_nat i);
     col_func :=
       match key with
       | KInt k => let! c := Np.column data k in ok (Tensor.data c)
       | KStr _ => raise IndexError
       end;
     val_func := fun i =>
       match key with
       | KInt k => let! v := Np.getitem2 data (Z.of_nat i) k in ok (as_dict_key v)
       | KStr _ => raise IndexError
       end;
     cat_func := fun samp => let! a := Np.vstack samp in ok (NdArray a);
     shape0 := hd 0 (Tensor.shape data) |}.

(** The selectors of the [pd.DataFrame] branch; [isinstance(key, int)]
    chooses between positions and labels. *)
Definition dataframe_selectors (data : Pd.DataFrame) (key : pykey) : selectors (list Z) :=
  {| row_func := fun i => Pd.iloc_row data (Z.of_nat i);
     col_func :=
       match key with
       | KInt k => Pd.iloc_column data k
       | KStr s => Pd.getitem data s
       end;
     val_func := fun i =>
       match key with
       | KInt k => let! v := Pd.iloc data (Z.of_nat i) k in ok (Hashable v)
       | KStr s => let! v := Pd.loc data (Z.of_nat i) s in ok (Hashable v)
       end;
     cat_func := fun samp => ok (PdDataFrame (Pd.mk_DataFrame (Pd.columns data) samp));
     shape0 := length (Pd.rows data) |}.

(** The loop over the rows: row [i] is appended when its random draw
    exceeds the probability of its token. *)
Fixpoint sample_rows {R} (sel : selectors R) (prob : gmap Z float)
    (rand_prob : nat -> float) (rows : list nat) (sampled_data : list R)
    : result (list R) :=
  match rows with
  | [] => ok sampled_data
  | i :: rows' =>
      let! k := val_func sel i in
      let! p := dict_getitem prob k in
      if PrimFloat.ltb p (rand_prob i)
      then let! row := row_func sel i in
           sample_rows sel prob rand_prob rows' (sampled_data ++ [row])
      else sample_rows sel prob rand_prob rows' sampled_data
  end.

(** Everything after the selectors are bound. *)
Definition subsample_with {R} (sel : selectors R)
    (formula_func : float -> float -> float) (threshold : float)
    (rand_prob : nat -> float) : result pydata :=
  let! columns := col_func sel in
  let '(uniques, counts) := Np.unique_counts columns in
  let total := foldr Nat.add 0 counts in
  let freq := (fun c => (of_int (Z.of_nat c) / of_int (Z.of_nat total))%float) <$> counts in
  let prob := (fun f => formula_func f threshold) <$> freq in
  let prob : gmap Z float := list_to_map (zip uniques prob) in
  let! sampled_data := sample_rows sel prob rand_prob (seq 0 (shape0 sel)) [] in
  cat_func sel sampled_data.

(** [subsampling(data, key, formula, threshold)]; [rand_prob i] is the
    [i]-th number drawn by [np.random.random]. *)
Definition subsampling (data : pydata) (key : pykey) (formula : string)
    (threshold : float) (rand_prob : nat -> float) : result pydata :=
  let! formula_func := select_formula formula in
  match data with
  | NdArray a => subsample_with (ndarray_selectors a key) formula_func threshold rand_prob
  | PdDataFrame df => subsample_with (dataframe_selectors df key) formula_func threshold rand_prob
  | PyOther => raise TypeError
  end.

(** The rows of a data set, each as the list of its cells. *)
Definition rows_of (data : pydata) : list (list Z) :=
  match data with
  | NdArray a =>
      Np.chunk (Tensor.numel (tail (Tensor.shape a))) (Tensor.data a)
        <$> seq 0 (hd 0 (Tensor.shape a))
  | PdDataFrame df => Pd.rows df
  | PyOther => []
  end.

(** The well-formed inputs: an array holds as many cells as its shape says. *)
Definition data_wf (data : pydata) : Prop :=
  match data with
  | NdArray a => Tensor.wf a
  | _ => True
  end.

(** The objects of the caller, by address.  A call reads its argument
    there and stores its result at a new address. *)
Definition subsampling_call (heap : gmap nat pydata) (data_ref : nat)
    (key : pykey) (formula : string) (threshold : float)
    (rand_prob : nat -> float) : gmap nat pydata * result nat :=
  match heap !! data_ref with
  | Some data =>
      match subsampling data key formula threshold rand_prob with
      | inr out =>
          let r := fresh (dom heap) in
          (<[r := out]> heap, ok r)
      | inl e => (heap, raise e)
      end
  | None => (heap, raise KeyError)
  end.

(** A data set of three rows in the caller's store, and three draws. *)
Definition sampling_example_heap : gmap nat pydata :=
  {[ 0 := NdArray (Tensor.mk_tensor [3; 2] [7; 1; 8; 2; 7; 3]%Z) ]}.

Definition sampling_example_draws (i : nat) : float :=
  match i with
  | 1 => 0.5%float
  | _ => 0.9985%float
  end.

(** The number of rows whose token is [z]. *)
Definition occurrences (z : Z) (column : list Z) : nat :=
  length (List.filter (Z.eqb z) column).

(** The probability that the dictionary [prob] holds for the token [z]:
    the formula applied to the share of the rows that carry it. *)
Definition token_prob (formula_func : float -> float -> float) (threshold : float)
    (column : list Z) (z : Z) : float :=
  formula_func
    (of_int (Z.of_nat (occurrences z column)) / of_int (Z.of_nat (length column)))%float
    threshold.

(** The positions of the rows that the loop keeps. *)
Definition kept (formula_func : float -> float -> float) (threshold : float)
    (rand_prob : nat -> float) (column : list Z) : list nat :=
  List.filter
    (fun i => PrimFloat.ltb (token_prob formula_func threshold column (nth i column 0%Z))
                (rand_prob i))
    (seq 0 (length column)).

End Subsampler.

(** ** torecsys/layers/ctr/mixture_of_experts.py

    The elements of the tensors are real numbers here: the layer is
    described up to the rounding of the floating-point operations. *)

Module MixtureOfExperts.

Local Open Scope R_scope.

(** Sum of a list of reals. *)
Definition Rsum (l : list R) : R := foldr Rplus 0 l.

(** [nn.Linear(in_features, out_features)]: [weight] has shape
    (out_features, in_features) and [bias] has shape (out_features). *)
Record Linear : Type := mk_Linear {
  in_features : nat;
  out_features : nat;
  weight : tensor R;
  bias : tensor R;
}.

(** [linear(x)]: [x @ weight.T + bias] along the last dimension of [x]. *)
Definition Linear_forward (l : Linear) (x : tensor R) : result (tensor R) :=
  let sh := Tensor.shape x in
  match sh with
  | [] => raise RuntimeError
  | _ =>
      let n := List.last sh 0%nat in
      if decide (n = in_features l) then
        ok (Tensor.init (removelast sh ++ [out_features l])
              (fun idx =>
                 let lead := removelast idx in
                 let o := List.last idx 0%nat in
                 Rsum ((fun k => Tensor.at_ x (lead ++ [k]) * Tensor.at_ (weight l) [o; k])
                         <$> seq 0 n)
                 + Tensor.at_ (bias l) [o]))
      else raise RuntimeError
  end.

(** The dimension [nn.Softmax()] picks when it is given none. *)
Definition softmax_dim (ndim : nat) : nat :=
  match ndim with
  | 0 | 1 | 3 => 0
  | _ => 1
  end.

(** [nn.Softmax()(x)] *)
Definition Softmax_forward (x : tensor R) : tensor R :=
  let sh := Tensor.shape x in
  let d := softmax_dim (length sh) in
  Tensor.init sh
    (fun idx =>
       exp (Tensor.at_ x idx)
       / Rsum ((fun k => exp (Tensor.at_ x (<[d := k]> idx))) <$> seq 0 (nth d sh 1%nat))).

(** A gate: [nn.Sequential] of ["Linear"] and ["Softmax"]. *)
Definition gate_forward (gate : Linear) (x : tensor R) : result (tensor R) :=
  let! y := Linear_forward gate x in
  ok (Softmax_forward y).

(** An expert is any module from (B, N * E) tensors to (B, O) tensors. *)
Definition module : Type := tensor R -> result (tensor R).

Record layer : Type := mk_layer {
  experts : list module;
  gates : list Linear;
}.

(** [__init__]: [expert_func i] is the [i]-th instance of the expert
    module, [gate_params i] the weight and the bias of the [i]-th gate. *)
Definition init (inputs_size output_size num_experts : nat) (expert_func : nat -> module)
    (num_gates : nat) (gate_params : nat -> tensor R * tensor R) : layer :=
  {| experts := expert_func <$> seq 0 num_experts;
     gates :=
       (fun i => mk_Linear inputs_size output_size (gate_params i).1 (gate_params i).2)
         <$> seq 0 num_gates |}.

(** [x.flatten(["N", "E"], "E")] on a (B, N, E) tensor. *)
Definition flatten_NE (x : tensor R) : result (tensor R) :=
  match Tensor.shape x with
  | [b; n; e] => ok (Tensor.mk_tensor [b; (n * e)%nat] (Tensor.data x))
  | _ => raise RuntimeError
  end.

(** [w.unflatten("O", [("N", 1), ("O", w.size("O"))])] on a (B, O) tensor. *)
Definition unflatten_O (w : tensor R) : result (tensor R) :=
  match Tensor.shape w with
  | [b; o] => ok (Tensor.mk_tensor [b; 1%nat; o] (Tensor.data w))
  | _ => raise RuntimeError
  end.

(** [torch.einsum("ik,ijk->ijk", [x, w])] *)
Definition einsum_ik_ijk (x w : tensor R) : result (tensor R) :=
  match Tensor.shape x, Tensor.shape w with
  | [i1; k1], [i2; j; k2] =>
      match Tensor.broadcast_dim i1 i2, Tensor.broadcast_dim k1 k2 with
      | Some i, Some k =>
          ok (Tensor.init [i; j; k]
                (fun idx =>
                   match idx with
                   | [a; b; c] =>
                       Tensor.at_ x (Tensor.broadcast_index [i1; k1] [a; c])
                       * Tensor.at_ w (Tensor.broadcast_index [i2; j; k2] [a; b; c])
                   | _ => 0
                   end))
      | _, _ => raise RuntimeError
      end
  | _, _ => raise RuntimeError
  end.

(** [forward(emb_inputs)] *)
Definition forward (self : layer) (emb_inputs : tensor R) : result (tensor R) :=
  let! emb_inputs := flatten_NE emb_inputs in
  let! experts_output :=
    rmapM (fun expert_module : module =>
             let! expert_output := expert_module emb_inputs in
             if decide (length (Tensor.shape expert_output) = 2%nat)
             then ok expert_output else raise RuntimeError)
          (experts self) in
  let! experts_output := Torch.cat experts_output 1 in
  let! gated_weights :=
    rmapM (fun gate_module =>
             let! gated_weight := gate_forward gate_module emb_inputs in
             unflatten_O gated_weight)
          (gates self) in
  let! gated_weights := Torch.cat gated_weights 1 in
  einsum_ik_ijk experts_output gated_weights.





(** A layer of two experts that return their input and one gate with zero
    weights, and a batch of one row of two fields of width one. *)
Definition example_layer : layer :=
  init 2 4 2 (fun _ x => ok x) 1
    (fun _ => (Tensor.mk_tensor [4; 2]%nat [0; 0; 0; 0; 0; 0; 0; 0],
               Tensor.mk_tensor [4]%nat [0; 0; 0; 0])).

Definition example_inputs : tensor R := Tensor.mk_tensor [1; 2; 1]%nat [1; 2].

(** A gate with zero weights, and a layer without expert. *)
Definition example_gate : Linear :=
  mk_Linear 2 4 (Tensor.mk_tensor [4; 2]%nat [0; 0; 0; 0; 0; 0; 0; 0])
    (Tensor.mk_tensor [4]%nat [0; 0; 0; 0]).

Definition example_without_expert : layer :=
  {| experts := []; gates := [example_gate] |}.


(** [k[n:]] *)
Fixpoint str_from (n : nat) (s : string) : string :=
  match n, s with
  | S n', String _ s' => str_from n' s'
  | _, _ => s
  end.

(** The loop over [kwargs.items()] in [__init__]: an argument whose name
    starts with ["expert_"] goes to the experts under the rest of its
    name. *)
Definition expert_kwargs {V} (kwargs : list (string * V)) : gmap string V :=
  fold_left
    (fun acc kv =>
       if String.prefix "expert_" kv.1 then <[str_from 7%nat kv.1 := kv.2]> acc else acc)
    kwargs ∅.

(** [__init__] with its keyword arguments: [expert_func kw i] is the [i]-th
    expert, built by [expert_func] from the keyword arguments [kw]. *)
Definition init_kwargs {V} (inputs_size output_size num_experts : nat)
    (expert_func : gmap string V -> nat -> module) (num_gates : nat)
    (kwargs : list (string * V)) (gate_params : nat -> tensor R * tensor R) : layer :=
  init inputs_size output_size num_experts (expert_func (expert_kwargs kwargs))
    num_gates gate_params.

End MixtureOfExperts.

(** ** torecsys/models/ctr/deep_ffm.py

    The field-aware factorization machine layer and the dense layer are
    modules given to the model; the elements are real numbers. *)

Module DeepFieldAwareFactorizationMachineModel.

Local Open Scope R_scope.

Record model : Type := mk_model {
  ffm : MixtureOfExperts.module;
  deep : MixtureOfExperts.module;
}.

(** [__init__]: [FFMLayer n] is [FFMLayer(num_fields=n, ...)] and
    [DNNLayer s] is [DNNLayer(inputs_size=s, ...)]. *)
Definition init (embed_size num_fields : Z)
    (FFMLayer DNNLayer : Z -> MixtureOfExperts.module) : result model :=
  let ffm := FFMLayer num_fields in
  let! inputs_size := Operations.combination num_fields 2 in
  let inputs_size := (inputs_size * embed_size)%Z in
  ok {| ffm := ffm; deep := DNNLayer inputs_size |}.

(** [x.sum(dim=["N", "E"]).unflatten("B", [("B", b), ("O", 1)])] on a
    (B, N, E) tensor. *)
Definition sum_NE (x : tensor R) : result (tensor R) :=
  match Tensor.shape x with
  | [b; n; e] =>
      ok (Tensor.init [b; 1%nat]
            (fun idx =>
               MixtureOfExperts.Rsum
                 ((fun p => Tensor.at_ x (nth 0 idx 0%nat :: p)) <$> Tensor.indices [n; e])))
  | _ => raise RuntimeError
  end.

(** [x.sum("O", keepdim=True)] on a (B, O) tensor. *)
Definition sum_O (x : tensor R) : result (tensor R) :=
  match Tensor.shape x with
  | [b; o] =>
      ok (Tensor.init [b; 1%nat]
            (fun idx =>
               MixtureOfExperts.Rsum
                 ((fun k => Tensor.at_ x [nth 0 idx 0%nat; k]) <$> seq 0 o)))
  | _ => raise RuntimeError
  end.

(** [forward(field_emb_inputs)] *)
Definition forward (self : model) (field_emb_inputs : tensor R) : result (tensor R) :=
  let! dffm_first := sum_NE field_emb_inputs in
  let! dffm_second := ffm self field_emb_inputs in
  let! dffm_second := MixtureOfExperts.flatten_NE dffm_second in
  let! dffm_second := deep self dffm_second in
  let! dffm_second := sum_O dffm_second in
  Tensor.binary Rplus dffm_second dffm_first.



End DeepFieldAwareFactorizationMachineModel.

(** * Properties *)

(** ** Lists and the error monad *)

Section ListFacts.

Lemma lookup_bind_blocks {X Y} (g : X -> list Y) (m : nat) (l : list X) (j r : nat) (x : X) :
  (forall x, length (g x) = m) ->
  l !! j = Some x -> r < m ->
  (l ≫= g) !! (j * m + r) = g x !! r.
Proof.
  intros Hg. revert j. induction l as [|y l IH]; intros j Hj Hr; [done|].
  rewrite bind_cons. destruct j as [|j]; simpl in *.
  - simplify_eq. apply lookup_app_l. by rewrite Hg.
  - rewrite lookup_app_r by (rewrite Hg; lia).
    rewrite Hg. replace (m + j * m + r - m) with (j * m + r) by lia. by apply IH.
Qed.

Lemma fmap_nth_seq {A} (d : A) (l : list A) :
  (fun e => nth e l d) <$> seq 0 (length l) = l.
Proof.
  apply list_eq. intros i. rewrite list_lookup_fmap.
  destruct (decide (i < length l)) as [Hi|Hi].
  - rewrite lookup_seq_lt by done. simpl.
    destruct (lookup_lt_is_Some_2 l i Hi) as [x Hx].
    rewrite Hx. f_equal. by apply nth_lookup_Some.
  - rewrite lookup_seq_ge by lia. simpl. symmetry. apply lookup_ge_None. lia.
Qed.

Lemma forallb_in_range (n : Z) (l : list Z) :
  (forall i, i ∈ l -> (0 <= i < n)%Z) ->
  forallb (fun i => (0 <=? i)%Z && (i <? n)%Z) l = true.
Proof.
  intros Hr. apply forallb_forall. intros i Hi.
  apply list_elem_of_In, Hr in Hi. apply andb_true_iff. split; [apply Z.leb_le|apply Z.ltb_lt]; lia.
Qed.

Lemma nth_fmap_seq {X} (f : nat -> X) (n e : nat) (d : X) :
  e < n -> nth e (f <$> seq 0 n) d = f e.
Proof.
  intros He. apply nth_lookup_Some with (d := d).
  rewrite list_lookup_fmap, lookup_seq_lt by done. done.
Qed.



Lemma rmapM_ok_fmap {A B} (f : A -> result B) (g : A -> B) (l : list A) :
  (forall x, x ∈ l -> f x = ok (g x)) -> rmapM f l = ok (g <$> l).
Proof.
  induction l as [|x l IH]; intros Hf; [done|].
  simpl. rewrite Hf by left. cbn [rbind ok].
  rewrite IH; [done|]. intros y Hy. apply Hf. by right.
Qed.

Lemma fmap_const_replicate {X Y} (y : Y) (l : list X) :
  (fun _ => y) <$> l = replicate (length l) y.
Proof. induction l as [|x l IH]; [done|]. simpl. f_equal. exact IH. Qed.



Lemma sum_replicate (n s : nat) : foldr Nat.add 0 (replicate n s) = n * s.
Proof. induction n as [|n IH]; [done|]. simpl. by rewrite IH. Qed.


End ListFacts.

(** ** The row-major layout *)

Section TensorFacts.
Import Tensor.

Lemma length_indices (sh : list nat) : length (indices sh) = numel sh.
Proof.
  induction sh as [|n sh IH]; simpl; [done|].
  generalize 0 at 1. induction n as [|n IHn]; intros s; simpl; [done|].
  rewrite length_app, length_fmap, IH, IHn. done.
Qed.

Lemma ravel_lt (sh idx : list nat) :
  valid_index sh idx -> ravel sh idx < numel sh.
Proof.
  unfold valid_index. revert idx. induction sh as [|n sh IH]; intros idx Hv.
  - inversion Hv; simpl; lia.
  - inversion Hv as [|i n' idx' sh' Hi Hv']; subst. simpl.
    specialize (IH _ Hv'). nia.
Qed.

Lemma indices_lookup (sh idx : list nat) :
  valid_index sh idx -> indices sh !! ravel sh idx = Some idx.
Proof.
  unfold valid_index. revert idx. induction sh as [|n sh IH]; intros idx Hv.
  - by inversion Hv.
  - inversion Hv as [|i n' idx' sh' Hi Hv']; subst. simpl.
    rewrite (lookup_bind_blocks _ (numel sh) _ _ _ i).
    + rewrite list_lookup_fmap, (IH _ Hv'). done.
    + intros x. by rewrite length_fmap, length_indices.
    + by apply lookup_seq_lt.
    + by apply ravel_lt.
Qed.

Lemma at_init {A} `{Inhabited A} (sh : list nat) (f : list nat -> A) (idx : list nat) :
  valid_index sh idx -> at_ (init sh f) idx = f idx.
Proof.
  intros Hv. unfold at_, init. simpl.
  apply nth_lookup_Some with (d := inhabitant).
  by rewrite list_lookup_fmap, indices_lookup.
Qed.

Lemma indices_valid (sh idx : list nat) : idx ∈ indices sh -> valid_index sh idx.
Proof.
  revert idx. induction sh as [|n sh IH]; intros idx Hin; simpl in Hin.
  - apply list_elem_of_singleton in Hin as ->. constructor.
  - apply list_elem_of_bind in Hin as (i & Hidx & Hi).
    apply list_elem_of_fmap in Hidx as (idx' & -> & Hidx').
    apply elem_of_seq in Hi. constructor; [lia|by apply IH].
Qed.

Lemma at_elem_of {A} `{Inhabited A} (x : tensor A) (idx : list nat) :
  wf x -> valid_index (shape x) idx -> at_ x idx ∈ data x.
Proof.
  intros Hwf Hv. unfold at_.
  apply list_elem_of_In, nth_In. rewrite Hwf. by apply ravel_lt.
Qed.

Lemma shape_init {A} (sh : list nat) (f : list nat -> A) : shape (init sh f) = sh.
Proof. done. Qed.





End TensorFacts.

(** ** Broadcasting *)

Section BroadcastFacts.
Import Tensor.


Lemma broadcast_dim_refl (n : nat) : broadcast_dim n n = Some n.
Proof. unfold broadcast_dim. by rewrite decide_True. Qed.

Lemma broadcast_dim_1_l (n : nat) : broadcast_dim 1 n = Some n.
Proof. unfold broadcast_dim. repeat case_decide; congruence. Qed.

Lemma broadcast_dim_1_r (n : nat) : broadcast_dim n 1 = Some n.
Proof. unfold broadcast_dim. repeat case_decide; congruence. Qed.

#[local] Arguments broadcast_dim : simpl never.

Lemma mapM_broadcast_refl (sh : list nat) :
  mapM (fun p => broadcast_dim p.1 p.2) (zip sh sh) = Some sh.
Proof.
  induction sh as [|n sh IH]; [done|].
  simpl. rewrite broadcast_dim_refl. simpl. by rewrite IH.
Qed.

Lemma broadcast_shapes_refl (sh : list nat) : broadcast_shapes sh sh = Some sh.
Proof.
  unfold broadcast_shapes, pad_shape.
  rewrite Nat.max_id, Nat.sub_diag. simpl. apply mapM_broadcast_refl.
Qed.

Lemma broadcast_shapes_keepdim_l (sh : list nat) (d : nat) :
  broadcast_shapes (<[d := 1]> sh) sh = Some sh.
Proof.
  unfold broadcast_shapes, pad_shape.
  rewrite length_insert, Nat.max_id, Nat.sub_diag. simpl.
  revert d. induction sh as [|n sh IH]; intros d; [done|].
  destruct d as [|d]; simpl.
  - by rewrite broadcast_dim_1_l, mapM_broadcast_refl.
  - by rewrite broadcast_dim_refl, IH.
Qed.

Lemma broadcast_shapes_keepdim_r (sh : list nat) (d : nat) :
  broadcast_shapes sh (<[d := 1]> sh) = Some sh.
Proof.
  unfold broadcast_shapes, pad_shape.
  rewrite length_insert, Nat.max_id, Nat.sub_diag. simpl.
  revert d. induction sh as [|n sh IH]; intros d; [done|].
  destruct d as [|d]; simpl.
  - by rewrite broadcast_dim_1_r, mapM_broadcast_refl.
  - by rewrite broadcast_dim_refl, IH.
Qed.

Lemma valid_index_length (sh idx : list nat) :
  valid_index sh idx -> length idx = length sh.
Proof. apply Forall2_length. Qed.

Lemma squeeze_index_id (sh idx : list nat) :
  valid_index sh idx ->
  zip_with (fun n i => if decide (n = 1) then 0 else i) sh idx = idx.
Proof.
  induction 1 as [|i n idx sh Hi Hv IH]; [done|].
  simpl. rewrite IH. destruct (decide (n = 1)); [f_equal; lia|done].
Qed.


Lemma broadcast_index_id (sh idx : list nat) :
  valid_index sh idx -> broadcast_index sh idx = idx.
Proof.
  intros Hv. unfold broadcast_index.
  rewrite (valid_index_length _ _ Hv), Nat.sub_diag. simpl.
  by apply squeeze_index_id.
Qed.



Lemma valid_index_set (sh idx : list nat) (d k : nat) :
  valid_index sh idx -> k < nth d sh 1 -> valid_index sh (<[d := k]> idx).
Proof.
  intros Hv. revert d. induction Hv as [|i m idx sh Hi Hv IH]; intros d Hk.
  - constructor.
  - destruct d; simpl in *; constructor; try done. by apply IH.
Qed.


Lemma binary_ok {A B C} `{Inhabited A, Inhabited B, Inhabited C}
    (f : A -> B -> C) (x : tensor A) (y : tensor B) (sh : list nat) :
  broadcast_shapes (shape x) (shape y) = Some sh ->
  binary f x y
  = ok (init sh (fun idx => f (at_ x (broadcast_index (shape x) idx))
                              (at_ y (broadcast_index (shape y) idx)))).
Proof. intros Hb. unfold binary. by rewrite Hb. Qed.

End BroadcastFacts.

Ltac solve_valid_index :=
  unfold Tensor.valid_index; cbn [Tensor.shape insert list_insert app];
  repeat (constructor; [lia|]); constructor.

(** ** Concatenation *)

Section CatFacts.
Context {A : Type} `{Inhabited A}.
Import Tensor.

Lemma cat_locate_spec (sizes : list nat) (n : nat) :
  n < foldr Nat.add 0 sizes ->
  exists j r s, Torch.cat_locate sizes n = (j, r) /\ sizes !! j = Some s /\ r < s
                /\ n = foldr Nat.add 0 (take j sizes) + r.
Proof.
  revert n. induction sizes as [|s sizes IH]; intros n Hn; simpl in *; [lia|].
  destruct (decide (n < s)) as [Hlt|Hge].
  - exists 0, n, s. by repeat split.
  - destruct (IH (n - s)) as (j & r & s' & Hloc & Hs' & Hr & Hsum); [lia|].
    rewrite Hloc. exists (S j), r, s'. repeat split; try done. simpl. lia.
Qed.

Lemma cat_locate_uniform (s count j r : nat) :
  j < count -> r < s -> Torch.cat_locate (replicate count s) (j * s + r) = (j, r).
Proof.
  revert j. induction count as [|count IH]; intros j Hj Hr; [lia|].
  simpl. destruct j as [|j]; simpl.
  - by rewrite decide_True by lia.
  - rewrite decide_False by lia.
    replace (s + j * s + r - s) with (j * s + r) by lia.
    rewrite IH by lia. done.
Qed.


Lemma cat_ok (t0 : tensor A) (ts : list (tensor A)) (dim : nat) :
  dim < length (shape t0) ->
  (forall t, t ∈ ts -> <[dim := 0]> (shape t) = <[dim := 0]> (shape t0)) ->
  Torch.cat (t0 :: ts) dim
  = ok (init (<[dim := foldr Nat.add 0 ((fun t => nth dim (shape t) 0) <$> (t0 :: ts))]>
               (shape t0))
          (fun idx =>
             let '(j, r) :=
               Torch.cat_locate ((fun t => nth dim (shape t) 0) <$> (t0 :: ts))
                 (nth dim idx 0) in
             at_ (nth j (t0 :: ts) t0) (<[dim := r]> idx))).
Proof.
  intros Hdim Hsame. unfold Torch.cat.
  rewrite bool_decide_eq_true_2 by done.
  assert (Hall : forallb (fun t => Torch.same_but dim (shape t0) (shape t)) (t0 :: ts) = true).
  { apply forallb_forall. intros t Ht. apply bool_decide_eq_true_2.
    apply list_elem_of_In in Ht. apply elem_of_cons in Ht as [->|Ht]; [done|].
    symmetry. by apply Hsame. }
  rewrite Hall. done.
Qed.

Lemma cat_ok_head (t0 : tensor A) (ts : list (tensor A)) (dim : nat) :
  head ts = Some t0 ->
  dim < length (shape t0) ->
  (forall t, t ∈ ts -> <[dim := 0]> (shape t) = <[dim := 0]> (shape t0)) ->
  Torch.cat ts dim
  = ok (Tensor.init (<[dim := foldr Nat.add 0 ((fun t => nth dim (shape t) 0) <$> ts)]> (shape t0))
          (fun idx =>
             let '(j, r) :=
               Torch.cat_locate ((fun t => nth dim (shape t) 0) <$> ts) (nth dim idx 0) in
             at_ (nth j ts t0) (<[dim := r]> idx))).
Proof.
  intros Hhd Hdim Hsame. destruct ts as [|t ts]; [done|].
  simpl in Hhd. injection Hhd as ->.
  apply cat_ok; [done|]. intros t Ht. apply Hsame. by right.
Qed.

End CatFacts.

(** ** [squash] *)

Section SquashFacts.
Context {F : Type} `{Scalar F, Inhabited F}.
Import Tensor.




End SquashFacts.

Example squash_rows :
  Operations.squash Operations.squash_example_input (-1)
  = ok (Tensor.mk_tensor [2; 2]
          [0.57692307576923074; 0.76923076769230769; 0; 0.49999999500000009]%float).
Proof. vm_compute. reflexivity. Qed.

Example squash_bad_dim :
  Operations.squash Operations.squash_example_input 2 = raise IndexError.
Proof. vm_compute. reflexivity. Qed.


(** ** [combination] *)

Section CombinationFacts.
Open Scope Z_scope.

Lemma combination_agrees_upto_56 :
  forallb (fun n => forallb (fun r => Operations.combination_agrees (Z.of_nat n) (Z.of_nat r))
                      (seq 0 (S n)))
          (seq 0 57) = true.
Proof. vm_compute. reflexivity. Qed.

Lemma combination_small (n r : Z) :
  0 <= r <= n -> n <= 56 ->
  Operations.combination n r = ok (Operations.binomial n r).
Proof.
  intros Hr Hn.
  pose proof combination_agrees_upto_56 as Hall.
  rewrite List.forallb_forall in Hall.
  specialize (Hall (Z.to_nat n)).
  rewrite List.forallb_forall in Hall.
  assert (Hin : In (Z.to_nat n) (seq 0 57)) by (apply in_seq; lia).
  specialize (Hall Hin (Z.to_nat r)).
  assert (Hin' : In (Z.to_nat r) (seq 0 (S (Z.to_nat n)))) by (apply in_seq; lia).
  specialize (Hall Hin'). rewrite !Z2Nat.id in Hall by lia.
  unfold Operations.combination_agrees in Hall.
  destruct (Operations.combination n r) as [e|v]; [done|].
  apply Z.eqb_eq in Hall. by subst.
Qed.

(** C1: at [n = 57], [r = 25] the quotient of the two products exceeds
    2^53 and is odd, so the float division rounds it: the function returns
    the binomial coefficient plus one. *)
Theorem combination_57_25_is_rounded :
  Operations.combination 57 25 = ok 9929472283517788 /\
  Operations.binomial 57 25 = 9929472283517787 /\
  Operations.combination 57 25 <> ok (Operations.binomial 57 25).
Proof. repeat split; vm_compute; congruence. Qed.

Example combination_1100_550_overflows :
  Operations.combination 1100 550 = raise OverflowError.
Proof. vm_compute. reflexivity. Qed.

End CombinationFacts.

(** ** [dummy_attention] *)

Section DummyAttentionFacts.
Context {F : Type} `{Scalar F, Inhabited F}.

(** C8: the first component is the key, the second the empty tensor, and
    neither depends on the query or on the value. *)
Theorem dummy_attention_ignores_query_value (key query value query' value' : tensor F) :
  (Operations.dummy_attention key query value).1 = key /\
  (Operations.dummy_attention key query value).2 = Tensor.empty /\
  Tensor.data (Operations.dummy_attention key query value).2 = [] /\
  Operations.dummy_attention key query value
  = Operations.dummy_attention key query' value'.
Proof. done. Qed.

End DummyAttentionFacts.

(** ** [regularize] *)

Section SubstringFacts.

Lemma append_nil_l (s : string) : String.append EmptyString s = s.
Proof. done. Qed.

Lemma append_cons_l (c : ascii) (s t : string) :
  String.append (String c s) t = String c (String.append s t).
Proof. done. Qed.

Lemma prefix_iff_append (sub s : string) :
  String.prefix sub s = true <-> exists post, s = String.append sub post.
Proof.
  revert s. induction sub as [|a sub IH]; intros s.
  - split; [intros _; by exists s|intros _; by destruct s].
  - destruct s as [|b s]; simpl.
    + split; [done|]. intros [post Hp]. by rewrite append_cons_l in Hp.
    + destruct (Ascii.ascii_dec a b) as [->|Hne].
      * rewrite IH. split; intros [post Hp]; exists post;
          rewrite append_cons_l in *; congruence.
      * split; [done|]. intros [post Hp]. rewrite append_cons_l in Hp. congruence.
Qed.

Lemma str_contains_iff (sub s : string) :
  Py.str_contains sub s = true
  <-> exists pre post, s = String.append pre (String.append sub post).
Proof.
  induction s as [|c s IH].
  - change (Py.str_contains sub EmptyString)
      with (String.prefix sub EmptyString || false).
    rewrite orb_false_r, prefix_iff_append. split.
    + intros [post Hp]. by exists EmptyString, post.
    + intros (pre & post & Hp). destruct pre as [|c pre].
      * by exists post.
      * by rewrite append_cons_l in Hp.
  - change (Py.str_contains sub (String c s))
      with (String.prefix sub (String c s) || Py.str_contains sub s).
    rewrite orb_true_iff, prefix_iff_append, IH. split.
    + intros [[post Hp]|(pre & post & Hp)].
      * by exists EmptyString, post.
      * exists (String c pre), post. by rewrite append_cons_l, Hp.
    + intros (pre & post & Hp). destruct pre as [|c' pre].
      * left. by exists post.
      * right. exists pre, post. rewrite append_cons_l in Hp. congruence.
Qed.

End SubstringFacts.

Section RegularizeFacts.
Context {F : Type} `{Scalar F, Inhabited F}.
Variable torch_norm : tensor F -> Z -> F.

Lemma regularize_loop_tensor (norm : Z) (params : list (string * tensor F)) (v : F) :
  fold_left (Operations.regularize_step torch_norm norm) params (Operations.Tensor0 v)
  = Operations.Tensor0
      (fold_left fadd
         ((fun np => torch_norm np.2 norm) <$> List.filter Operations.named_weight params)
         v).
Proof.
  revert v. induction params as [|[name param] params IH]; intros v; [done|].
  simpl. unfold Operations.named_weight at 1. simpl.
  destruct (Py.str_contains "weight" name); simpl; by rewrite IH.
Qed.

Lemma regularize_loop_float (norm : Z) (params : list (string * tensor F)) (f : float) :
  fold_left (Operations.regularize_step torch_norm norm) params (Operations.PyFloat f)
  = match List.filter Operations.named_weight params with
    | [] => Operations.PyFloat f
    | ws => Operations.Tensor0
              (fold_left fadd ((fun np => torch_norm np.2 norm) <$> ws) (of_float f))
    end.
Proof.
  induction params as [|[name param] params IH]; [done|].
  simpl. unfold Operations.named_weight at 1. simpl.
  destruct (Py.str_contains "weight" name); simpl; [|done].
  by rewrite regularize_loop_tensor.
Qed.

(** C10: [regularize] multiplies by [weight_decay] the sum of the norms of
    the parameters whose name contains ["weight"], and of no other; when no
    name contains it the result is the Python float [0.0 * weight_decay],
    not a tensor. *)
Theorem regularize_sums_weight_norms
    (params : list (string * tensor F)) (weight_decay : float) (norm : Z) :
  Operations.regularize torch_norm params weight_decay norm
  = match List.filter Operations.named_weight params with
    | [] => Operations.PyFloat (0 * weight_decay)%float
    | ws => Operations.Tensor0
              (fmul (Operations.sum_of_norms torch_norm norm ws)
                    (of_float weight_decay))
    end
  /\ forall np : string * tensor F, Operations.named_weight np = true
       <-> exists pre post,
             np.1 = String.append pre (String.append "weight" post).
Proof.
  split; [|intros np; apply str_contains_iff].
  unfold Operations.regularize. cbv zeta.
  rewrite regularize_loop_float.
  by destruct (List.filter Operations.named_weight params).
Qed.

End RegularizeFacts.

(** ** Embedding lookups *)

Section EmbeddingFacts.
Context {F : Type} `{Inhabited F}.
Import Tensor.

Lemma Embedding_forward_ok (emb : Torch.Embedding F) (inputs : tensor Z) :
  (forall i, i ∈ data inputs -> (0 <= i < Torch.num_embeddings emb)%Z) ->
  Torch.Embedding_forward emb inputs
  = ok (init (shape inputs ++ [Torch.embedding_dim emb])
          (fun idx =>
             nth (nth (length (shape inputs)) idx 0)
                 (Torch.weight emb (at_ inputs (take (length (shape inputs)) idx)))
                 inhabitant)).
Proof.
  intros Hr. unfold Torch.Embedding_forward. by rewrite forallb_in_range.
Qed.

(** C6: on a (B, 1) tensor of indices of the table, [forward] returns a
    (B, 1, E) tensor whose vector at (b, 0) is the row of the weight matrix
    that [inputs[b, 0]] names. *)
Theorem single_index_forward_is_lookup
    (self : SingleIndexEmbedding.layer F) (inputs : tensor Z) (B : nat) :
  let emb := SingleIndexEmbedding.embedding self in
  shape inputs = [B; 1] ->
  wf inputs ->
  (forall i, i ∈ data inputs -> (0 <= i < Torch.num_embeddings emb)%Z) ->
  (forall i, (0 <= i < Torch.num_embeddings emb)%Z ->
             length (Torch.weight emb i) = Torch.embedding_dim emb) ->
  exists out,
    SingleIndexEmbedding.forward self inputs = ok out /\
    shape out = [B; 1; Torch.embedding_dim emb] /\
    forall b, b < B ->
      vector out [b; 0] = Torch.weight emb (at_ inputs [b; 0]).
Proof.
  intros emb Hsh Hwf Hr Hrows.
  unfold SingleIndexEmbedding.forward. fold emb.
  rewrite Embedding_forward_ok by done. cbn [rbind ok].
  rewrite Hsh. simpl.
  eexists. split; [done|]. split; [done|].
  intros b Hb. unfold vector. simpl.
  assert (Hv : valid_index (shape inputs) [b; 0]).
  { rewrite Hsh. repeat constructor; lia. }
  etrans; [|apply (fmap_nth_seq inhabitant)].
  rewrite Hrows by (apply Hr; by apply at_elem_of).
  apply list_fmap_ext. intros i e He. apply lookup_seq in He as [-> He]. simpl.
  rewrite at_init; [done|]. repeat constructor; lia.
Qed.

End EmbeddingFacts.

Example lookup_example_forward :
  SingleIndexEmbedding.forward SingleIndexEmbedding.example_layer SingleIndexEmbedding.example_inputs
  = ok (Tensor.mk_tensor [2; 1; 2] [2; 12; 0; 10]%Z).
Proof. vm_compute. reflexivity. Qed.

Example lookup_example_out_of_table :
  SingleIndexEmbedding.forward SingleIndexEmbedding.example_layer (Tensor.mk_tensor [1; 1] [3]%Z)
  = raise IndexError.
Proof. vm_compute. reflexivity. Qed.

Lemma single_index_forward_is_lookup_witness :
  exists out,
    SingleIndexEmbedding.forward SingleIndexEmbedding.example_layer SingleIndexEmbedding.example_inputs = ok out /\
    Tensor.shape out = [2; 1; 2] /\
    forall b, b < 2 ->
      Tensor.vector out [b; 0]
      = Torch.weight (SingleIndexEmbedding.embedding SingleIndexEmbedding.example_layer)
          (Tensor.at_ SingleIndexEmbedding.example_inputs [b; 0]).
Proof.
  apply (single_index_forward_is_lookup SingleIndexEmbedding.example_layer SingleIndexEmbedding.example_inputs 2).
  - reflexivity.
  - reflexivity.
  - intros i Hi. simpl in *. rewrite !elem_of_cons, elem_of_nil in Hi. lia.
  - intros i Hi. reflexivity.
Defined.

(** ** Integers that a float32 holds exactly *)

Section Float32Facts.
Open Scope Z_scope.

Lemma digits2_pos_size (p : positive) : digits2_pos p = Pos.size p.
Proof. induction p as [p IH|p IH|]; simpl; by rewrite ?IH. Qed.

Lemma digits2_pos_shift (p k : positive) :
  digits2_pos (Pos.iter xO p k) = (digits2_pos p + k)%positive.
Proof.
  induction k as [|k IH] using Pos.peano_ind.
  - simpl. lia.
  - rewrite Pos.iter_succ. simpl. rewrite IH. lia.
Qed.

Lemma pos_shift_value (p k : positive) :
  Z.pos (Pos.iter xO p k) = Z.pos p * 2 ^ Z.pos k.
Proof.
  induction k as [|k IH] using Pos.peano_ind.
  - simpl. lia.
  - rewrite Pos.iter_succ, Pos2Z.inj_xO, IH, Pos2Z.inj_succ, Z.pow_succ_r by lia. lia.
Qed.

Lemma digits2_pos_bound (p : positive) (n : Z) :
  0 <= n -> Z.pos p < 2 ^ n -> Z.pos (digits2_pos p) <= n.
Proof.
  intros Hn Hp. rewrite digits2_pos_size.
  pose proof (Pos.size_le p) as Hle.
  apply Pos2Z.pos_le_pos in Hle. rewrite Pos2Z.inj_pow in Hle.
  destruct (Z_le_gt_dec (Z.pos (Pos.size p)) n) as [|Hgt]; [done|].
  assert (Hpow : 2 ^ (n + 1) <= 2 ^ Z.pos (Pos.size p)) by (apply Z.pow_le_mono_r; lia).
  rewrite Z.pow_add_r, Z.pow_1_r in Hpow by lia. lia.
Qed.

Lemma binary_round_aux_exact (s : bool) (m : positive) (e : Z) :
  Z.pos (digits2_pos m) = 24 -> -149 <= e <= 104 ->
  binary_round_aux 24 128 s (Z.pos m) e loc_Exact = S754_finite s m e.
Proof.
  intros Hd He. unfold binary_round_aux, shr_fexp.
  cbn [Zdigits2 shr_record_of_loc]. rewrite Hd.
  assert (Hf : fexp 24 128 (24 + e) - e = 0) by (unfold fexp, emin; lia).
  rewrite Hf. cbn [shr shr_m loc_of_shr_record round_nearest_even Zdigits2 shr_record_of_loc].
  rewrite Hd, Hf. cbn [shr shr_m].
  destruct (Z.leb_spec e (128 - 24)); [done|lia].
Qed.

Lemma float32_of_int_exact (z : Z) :
  0 <= z < 2 ^ 24 -> Torch.long_of_float (Torch.float32_of_int z) = z.
Proof.
  intros Hz. destruct z as [|p|p]; [done| |lia].
  unfold Torch.float32_of_int, binary_normalize, binary_round.
  pose proof (digits2_pos_bound p 24 ltac:(lia) ltac:(lia)) as Hd.
  assert (Hf : fexp 24 128 (Z.pos (digits2_pos p) + 0) = Z.pos (digits2_pos p) - 24)
    by (unfold fexp, emin; lia).
  rewrite Hf. unfold shl_align. rewrite Z.sub_0_r.
  destruct (Z.pos (digits2_pos p) - 24) as [|k|k] eqn:Hk; [|lia|].
  - rewrite binary_round_aux_exact by lia. simpl. lia.
  - rewrite binary_round_aux_exact; cycle 1.
    { rewrite digits2_pos_shift. lia. }
    { lia. }
    unfold Torch.long_of_float. cbn [Z.leb Z.compare Z.opp].
    rewrite pos_shift_value. apply Z.div_mul. lia.
Qed.

End Float32Facts.

(** ** Field-aware embedding *)

Section PrefixSums.
Open Scope Z_scope.

Lemma cumsum_from_spec (acc : Z) (l : list Z) :
  Np.cumsum_from acc l
  = (fun i => acc + foldr Z.add 0 (take (S i) l)) <$> seq 0 (length l).
Proof.
  revert acc. induction l as [|x l IH]; intros acc; [done|].
  cbn [Np.cumsum_from length seq fmap list_fmap]. f_equal.
  - simpl. lia.
  - rewrite IH, <- (fmap_S_seq 0), <- list_fmap_compose.
    apply list_fmap_ext. intros _ i _. simpl. lia.
Qed.

Lemma offsets_tuple_spec (field_sizes : list Z) :
  field_sizes <> [] ->
  MultiIndicesFieldAwareEmbedding.offsets_tuple field_sizes
  = MultiIndicesFieldAwareEmbedding.prefix_sum field_sizes <$> seq 0 (length field_sizes).
Proof.
  intros Hne. unfold MultiIndicesFieldAwareEmbedding.offsets_tuple, Np.cumsum.
  rewrite cumsum_from_spec.
  destruct (length field_sizes) as [|n] eqn:Hlen.
  { by destruct field_sizes. }
  assert (Hlast : forall f : nat -> Z,
            removelast (f <$> seq 0 (S n)) = f <$> seq 0 n).
  { intros f. rewrite seq_S, fmap_app. cbn [fmap list_fmap]. apply removelast_last. }
  rewrite Hlast. cbn [seq fmap list_fmap]. f_equal.
  rewrite <- (fmap_S_seq 0), <- list_fmap_compose. done.
Qed.

Lemma prefix_sum_bounds (field_sizes : list Z) (i : nat) :
  Forall (fun s => 0 <= s) field_sizes ->
  0 <= MultiIndicesFieldAwareEmbedding.prefix_sum field_sizes i
    <= foldr Z.add 0 field_sizes.
Proof.
  unfold MultiIndicesFieldAwareEmbedding.prefix_sum.
  intros Hpos. revert i. induction Hpos as [|s l Hs Hl IH]; intros i.
  - rewrite take_nil. simpl. lia.
  - destruct i as [|i]; simpl.
    + specialize (IH 0%nat). destruct l; simpl in *; lia.
    + specialize (IH i). lia.
Qed.

Lemma prefix_sum_S (field_sizes : list Z) (i : nat) (s : Z) :
  field_sizes !! i = Some s ->
  MultiIndicesFieldAwareEmbedding.prefix_sum field_sizes (S i)
  = MultiIndicesFieldAwareEmbedding.prefix_sum field_sizes i + s.
Proof.
  unfold MultiIndicesFieldAwareEmbedding.prefix_sum.
  revert i. induction field_sizes as [|x l IH]; intros i Hi; [done|].
  destruct i as [|i]; simpl in *.
  - injection Hi as ->. destruct l; simpl; lia.
  - rewrite (IH i Hi). lia.
Qed.

Lemma Tensor_long_exact (l : list Z) :
  Forall (fun z => 0 <= z < 2 ^ 24) l ->
  Torch.Tensor_long l = Tensor.mk_tensor [length l] l.
Proof.
  intros Hl. unfold Torch.Tensor_long. f_equal.
  induction Hl as [|z l Hz Hl IH]; [done|].
  cbn [fmap list_fmap]. f_equal; [by apply float32_of_int_exact|exact IH].
Qed.

End PrefixSums.

Section FieldAwareSmall.
Context {F : Type} `{Inhabited F}.
Import Tensor.

Lemma broadcast_shapes_batch (B N : nat) :
  broadcast_shapes [B; N] [1; N] = Some [B; N].
Proof.
  unfold broadcast_shapes, pad_shape. simpl.
  by rewrite broadcast_dim_1_r, broadcast_dim_refl.
Qed.

Lemma broadcast_index_batch (N b i : nat) :
  i < N -> broadcast_index [1; N] [b; i] = [0; i].
Proof.
  intros Hi. unfold broadcast_index. simpl.
  destruct (decide (N = 1)); [f_equal; f_equal; lia|done].
Qed.

(** With field sizes that add up to less than 2^24 the offsets are the
    sums of the sizes of the fields before, and [forward] returns the
    (B, N * N, E) tensor whose vector at (b, j * N + i) is the row
    [inputs[b, i] + offset_i] of table [j]. *)
Lemma field_aware_forward_small
    (embed_size : nat) (field_sizes : list Z) (weights : nat -> Z -> list F)
    (inputs : tensor Z) (B : nat) :
  let N := length field_sizes in
  let self := MultiIndicesFieldAwareEmbedding.init embed_size field_sizes weights in
  field_sizes <> [] ->
  Forall (fun s => 0 <= s)%Z field_sizes ->
  (foldr Z.add 0 field_sizes < 2 ^ 24)%Z ->
  shape inputs = [B; N] ->
  (forall b i s, b < B -> field_sizes !! i = Some s ->
                 (0 <= at_ inputs [b; i] < s)%Z) ->
  (forall j r, length (weights j r) = embed_size) ->
  data (MultiIndicesFieldAwareEmbedding.offsets self)
  = MultiIndicesFieldAwareEmbedding.prefix_sum field_sizes <$> seq 0 N /\
  exists out,
    MultiIndicesFieldAwareEmbedding.forward self inputs = ok out /\
    shape out = [B; N * N; embed_size] /\
    forall b i j, b < B -> i < N -> j < N ->
      vector out [b; j * N + i]
      = weights j (at_ inputs [b; i]
                   + MultiIndicesFieldAwareEmbedding.prefix_sum field_sizes i)%Z.
Proof.
  intros N self Hne Hpos Htotal Hsh Hin Hrows.
  set (total := foldr Z.add 0%Z field_sizes) in *.
  assert (HN : 0 < N) by (unfold N; destruct field_sizes; [done|simpl; lia]).
  (* the offsets *)
  assert (Hoff : MultiIndicesFieldAwareEmbedding.offsets self
                 = mk_tensor [1; N]
                     (MultiIndicesFieldAwareEmbedding.prefix_sum field_sizes <$> seq 0 N)).
  { unfold self, MultiIndicesFieldAwareEmbedding.init. cbn [MultiIndicesFieldAwareEmbedding.offsets].
    rewrite Tensor_long_exact.
    - rewrite offsets_tuple_spec by done. cbn [shape data].
      by rewrite length_fmap, length_seq.
    - rewrite offsets_tuple_spec by done. apply Forall_fmap, Forall_forall.
      intros i _. simpl. pose proof (prefix_sum_bounds field_sizes i Hpos). fold total in H0. lia. }
  split; [by rewrite Hoff|].
  assert (Hoffat : forall i, i < N ->
            at_ (MultiIndicesFieldAwareEmbedding.offsets self) [0; i]
            = MultiIndicesFieldAwareEmbedding.prefix_sum field_sizes i).
  { intros i Hi. rewrite Hoff. unfold at_. cbn [shape data ravel numel foldr].
    replace (0 * (N * 1) + (i * 1 + 0)) with i by lia.
    by rewrite nth_fmap_seq. }
  (* the shifted indices *)
  unfold MultiIndicesFieldAwareEmbedding.forward.
  rewrite (binary_ok Z.add inputs _ [B; N]); cycle 1.
  { rewrite Hsh, Hoff. apply broadcast_shapes_batch. }
  cbn [rbind ok]. rewrite Hsh. 
  replace (shape (MultiIndicesFieldAwareEmbedding.offsets self)) with [1; N]
    by (by rewrite Hoff).
  set (shifted := Tensor.init [B; N] _).
  assert (Hshat : forall b i, b < B -> i < N ->
            at_ shifted [b; i]
            = (at_ inputs [b; i]
               + MultiIndicesFieldAwareEmbedding.prefix_sum field_sizes i)%Z).
  { intros b i Hb Hi. unfold shifted. rewrite at_init by solve_valid_index.
    rewrite broadcast_index_id by solve_valid_index.
    rewrite broadcast_index_batch by done. by rewrite Hoffat. }
  assert (Hrange : forall x, x ∈ data shifted -> (0 <= x < total)%Z).
  { intros x Hx. unfold shifted, Tensor.init in Hx. cbn [data] in Hx.
    apply list_elem_of_fmap in Hx as (idx & -> & Hidx).
    apply indices_valid in Hidx.
    inversion Hidx as [|b B' idx1 sh1 Hb Hidx1]; subst.
    inversion Hidx1 as [|i N' idx2 sh2 Hi Hidx2]; subst.
    inversion Hidx2; subst.
    rewrite broadcast_index_id by solve_valid_index.
    rewrite broadcast_index_batch by done. rewrite Hoffat by done.
    destruct (lookup_lt_is_Some_2 field_sizes i Hi) as [s Hs].
    pose proof (Hin b i s Hb Hs).
    pose proof (prefix_sum_bounds field_sizes i Hpos).
    pose proof (prefix_sum_bounds field_sizes (S i) Hpos) as HS.
    rewrite (prefix_sum_S _ _ _ Hs) in HS. fold total in HS.
    clear -H0 H1 HS. clearbody total. revert H0 H1 HS.
    generalize (at_ inputs [b; i])
               (MultiIndicesFieldAwareEmbedding.prefix_sum field_sizes i).
    intros; lia. }
  (* the lookups *)
  set (table j := Tensor.init [B; N; embed_size]
         (fun idx => nth (nth 2 idx 0) (weights j (at_ shifted (take 2 idx))) inhabitant)).
  rewrite (rmapM_ok_fmap _ table); cycle 1.
  { intros j Hj. apply elem_of_seq in Hj.
    change (MultiIndicesFieldAwareEmbedding.num_fields self) with N in Hj.
    unfold self, MultiIndicesFieldAwareEmbedding.init.
    cbn [MultiIndicesFieldAwareEmbedding.embeddings].
    rewrite list_lookup_fmap, lookup_seq_lt by (fold N; lia).
    cbn [fmap option_fmap option_map].
    rewrite Embedding_forward_ok by done. done. }
  cbn [rbind ok].
  change (MultiIndicesFieldAwareEmbedding.num_fields self) with N.
  (* the concatenation *)
  rewrite (cat_ok_head (table 0)); cycle 1.
  { destruct N; [lia|done]. }
  { simpl. lia. }
  { intros t Ht. apply list_elem_of_fmap in Ht as (j & -> & _). done. }
  rewrite <- list_fmap_compose.
  change ((fun t : tensor F => nth 1 (shape t) 0) ∘ table) with (fun _ : nat => N).
  rewrite fmap_const_replicate, length_seq, sum_replicate.
  cbn [rbind ok]. rewrite shape_init.
  change (<[1 := N * N]> (shape (table 0))) with [B; N * N; embed_size].
  rewrite decide_True by done.
  eexists. split; [done|]. split; [done|].
  intros b i j Hb Hi Hj. unfold vector. rewrite shape_init. cbn [List.last].
  etrans; [|apply (fmap_nth_seq inhabitant)]. rewrite Hrows.
  apply list_fmap_ext. intros e' e He. apply lookup_seq in He as [-> He]. simpl.
  assert (Hji : j * N + i < N * N) by nia.
  rewrite at_init by solve_valid_index.
  cbn [nth]. rewrite cat_locate_uniform by done.
  rewrite nth_fmap_seq by done.
  change (<[1 := i]> [b; j * N + i; e']) with [b; i; e'].
  unfold table. rewrite at_init by solve_valid_index.
  cbn [nth take]. by rewrite Hshat.
Qed.

End FieldAwareSmall.

Section FieldAwareFacts.
Open Scope Z_scope.

(** C2: with the field sizes [16777217; 1] the offset of the second field
    should be 16777217; it goes through a float32 tensor and comes out as
    16777216, so entry (0, 1) is looked up one row too low in every table:
    the vector at (0, j * 2 + 1) is row 16777216 of table [j], not row
    [inputs[0, 1] + 16777217]. *)
Theorem field_aware_offsets_lose_precision :
  let field_sizes := [16777217; 1] in
  let self :=
    MultiIndicesFieldAwareEmbedding.init 1%nat field_sizes
      MultiIndicesFieldAwareEmbedding.tagged_tables in
  let inputs := Tensor.mk_tensor [1; 2]%nat [0; 0] in
  MultiIndicesFieldAwareEmbedding.prefix_sum field_sizes 1%nat = 16777217 /\
  Tensor.data (MultiIndicesFieldAwareEmbedding.offsets self) = [0; 16777216] /\
  exists out,
    MultiIndicesFieldAwareEmbedding.forward self inputs = ok out /\
    Tensor.shape out = [1; 4; 1]%nat /\
    forall j, (j < 2)%nat ->
      Tensor.vector out [0; j * 2 + 1]%nat
      = MultiIndicesFieldAwareEmbedding.tagged_tables j 16777216 /\
      Tensor.vector out [0; j * 2 + 1]%nat
      <> MultiIndicesFieldAwareEmbedding.tagged_tables j
           (Tensor.at_ inputs [0; 1]%nat
            + MultiIndicesFieldAwareEmbedding.prefix_sum field_sizes 1%nat).
Proof.
  split; [reflexivity|]. split; [vm_compute; reflexivity|].
  eexists. split; [vm_compute; reflexivity|]. split; [reflexivity|].
  intros j Hj.
  destruct j as [|[|j]]; [| |lia]; split; vm_compute; congruence.
Qed.

Example field_aware_small :
  MultiIndicesFieldAwareEmbedding.forward
    (MultiIndicesFieldAwareEmbedding.init 1%nat [3; 2; 4] MultiIndicesFieldAwareEmbedding.tagged_tables)
    (Tensor.mk_tensor [2; 3]%nat [0; 1; 2; 2; 0; 3])
  = ok (Tensor.mk_tensor [2; 9; 1]%nat
          [0; 4; 7; 100000000; 100000004; 100000007; 200000000; 200000004; 200000007;
           2; 3; 8; 100000002; 100000003; 100000008; 200000002; 200000003; 200000008]).
Proof. vm_compute. reflexivity. Qed.

End FieldAwareFacts.

(** ** Mixture of experts *)

Section MixtureOfExpertsFacts.
Import Tensor MixtureOfExperts.






End MixtureOfExpertsFacts.

Section MixtureOfExpertsForward.
Import Tensor MixtureOfExperts.




End MixtureOfExpertsForward.

Section MixtureOfExpertsTheorem.
Import Tensor MixtureOfExperts.



End MixtureOfExpertsTheorem.


(** ** [subsampling]: the exceptions *)

Section SubsamplingErrors.
Import Subsampler.


(** The check of the formula comes first: with any other formula the call
    raises [ValueError], whatever [data] is. *)
Lemma subsampling_unknown_formula
    (data : pydata) (key : pykey) (formula : string) (threshold : float)
    (rand_prob : nat -> float) :
  formula <> "code" -> formula <> "paper" ->
  subsampling data key formula threshold rand_prob = raise ValueError.
Proof.
  intros Hc Hp. unfold subsampling, select_formula.
  apply String.eqb_neq in Hc, Hp. by rewrite Hc, Hp.
Qed.

(** With a known formula, data that is neither an array nor a frame raises
    [TypeError]. *)
Lemma subsampling_unknown_type
    (key : pykey) (formula : string) (threshold : float) (rand_prob : nat -> float) :
  formula = "code" \/ formula = "paper" ->
  subsampling PyOther key formula threshold rand_prob = raise TypeError.
Proof. intros [->| ->]; reflexivity. Qed.

(** C4: an array without rows, with the formula "paper": nothing is
    sampled, [np.vstack] receives an empty list and raises [ValueError],
    although the formula is one of the two allowed. *)
Theorem subsampling_empty_sample_raises_ValueError
    (threshold : float) (rand_prob : nat -> float) :
  (exists f, select_formula "paper" = ok f) /\
  subsampling (NdArray (Tensor.mk_tensor [0; 1] [])) (KInt 0) "paper" threshold rand_prob
  = raise ValueError.
Proof. split; [by eexists|reflexivity]. Qed.

(** The same happens when every row is dropped. *)
Example subsampling_all_dropped_raises_ValueError :
  subsampling (NdArray (Tensor.mk_tensor [1; 1] [5%Z])) (KInt 0) "paper" 1e-5%float
    (fun _ => 0.5%float)
  = raise ValueError.
Proof. vm_compute. reflexivity. Qed.

(** A frame in the same situation is returned empty. *)
Example subsampling_frame_all_dropped :
  subsampling (PdDataFrame (Pd.mk_DataFrame ["token"] [[5%Z]])) (KInt 0) "paper"
    1e-5%float (fun _ => 0.5%float)
  = ok (PdDataFrame (Pd.mk_DataFrame ["token"] [])).
Proof. vm_compute. reflexivity. Qed.

(** C5: a three-dimensional array, with the formula "paper": the value
    looked up in the dictionary of probabilities is itself an array, which
    cannot be hashed, and the call raises [TypeError] although [data] is an
    [ndarray]. *)
Theorem subsampling_3d_array_raises_TypeError
    (threshold : float) (rand_prob : nat -> float) :
  subsampling (NdArray (Tensor.mk_tensor [1; 1; 1] [5%Z])) (KInt 0) "paper"
    threshold rand_prob
  = raise TypeError.
Proof. reflexivity. Qed.

End SubsamplingErrors.

(** ** [subsampling]: the rows that are kept *)

Section SubsamplingRows.
Import Subsampler.

(** The loop returns what it was given followed by the rows of a
    subsequence of the indices. *)
Lemma sample_rows_sublist {R} (sel : selectors R) (prob : gmap Z float)
    (rand_prob : nat -> float) (rows : list nat) (acc out : list R) :
  sample_rows sel prob rand_prob rows acc = ok out ->
  exists js, js `sublist_of` rows /\ rmapM (row_func sel) js = ok (drop (length acc) out)
             /\ take (length acc) out = acc.
Proof.
  revert acc. induction rows as [|i rows IH]; intros acc Hs; simpl in Hs.
  - injection Hs as <-. exists []. rewrite drop_all, firstn_all. by repeat split.
  - destruct (val_func sel i) as [e|k]; [done|]. cbn [rbind] in Hs.
    destruct (dict_getitem prob k) as [e|p]; [done|]. cbn [rbind] in Hs.
    destruct (PrimFloat.ltb p (rand_prob i)).
    + destruct (row_func sel i) as [e|row] eqn:Hrow; [done|]. cbn [rbind] in Hs.
      destruct (IH _ Hs) as (js & Hsub & Hjs & Hacc).
      rewrite length_app in Hjs, Hacc. simpl in Hjs, Hacc.
      assert (Hout : out = acc ++ row :: drop (length acc + 1) out).
      { rewrite <- (take_drop (length acc + 1) out) at 1.
        rewrite Hacc, <- app_assoc. done. }
      exists (i :: js). split; [by constructor|]. split.
      * simpl. rewrite Hrow. cbn [rbind ok]. rewrite Hjs. cbn [rbind ok].
        rewrite Hout at 2. by rewrite drop_app_length.
      * rewrite Hout. by rewrite take_app_length.
    + destruct (IH _ Hs) as (js & Hsub & Hjs & Hacc).
      exists js. split; [by constructor|done].
Qed.

Lemma sample_rows_kept {R} (sel : selectors R) (prob : gmap Z float)
    (rand_prob : nat -> float) (n : nat) (out : list R) (get : nat -> R) :
  (forall i, i < n -> row_func sel i = ok (get i)) ->
  sample_rows sel prob rand_prob (seq 0 n) [] = ok out ->
  exists js, js `sublist_of` seq 0 n /\ out = get <$> js.
Proof.
  intros Hget Hs.
  destruct (sample_rows_sublist _ _ _ _ _ _ Hs) as (js & Hsub & Hjs & _).
  exists js. split; [done|].
  rewrite (rmapM_ok_fmap _ get) in Hjs.
  - simpl in Hjs. by injection Hjs.
  - intros i Hi. apply Hget.
    pose proof (elem_of_sublist _ _ _ Hi Hsub) as Hin.
    apply elem_of_seq in Hin. lia.
Qed.

(** Chunks of a concatenation of lists of one length. *)
Lemma chunk_concat (m : nat) (ls : list (list Z)) :
  Forall (fun l => length l = m) ls ->
  Np.chunk m (concat ls) <$> seq 0 (length ls) = ls.
Proof.
  intros Hlen. induction Hlen as [|l ls Hl Hls IH]; [done|].
  cbn [length seq fmap list_fmap concat]. f_equal.
  - unfold Np.chunk. simpl. rewrite drop_0. by rewrite take_app_length'.
  - etrans; [|exact IH]. rewrite <- fmap_S_seq, <- list_fmap_compose.
    apply list_fmap_ext. intros j i _. simpl. unfold Np.chunk. f_equal.
    replace (S i * m) with (length l + i * m) by lia.
    by rewrite drop_app_add.
Qed.

Lemma length_chunk (sz n i : nat) (l : list Z) :
  length l = n * sz -> i < n -> length (Np.chunk sz l i) = sz.
Proof.
  intros Hl Hi. unfold Np.chunk. rewrite length_take, length_drop. nia.
Qed.

Lemma index_of_nat (n i : nat) : i < n -> Np.index n (Z.of_nat i) = ok i.
Proof.
  intros Hi. unfold Np.index. rewrite decide_True by lia. by rewrite Nat2Z.id.
Qed.

End SubsamplingRows.

Section SubsamplingArrays.
Import Subsampler.

Lemma sum_of_unit_heads (m : nat) (ds : list (list Z)) :
  foldr Nat.add 0
    ((fun a : tensor Z => hd 0 (Tensor.shape a)) <$> (Tensor.mk_tensor [1; m] <$> ds))
  = length ds.
Proof. induction ds as [|d ds IH]; [done|]. simpl. f_equal. exact IH. Qed.

Lemma concat_of_data (sh : list nat) (ds : list (list Z)) :
  concat (Tensor.data <$> (Tensor.mk_tensor sh <$> ds)) = concat ds.
Proof. induction ds as [|d ds IH]; [done|]. simpl. f_equal. exact IH. Qed.

Lemma vstack_rows (m : nat) (ds : list (list Z)) :
  ds <> [] ->
  Np.vstack (Tensor.mk_tensor [m] <$> ds)
  = ok (Tensor.mk_tensor [length ds; m] (concat ds)).
Proof.
  intros Hne. unfold Np.vstack. rewrite <- list_fmap_compose.
  change (Np.atleast_2d ∘ Tensor.mk_tensor [m]) with (@Tensor.mk_tensor Z [1; m]).
  destruct ds as [|d0 ds]; [done|]. clear Hne.
  cbn [fmap list_fmap Tensor.shape Tensor.data tail hd forallb foldr].
  rewrite bool_decide_eq_true_2 by done. cbn [andb].
  assert (Hall : forallb (fun a : tensor Z => bool_decide (tail (Tensor.shape a) = [m]))
                   (@Tensor.mk_tensor Z [1; m] <$> ds) = true).
  { apply forallb_forall. intros x Hx. apply in_map_iff in Hx as (d & <- & _).
    by apply bool_decide_eq_true_2. }
  rewrite Hall.
  change (list_fmap _ _ ?f ?l) with (f <$> l).
  cbn [concat length]. by rewrite sum_of_unit_heads, concat_of_data.
Qed.

Lemma getitem_row (a : tensor Z) (n : nat) (rest : list nat) (i : nat) :
  Tensor.shape a = n :: rest -> i < n ->
  Np.getitem a (Z.of_nat i)
  = ok (Tensor.mk_tensor rest (Np.chunk (Tensor.numel rest) (Tensor.data a) i)).
Proof.
  intros Hsh Hi. unfold Np.getitem. rewrite Hsh, index_of_nat by done. done.
Qed.

(** An array of more than two dimensions with a row: the first value used
    as a key has no hash. *)
Lemma sample_rows_unhashable (a : tensor Z) (k : Z) (n m r : nat) (rest : list nat)
    (prob : gmap Z float) (rand_prob : nat -> float) (acc : list (tensor Z)) :
  Tensor.shape a = S n :: m :: r :: rest ->
  (exists kk, Np.index m k = ok kk) ->
  sample_rows (ndarray_selectors a (KInt k)) prob rand_prob (seq 0 (S n)) acc
  = raise TypeError.
Proof.
  intros Hsh [kk Hk]. cbn [seq sample_rows val_func ndarray_selectors].
  unfold Np.getitem2.
  rewrite (getitem_row a (S n) (m :: r :: rest) 0 Hsh) by lia. cbn [rbind ok].
  unfold Np.getitem. cbn [Tensor.shape]. rewrite Hk. done.
Qed.

Lemma array_rows_kept (a : tensor Z) (key : pykey)
    (formula_func : float -> float -> float) (threshold : float)
    (rand_prob : nat -> float) (out : pydata) :
  Tensor.wf a ->
  subsample_with (ndarray_selectors a key) formula_func threshold rand_prob = ok out ->
  (exists a', out = NdArray a') /\ rows_of out `sublist_of` rows_of (NdArray a).
Proof.
  intros Hwf. unfold subsample_with.
  destruct key as [k|s]; [|done]. cbn [col_func ndarray_selectors].
  unfold Np.column at 1.
  destruct (Tensor.shape a) as [|n [|m rest]] eqn:Hsh; [done|done|].
  destruct (Np.index m k) as [e|kk] eqn:Hk; [done|]. cbn [rbind ok].
  destruct (rmapM _ (seq 0 n)) as [e|cells]; [done|]. cbn [rbind ok].
  destruct (Np.unique_counts _) as [uniques counts].
  set (prob := list_to_map _).
  change (shape0 (ndarray_selectors a (KInt k))) with (hd 0 (Tensor.shape a)).
  rewrite Hsh. cbn [hd].
  destruct (sample_rows _ prob rand_prob (seq 0 n) []) as [e|sampled] eqn:Hs; [done|].
  cbn [rbind ok]. change (cat_func (ndarray_selectors a (KInt k)) sampled)
    with (let! a' := Np.vstack sampled in ok (NdArray a')).
  destruct rest as [|r rest].
  - apply (sample_rows_kept _ _ _ _ _
             (Tensor.mk_tensor [m] ∘ Np.chunk (Tensor.numel [m]) (Tensor.data a)))
      in Hs as (js & Hsub & ->).
    2:{ intros i Hi. by apply (getitem_row a n). }
    destruct js as [|j js]; [done|].
    rewrite list_fmap_compose.
    remember (Np.chunk (Tensor.numel [m]) (Tensor.data a) <$> (j :: js)) as ds eqn:Hds.
    assert (Hne : ds <> []) by (by subst ds).
    rewrite vstack_rows by done. cbn [rbind ok].
    intros [= <-]. split; [by eexists|].
    unfold rows_of. rewrite Hsh. cbn [Tensor.shape Tensor.data hd tail].
    rewrite chunk_concat.
    + subst ds. by apply fmap_sublist.
    + subst ds. apply Forall_fmap, Forall_forall. intros i Hi. simpl.
      apply (length_chunk _ n); [by rewrite Hwf, Hsh|].
      pose proof (elem_of_sublist _ _ _ Hi Hsub) as Hin.
      apply elem_of_seq in Hin. lia.
  - destruct n as [|n].
    + simpl in Hs. injection Hs as <-. done.
    + rewrite (sample_rows_unhashable a k n m r rest) in Hs by eauto. done.
Qed.

End SubsamplingArrays.

Section SubsamplingFrames.
Import Subsampler.

Lemma iloc_row_nth (df : Pd.DataFrame) (i : nat) :
  i < length (Pd.rows df) ->
  Pd.iloc_row df (Z.of_nat i) = ok (nth i (Pd.rows df) []).
Proof.
  intros Hi. unfold Pd.iloc_row. rewrite index_of_nat by done. cbn [rbind ok].
  destruct (lookup_lt_is_Some_2 _ _ Hi) as [r Hr]. rewrite Hr.
  f_equal. symmetry. by apply nth_lookup_Some.
Qed.

Lemma frame_rows_kept (df : Pd.DataFrame) (key : pykey)
    (formula_func : float -> float -> float) (threshold : float)
    (rand_prob : nat -> float) (out : pydata) :
  subsample_with (dataframe_selectors df key) formula_func threshold rand_prob = ok out ->
  (exists rows, out = PdDataFrame (Pd.mk_DataFrame (Pd.columns df) rows)) /\
  rows_of out `sublist_of` rows_of (PdDataFrame df).
Proof.
  unfold subsample_with.
  destruct (col_func (dataframe_selectors df key)) as [e|columns]; [done|].
  cbn [rbind ok].
  destruct (Np.unique_counts columns) as [uniques counts].
  set (prob := list_to_map _).
  change (shape0 (dataframe_selectors df key)) with (length (Pd.rows df)).
  destruct (sample_rows _ prob rand_prob _ []) as [e|sampled] eqn:Hs; [done|].
  cbn [rbind ok].
  apply (sample_rows_kept _ _ _ _ _ (fun i => nth i (Pd.rows df) [])) in Hs
    as (js & Hsub & ->).
  2:{ intros i Hi. by apply iloc_row_nth. }
  intros [= <-]. split; [by eexists|].
  cbn [rows_of Pd.rows].
  apply (fmap_sublist (fun i => nth i (Pd.rows df) [])) in Hsub.
  by rewrite fmap_nth_seq in Hsub.
Qed.

End SubsamplingFrames.

Section SubsamplingCall.
Import Subsampler.

Lemma subsampling_rows_sublist (data : pydata) (key : pykey) (formula : string)
    (threshold : float) (rand_prob : nat -> float) (out : pydata) :
  data_wf data ->
  subsampling data key formula threshold rand_prob = ok out ->
  rows_of out `sublist_of` rows_of data.
Proof.
  intros Hwf. unfold subsampling.
  destruct (select_formula formula) as [e|f]; [done|]. cbn [rbind ok].
  destruct data as [a|df|]; [| |done]; intros Hs.
  - by apply array_rows_kept in Hs as [_ Hs].
  - by apply frame_rows_kept in Hs as [_ Hs].
Qed.

(** C9: when the call returns, the rows of the result are rows of the
    input, in the order of the input (a subsequence of them, hence no more
    of them), the result is a new object, and the input and every other
    object of the caller are what they were. *)
Theorem subsampling_returns_rows_in_order
    (heap heap' : gmap nat pydata) (data_ref r : nat) (key : pykey)
    (formula : string) (threshold : float) (rand_prob : nat -> float) :
  (forall data, heap !! data_ref = Some data -> data_wf data) ->
  subsampling_call heap data_ref key formula threshold rand_prob = (heap', ok r) ->
  exists data out,
    heap !! data_ref = Some data /\
    heap' !! r = Some out /\
    rows_of out `sublist_of` rows_of data /\
    (forall row, row ∈ rows_of out -> row ∈ rows_of data) /\
    length (rows_of out) <= length (rows_of data) /\
    heap' !! data_ref = Some data /\
    heap !! r = None /\
    (forall p, p <> r -> heap' !! p = heap !! p).
Proof.
  intros Hwf. unfold subsampling_call.
  destruct (heap !! data_ref) as [data|] eqn:Hdata; [|done].
  destruct (subsampling data key formula threshold rand_prob) as [e|out] eqn:Hs; [done|].
  intros [= <- <-].
  pose proof (is_fresh (dom heap)) as Hfresh.
  assert (Hnone : heap !! fresh (dom heap) = None) by (by apply not_elem_of_dom).
  assert (Hsub : rows_of out `sublist_of` rows_of data).
  { eapply subsampling_rows_sublist; [|done]. by apply Hwf. }
  exists data, out. split; [done|].
  split; [by rewrite lookup_insert_eq|].
  split; [done|].
  split; [intros row Hrow; by eapply elem_of_sublist|].
  split; [by apply sublist_length|].
  split; [rewrite lookup_insert_ne; [done|congruence]|].
  split; [done|].
  intros p Hp. by rewrite lookup_insert_ne.
Qed.

Example sampling_example_run :
  subsampling_call sampling_example_heap 0 (KInt 0) "paper" 1e-5%float
    sampling_example_draws
  = (<[1 := NdArray (Tensor.mk_tensor [2; 2] [7; 1; 7; 3]%Z)]> sampling_example_heap,
     ok 1).
Proof. vm_compute. reflexivity. Qed.

End SubsamplingCall.

Lemma subsampling_returns_rows_in_order_witness :
  exists data out,
    Subsampler.sampling_example_heap !! 0 = Some data /\
    (<[1 := Subsampler.NdArray (Tensor.mk_tensor [2; 2] [7; 1; 7; 3]%Z)]>
       Subsampler.sampling_example_heap) !! 1 = Some out /\
    Subsampler.rows_of out `sublist_of` Subsampler.rows_of data /\
    (forall row, row ∈ Subsampler.rows_of out -> row ∈ Subsampler.rows_of data) /\
    length (Subsampler.rows_of out) <= length (Subsampler.rows_of data) /\
    (<[1 := Subsampler.NdArray (Tensor.mk_tensor [2; 2] [7; 1; 7; 3]%Z)]>
       Subsampler.sampling_example_heap) !! 0 = Some data /\
    Subsampler.sampling_example_heap !! 1 = None /\
    (forall p, p <> 1 ->
       (<[1 := Subsampler.NdArray (Tensor.mk_tensor [2; 2] [7; 1; 7; 3]%Z)]>
          Subsampler.sampling_example_heap) !! p
       = Subsampler.sampling_example_heap !! p).
Proof.
  apply (subsampling_returns_rows_in_order Subsampler.sampling_example_heap _ 0 1
           (Subsampler.KInt 0) "paper" 1e-5%float Subsampler.sampling_example_draws).
  - intros data Hdata. vm_compute in Hdata. injection Hdata as <-. reflexivity.
  - vm_compute. reflexivity.
Defined.

(** ** [subsampling]: where the exceptions come from *)

Section SubsamplingErrorSources.
Import Subsampler.

#[local] Ltac by_result := unfold ok, raise in *; congruence.


Lemma sample_rows_error {R} (sel : selectors R) (prob : gmap Z float)
    (rand_prob : nat -> float) (rows : list nat) (acc : list R) (e : exn) :
  sample_rows sel prob rand_prob rows acc = raise e ->
  exists i, i ∈ rows /\
    (val_func sel i = raise e \/
     (exists k, val_func sel i = ok k /\ dict_getitem prob k = raise e) \/
     row_func sel i = raise e).
Proof.
  revert acc. induction rows as [|i rows IH]; intros acc Hs; [done|].
  cbn [sample_rows] in Hs.
  destruct (val_func sel i) as [e'|k] eqn:Hv; cbn [rbind] in Hs.
  { injection Hs as ->. exists i. split; [by left|by left]. }
  destruct (dict_getitem prob k) as [e'|p] eqn:Hp; cbn [rbind] in Hs.
  { injection Hs as ->. exists i. split; [by left|]. right; left. by exists k. }
  destruct (PrimFloat.ltb p (rand_prob i)).
  - destruct (row_func sel i) as [e'|row] eqn:Hr; cbn [rbind] in Hs.
    { injection Hs as ->. exists i. split; [by left|]. by right; right. }
    destruct (IH _ Hs) as (j & Hj & Hcase). exists j. split; [by right|done].
  - destruct (IH _ Hs) as (j & Hj & Hcase). exists j. split; [by right|done].
Qed.

Lemma index_error (n : nat) (i : Z) (e : exn) :
  Np.index n i = raise e -> e = IndexError.
Proof. unfold Np.index. repeat case_decide; by_result. Qed.



Lemma iloc_row_error (df : Pd.DataFrame) (i : Z) (e : exn) :
  Pd.iloc_row df i = raise e -> e = IndexError.
Proof.
  unfold Pd.iloc_row. destruct (Np.index _ i) as [e'|k] eqn:Hi; cbn [rbind].
  - intros [= ->]. by eapply index_error.
  - destruct (Pd.rows df !! k); by_result.
Qed.

Lemma iloc_error (df : Pd.DataFrame) (i j : Z) (e : exn) :
  Pd.iloc df i j = raise e -> e = IndexError.
Proof.
  unfold Pd.iloc. destruct (Pd.iloc_row df i) as [e'|r] eqn:Hi; cbn [rbind].
  - intros [= ->]. by eapply iloc_row_error.
  - destruct (Np.index _ j) as [e'|k] eqn:Hj; cbn [rbind].
    + intros [= ->]. by eapply index_error.
    + destruct (r !! k); by_result.
Qed.

Lemma loc_error (df : Pd.DataFrame) (i : Z) (name : string) (e : exn) :
  Pd.loc df i name = raise e -> e = KeyError.
Proof.
  unfold Pd.loc. destruct (Pd.column_position _ _); [|by_result].
  case_decide; [|by_result]. destruct (Pd.rows df !! _); by_result.
Qed.

(** On a frame only a position or a label out of the frame can fail. *)
Lemma frame_errors (df : Pd.DataFrame) (key : pykey)
    (formula_func : float -> float -> float) (threshold : float)
    (rand_prob : nat -> float) (e : exn) :
  subsample_with (dataframe_selectors df key) formula_func threshold rand_prob = raise e ->
  e = IndexError \/ e = KeyError.
Proof.
  unfold subsample_with.
  destruct (col_func (dataframe_selectors df key)) as [e'|columns] eqn:Hc; cbn [rbind].
  { intros [= ->]. destruct key as [k|s]; cbn [col_func dataframe_selectors] in Hc.
    - unfold Pd.iloc_column in Hc. destruct (Np.index _ k) as [e'|kk] eqn:Hk; [|done].
      cbn [rbind] in Hc. injection Hc as ->. left. by eapply index_error.
    - unfold Pd.getitem in Hc. destruct (Pd.column_position _ _); [done|].
      right. by_result. }
  destruct (Np.unique_counts columns) as [uniques counts].
  destruct (sample_rows _ _ rand_prob _ []) as [e'|sampled] eqn:Hs; cbn [rbind]; [|done].
  intros [= ->].
  apply sample_rows_error in Hs as (i & _ & [Hv|[(k & Hv & Hd)|Hr]]).
  - destruct key as [k|s]; cbn [val_func dataframe_selectors] in Hv.
    + destruct (Pd.iloc df _ k) as [e'|v] eqn:Hi; cbn [rbind] in Hv; [|done].
      injection Hv as ->. left. by eapply iloc_error.
    + destruct (Pd.loc df _ s) as [e'|v] eqn:Hi; cbn [rbind] in Hv; [|done].
      injection Hv as ->. right. by eapply loc_error.
  - destruct k as [z|].
    + cbn [dict_getitem] in Hd. destruct (_ !! z); [done|]. right. by_result.
    + destruct key as [k|s]; cbn [val_func dataframe_selectors] in Hv.
      * destruct (Pd.iloc df _ k); cbn [rbind] in Hv; done.
      * destruct (Pd.loc df _ s); cbn [rbind] in Hv; done.
  - cbn [row_func dataframe_selectors] in Hr. left. by eapply iloc_row_error.
Qed.


Lemma index_ok_lt (n : nat) (i : Z) (k : nat) : Np.index n i = ok k -> k < n.
Proof.
  unfold Np.index. repeat case_decide; intros Hk; [| |by_result];
    injection Hk as <-; lia.
Qed.




(** X29: whenever [subsampling] raises [ValueError] the formula is not an
    allowed one or the data is an array; a frame with an allowed formula
    never raises it. *)
Lemma subsampling_ValueError_sources
    (data : pydata) (key : pykey) (formula : string) (threshold : float)
    (rand_prob : nat -> float) :
  subsampling data key formula threshold rand_prob = raise ValueError ->
  (formula <> "code" /\ formula <> "paper") \/ exists a, data = NdArray a.
Proof.
  unfold subsampling.
  destruct (select_formula formula) as [e|f] eqn:Hf; cbn [rbind].
  { intros _. left. split; intros ->; discriminate. }
  intros Hs. right. destruct data as [a|df|]; [by exists a| |by_result].
  apply frame_errors in Hs as [?|?]; by_result.
Qed.

End SubsamplingErrorSources.

(** ** Dropping and inserting a dimension *)

Section ViewFacts.
Import Tensor.

Lemma numel_delete_1 (sh : list nat) (d : nat) :
  sh !! d = Some 1 -> numel (delete d sh) = numel sh.
Proof.
  revert d. induction sh as [|n sh IH]; intros d Hd; [done|].
  destruct d as [|d]; simpl in *.
  - injection Hd as ->. lia.
  - by rewrite IH.
Qed.

Lemma ravel_nil_r (sh : list nat) : ravel sh [] = 0.
Proof. by destruct sh. Qed.

Lemma ravel_delete_1 (sh idx : list nat) (d : nat) :
  sh !! d = Some 1 ->
  ravel (delete d sh) idx = ravel sh (Operations.along d 0 idx).
Proof.
  unfold Operations.along.
  revert d idx. induction sh as [|n sh IH]; intros d idx Hd; [done|].
  destruct d as [|d]; simpl in Hd.
  - injection Hd as ->. simpl. by rewrite drop_0.
  - destruct idx as [|i idx]; simpl.
    + rewrite ravel_nil_r. lia.
    + rewrite numel_delete_1 by done. by rewrite IH.
Qed.

Lemma valid_index_along (sh idx : list nat) (d n k : nat) :
  sh !! d = Some n -> k < n ->
  valid_index (delete d sh) idx -> valid_index sh (Operations.along d k idx).
Proof.
  unfold valid_index, Operations.along.
  revert d idx. induction sh as [|m sh IH]; intros d idx Hd Hk Hv; [done|].
  destruct d as [|d]; simpl in Hd.
  - injection Hd as ->. simpl in *. rewrite drop_0. by constructor.
  - simpl in Hv. inversion Hv as [|i m' idx' sh' Hi Hv']; subst. simpl.
    constructor; [done|]. by apply IH.
Qed.

Lemma insert_along (idx : list nat) (d k k' : nat) :
  d <= length idx ->
  <[d := k]> (Operations.along d k' idx) = Operations.along d k idx.
Proof.
  intros Hd. unfold Operations.along.
  rewrite insert_app_r_alt by (rewrite length_take; lia).
  rewrite length_take, Nat.min_l, Nat.sub_diag by done. done.
Qed.

Lemma delete_insert_same {X} (l : list X) (d : nat) (x : X) :
  delete d (<[d := x]> l) = delete d l.
Proof.
  revert d. induction l as [|y l IH]; intros d; [done|].
  destruct d as [|d]; simpl; [done|]. by rewrite IH.
Qed.

Lemma length_delete_valid (sh idx : list nat) (d : nat) :
  d < length sh -> valid_index (delete d sh) idx -> d <= length idx.
Proof.
  intros Hd Hv. apply valid_index_length in Hv.
  rewrite length_delete in Hv by (by apply lookup_lt_is_Some_2). lia.
Qed.

End ViewFacts.

(** ** [inner_product_similarity] *)

Section InnerProductFacts.
Context {F : Type} `{Scalar F, Inhabited F}.
Import Tensor.

Lemma sum_dim_entries (x : tensor F) (dim : Z) :
  let n := Z.of_nat (length (shape x)) in
  let d := Z.to_nat (dim `mod` n) in
  (- n <= dim < n)%Z ->
  exists out,
    Torch.sum_dim x dim = ok out /\
    shape out = delete d (shape x) /\
    forall idx, valid_index (delete d (shape x)) idx ->
      at_ out idx
      = fold_left fadd
          ((fun k => at_ x (Operations.along d k idx)) <$> seq 0 (nth d (shape x) 1))
          (of_int 0).
Proof.
  intros n d Hdim.
  assert (Hn : Nat.max (length (shape x)) 1 = length (shape x)) by (unfold n in Hdim; lia).
  assert (Hw : wrap_dim (length (shape x)) dim = ok d).
  { unfold wrap_dim. cbv zeta. rewrite Hn. fold n. by rewrite decide_True. }
  assert (Hd : d < length (shape x)).
  { unfold d. pose proof (Z.mod_pos_bound dim n). unfold n in *. lia. }
  unfold Torch.sum_dim, Torch.sum_keepdim. cbv zeta. rewrite Hw. cbn [rbind ok].
  rewrite shape_init.
  eexists. split; [done|]. cbn [shape data].
  rewrite delete_insert_same. split; [done|].
  intros idx Hv.
  pose proof (length_delete_valid _ _ _ Hd Hv) as Hlen.
  unfold at_ at 1. cbn [shape data].
  rewrite <- (delete_insert_same (shape x) d 1).
  rewrite ravel_delete_1 by (by apply list_lookup_insert_eq).
  match goal with
  | |- nth _ (data ?t) inhabitant = ?rhs =>
      change (at_ t (Operations.along d 0 idx) = rhs)
  end.
  rewrite at_init; cycle 1.
  { apply (valid_index_along _ _ _ 1); [by apply list_lookup_insert_eq|lia|].
    by rewrite delete_insert_same. }
  f_equal. apply list_fmap_ext. intros i k Hk. by rewrite insert_along.
Qed.

Lemma binary_same_shape {A B C} `{Inhabited A, Inhabited B, Inhabited C}
    (f : A -> B -> C) (x : tensor A) (y : tensor B) :
  shape x = shape y ->
  exists out,
    binary f x y = ok out /\ shape out = shape x /\
    forall idx, valid_index (shape x) idx -> at_ out idx = f (at_ x idx) (at_ y idx).
Proof.
  intros Hsh. rewrite (binary_ok f x y (shape x)) by (rewrite <- Hsh; apply broadcast_shapes_refl).
  eexists. split; [done|]. split; [done|].
  intros idx Hv. rewrite at_init by done.
  rewrite <- Hsh. by rewrite broadcast_index_id.
Qed.

(** X1: on two tensors of one shape and a dimension [d] of theirs,
    [inner_product_similarity] drops that dimension and returns, at every
    index, the products of the entries along [d] added up in index order. *)
Theorem inner_product_similarity_entries (a b : tensor F) (dim : Z) :
  let n := Z.of_nat (length (shape a)) in
  let d := Z.to_nat (dim `mod` n) in
  shape a = shape b ->
  (- n <= dim < n)%Z ->
  exists out,
    Operations.inner_product_similarity a b dim = ok out /\
    shape out = delete d (shape a) /\
    forall idx, valid_index (delete d (shape a)) idx ->
      at_ out idx
      = fold_left fadd
          ((fun k => fmul (at_ a (Operations.along d k idx)) (at_ b (Operations.along d k idx)))
             <$> seq 0 (nth d (shape a) 1))
          (of_int 0).
Proof.
  intros n d Hsh Hdim.
  destruct (binary_same_shape fmul a b Hsh) as (ab & Hab & Habsh & Habat).
  unfold Operations.inner_product_similarity. rewrite Hab. cbn [rbind ok].
  destruct (sum_dim_entries ab dim) as (out & Hout & Houtsh & Houtat).
  { by rewrite Habsh. }
  rewrite Habsh in *. fold n d in Houtsh, Houtat.
  exists out. split; [done|]. split; [done|].
  intros idx Hv. rewrite Houtat by done.
  f_equal. apply list_fmap_ext. intros i k Hk. apply lookup_seq in Hk as [-> Hk].
  apply Habat.
  assert (Hd : d < length (shape a)).
  { unfold d. pose proof (Z.mod_pos_bound dim n). unfold n in *. lia. }
  destruct (lookup_lt_is_Some_2 _ _ Hd) as [m Hm].
  apply (valid_index_along _ _ _ m); [done| |done].
  rewrite (nth_lookup_Some _ _ _ _ Hm) in Hk. simpl in Hk. lia.
Qed.

(** X2: two batches of [N_a] and of [N_b] vectors are not multiplied pair
    by pair: unless the two numbers are equal or one of them is 1 the
    shapes cannot be broadcast and the call raises. *)
Theorem inner_product_similarity_needs_equal_counts
    (a b : tensor F) (dim : Z) (B Na Nb E : nat) :
  shape a = [B; Na; E] -> shape b = [B; Nb; E] ->
  Na <> Nb -> Na <> 1 -> Nb <> 1 ->
  Operations.inner_product_similarity a b dim = raise RuntimeError.
Proof.
  intros Ha Hb Hne Ha1 Hb1.
  unfold Operations.inner_product_similarity, binary.
  rewrite Ha, Hb. unfold broadcast_shapes, pad_shape. simpl.
  rewrite !broadcast_dim_refl. unfold broadcast_dim.
  rewrite !decide_False by done. done.
Qed.

End InnerProductFacts.

Lemma inner_product_similarity_entries_witness :
  exists out,
    Operations.inner_product_similarity
      Operations.squash_example_input Operations.squash_example_input 1 = ok out /\
    Tensor.shape out = [2] /\
    forall idx, Tensor.valid_index [2] idx ->
      Tensor.at_ out idx
      = fold_left fadd
          ((fun k => fmul (Tensor.at_ Operations.squash_example_input (Operations.along 1 k idx))
                          (Tensor.at_ Operations.squash_example_input (Operations.along 1 k idx)))
             <$> seq 0 2)
          (of_int 0).
Proof.
  apply (inner_product_similarity_entries
           Operations.squash_example_input Operations.squash_example_input 1).
  - reflexivity.
  - simpl. lia.
Defined.

Example inner_product_similarity_rows :
  Operations.inner_product_similarity
    Operations.squash_example_input Operations.squash_example_input 1
  = ok (Tensor.mk_tensor [2] [25; 1]%float).
Proof. vm_compute. reflexivity. Qed.

Lemma inner_product_similarity_needs_equal_counts_witness :
  Operations.inner_product_similarity
    (Tensor.mk_tensor [1; 2; 1] [1; 2]%float)
    (Tensor.mk_tensor [1; 3; 1] [1; 2; 3]%float) (-1)
  = raise RuntimeError.
Proof.
  apply (inner_product_similarity_needs_equal_counts _ _ _ 1 2 3 1); try reflexivity; lia.
Defined.

(** ** [replicate_tensor] *)

Section ReplicateFacts.
Context {F : Type} `{Scalar F, Inhabited F}.
Import Tensor.

Lemma numel_app (l1 l2 : list nat) : numel (l1 ++ l2) = numel l1 * numel l2.
Proof. induction l1 as [|n l1 IH]; simpl; [lia|]. rewrite IH. lia. Qed.

Lemma numel_unsqueeze (sh : list nat) (d : nat) :
  numel (take d sh ++ 1 :: drop d sh) = numel sh.
Proof.
  rewrite <- (take_drop d sh) at 3. rewrite !numel_app. simpl. lia.
Qed.

Lemma numel_replicate_1 (k : nat) : numel (Z.to_nat <$> replicate k 1%Z) = 1.
Proof.
  rewrite fmap_replicate. unfold numel.
  induction k as [|k IH]; [done|]. simpl in *. rewrite IH. lia.
Qed.

Lemma numel_repeat (l : list nat) (ss : list Z) :
  length l = length ss ->
  numel (zip_with (fun n s => n * Z.to_nat s) l ss) = numel l * numel (Z.to_nat <$> ss).
Proof.
  unfold numel.
  revert ss. induction l as [|n l IH]; intros [|s ss] Hlen; simpl in *; try lia.
  rewrite IH by lia. change (list_fmap _ _ ?f ?l) with (f <$> l). nia.
Qed.

Lemma repeat_ones (l : list nat) (k : nat) :
  length l = k -> zip_with (fun n s => n * Z.to_nat s) l (replicate k 1%Z) = l.
Proof.
  revert k. induction l as [|n l IH]; intros [|k] Hlen; simpl in *; try lia; [done|].
  rewrite IH by lia. f_equal. lia.
Qed.

Lemma to_nat_of_nat_list (l : list nat) : Z.to_nat <$> (Z.of_nat <$> l) = l.
Proof.
  induction l as [|n l IH]; [done|]. by rewrite !fmap_cons, Nat2Z.id, IH.
Qed.

Lemma forallb_nonneg_of_nat (l : list nat) :
  forallb (fun s => (0 <=? s)%Z) (Z.of_nat <$> l) = true.
Proof.
  induction l as [|n l IH]; [done|]. rewrite fmap_cons. cbn [forallb].
  rewrite IH, andb_true_r. apply Z.leb_le. lia.
Qed.

Lemma forallb_nonneg_ones (k : nat) :
  forallb (fun s => (0 <=? s)%Z) (replicate k 1%Z) = true.
Proof. induction k as [|k IH]; [done|]. simpl. exact IH. Qed.

Lemma delete_unsqueeze (sh : list nat) (d : nat) :
  d <= length sh -> delete d (take d sh ++ 1 :: drop d sh) = sh.
Proof.
  revert d. induction sh as [|n sh IH]; intros d Hd.
  - destruct d; [done|simpl in Hd; lia].
  - destruct d as [|d]; simpl in *; [done|]. rewrite IH by lia. done.
Qed.

Lemma lookup_unsqueeze (sh : list nat) (d : nat) :
  d <= length sh -> (take d sh ++ 1 :: drop d sh) !! d = Some 1.
Proof.
  intros Hd. rewrite lookup_app_r by (rewrite length_take; lia).
  rewrite length_take, Nat.min_l, Nat.sub_diag by done. done.
Qed.

(** An element of the tensor with one more dimension is the element of the
    tensor it comes from. *)
Lemma ravel_unsqueeze (sh idx : list nat) (d : nat) :
  d <= length sh ->
  ravel (take d sh ++ 1 :: drop d sh) (Operations.along d 0 idx) = ravel sh idx.
Proof.
  intros Hd. rewrite <- ravel_delete_1 by (by apply lookup_unsqueeze).
  by rewrite delete_unsqueeze.
Qed.

Lemma valid_index_unsqueeze (sh idx : list nat) (d : nat) :
  d <= length sh -> valid_index sh idx ->
  valid_index (take d sh ++ 1 :: drop d sh) (Operations.along d 0 idx).
Proof.
  intros Hd Hv. apply (valid_index_along _ _ _ 1); [by apply lookup_unsqueeze|lia|].
  by rewrite delete_unsqueeze.
Qed.

Lemma zip_with_mod_valid (sh idx : list nat) :
  valid_index sh idx -> zip_with Nat.modulo idx sh = idx.
Proof.
  induction 1 as [|i n idx sh Hi Hv IH]; [done|].
  simpl. rewrite IH. f_equal. by apply Nat.mod_small.
Qed.

(** What [replicate_tensor] computes when every step goes through: the
    tensor with one more dimension is tiled along its second dimension and
    the elements are read again under the shape (B * size, ...). *)
Lemma replicate_tensor_ok (x : tensor F) (size dim : Z) (B : nat) (rest : list nat) :
  let n := Z.of_nat (S (length (shape x))) in
  let d := Z.to_nat (dim `mod` n) in
  let sh_u := take d (shape x) ++ 1 :: drop d (shape x) in
  let sizes := 1%Z :: size :: replicate (length rest) 1%Z in
  shape x = B :: rest ->
  (- n <= dim < n)%Z ->
  (0 <= size)%Z ->
  Operations.replicate_tensor x size dim
  = ok (mk_tensor (B * Z.to_nat size :: rest)
          (data (init (zip_with (fun n s => n * Z.to_nat s) sh_u sizes)
                   (fun idx => at_ (mk_tensor sh_u (data x)) (zip_with Nat.modulo idx sh_u))))).
Proof.
  intros n d sh_u sizes Hsh Hdim Hsize.
  assert (Hd : d <= length (shape x)).
  { unfold d. pose proof (Z.mod_pos_bound dim n). unfold n in *. lia. }
  assert (Hlen : length sh_u = length sizes).
  { unfold sh_u, sizes. rewrite length_app, length_take. simpl.
    rewrite length_drop, length_replicate, Hsh in *. simpl in *. lia. }
  unfold Operations.replicate_tensor. rewrite Hsh.
  unfold Torch.unsqueeze. cbv zeta. fold n. rewrite decide_True by done.
  fold d. fold sh_u. cbn [rbind ok].
  unfold Torch.repeat. cbn [shape data]. fold sizes.
  rewrite bool_decide_eq_true_2 by lia.
  assert (Hnn : forallb (fun s => (0 <=? s)%Z) sizes = true).
  { unfold sizes. simpl. rewrite forallb_nonneg_ones, andb_true_r. apply Z.leb_le. lia. }
  rewrite Hnn. cbn [andb rbind ok].
  unfold pad_shape. rewrite Hlen, Nat.sub_diag. cbn [replicate app drop].
  unfold Torch.view. rewrite shape_init.
  cbn [forallb]. rewrite forallb_nonneg_of_nat, andb_true_r.
  replace (0 <=? Z.of_nat B * size)%Z with true by (symmetry; apply Z.leb_le; lia).
  cbn [fmap list_fmap].
  change (list_fmap _ _ ?f ?l) with (f <$> l).
  rewrite to_nat_of_nat_list.
  replace (Z.to_nat (Z.of_nat B * size)) with (B * Z.to_nat size) by lia.
  rewrite decide_True; [done|].
  rewrite numel_repeat by done.
  unfold sh_u. rewrite numel_unsqueeze, Hsh. unfold sizes. cbn [fmap list_fmap numel foldr].
  change (list_fmap _ _ ?f ?l) with (f <$> l).
  change (foldr Nat.mul 1 ?l) with (numel l).
  rewrite numel_replicate_1. lia.
Qed.

Lemma at_view_init (sh sh' idx idx' : list nat) (f : list nat -> F) :
  valid_index sh idx -> ravel sh' idx' = ravel sh idx ->
  at_ (mk_tensor sh' (data (init sh f))) idx' = f idx.
Proof.
  intros Hv Hr. unfold at_ at 1. cbn [shape data]. rewrite Hr.
  change (at_ (init sh f) idx = f idx). by apply at_init.
Qed.

(** X3: with [dim] other than the first dimension, [replicate_tensor]
    returns the (B * size, ...) tensor in which every row of the input
    stands [size] times in a row: row [b * size + s] is row [b]. *)
Theorem replicate_tensor_by_row (x : tensor F) (size dim : Z) (B : nat) (rest : list nat) :
  let n := Z.of_nat (S (length (shape x))) in
  shape x = B :: rest ->
  (- n <= dim < n)%Z ->
  (dim `mod` n <> 0)%Z ->
  (0 <= size)%Z ->
  exists out,
    Operations.replicate_tensor x size dim = ok out /\
    shape out = B * Z.to_nat size :: rest /\
    forall b s idx, b < B -> s < Z.to_nat size -> valid_index rest idx ->
      at_ out ((b * Z.to_nat size + s) :: idx) = at_ x (b :: idx).
Proof.
  intros n Hsh Hdim Hd0 Hsize.
  rewrite (replicate_tensor_ok x size dim B rest) by done. fold n.
  eexists. split; [done|]. split; [done|].
  intros b s idx Hb Hs Hv.
  set (S' := Z.to_nat size) in *.
  set (d := Z.to_nat (dim `mod` n)).
  assert (Hd : 0 < d <= length (shape x)).
  { unfold d. pose proof (Z.mod_pos_bound dim n). unfold n in *. lia. }
  destruct d as [|d'] eqn:Hdeq; [lia|].
  rewrite Hsh in *. cbn [take drop app length] in *.
  assert (Hd' : d' <= length rest) by lia.
  pose proof (valid_index_unsqueeze rest idx d' Hd' Hv) as HvJ.
  pose proof (ravel_unsqueeze rest idx d' Hd') as HrJ.
  pose proof (numel_unsqueeze rest d') as Hnum.
  assert (Hlen : length (take d' rest ++ 1 :: drop d' rest) = Datatypes.S (length rest)).
  { rewrite length_app, length_take. simpl. rewrite length_drop. lia. }
  destruct (take d' rest ++ 1 :: drop d' rest) as [|h T]; [done|].
  inversion HvJ as [|j0 h' J' T' Hj0 HvJ' HJ]; subst h' T'.
  rewrite <- HJ in HrJ.
  cbn [zip_with]. rewrite repeat_ones by (simpl in Hlen; lia).
  erewrite (at_view_init _ _ (b :: (s * h + j0) :: J')); cycle 1.
  { constructor; [lia|]. constructor; [fold S'; nia|done]. }
  { cbn [ravel numel foldr] in *. fold S'.
    change (foldr Nat.mul 1 ?l) with (numel l) in *. nia. }
  cbn [zip_with]. rewrite (zip_with_mod_valid T J') by done.
  rewrite (Nat.mod_small b B) by done.
  replace ((s * h + j0) `mod` h) with j0
    by (rewrite Nat.add_comm, Nat.Div0.mod_add; symmetry; by apply Nat.mod_small).
  unfold at_. cbn [shape data]. rewrite Hsh. f_equal.
  cbn [ravel numel foldr] in *. change (foldr Nat.mul 1 ?l) with (numel l) in *. nia.
Qed.

(** X4: with [dim] the first dimension, [replicate_tensor] returns the
    (B * size, ...) tensor in which the whole batch stands [size] times:
    row [j] is row [j mod B] of the input. *)
Theorem replicate_tensor_by_batch (x : tensor F) (size dim : Z) (B : nat) (rest : list nat) :
  let n := Z.of_nat (S (length (shape x))) in
  shape x = B :: rest ->
  (- n <= dim < n)%Z ->
  (dim `mod` n = 0)%Z ->
  (0 <= size)%Z ->
  exists out,
    Operations.replicate_tensor x size dim = ok out /\
    shape out = B * Z.to_nat size :: rest /\
    forall j idx, j < B * Z.to_nat size -> valid_index rest idx ->
      at_ out (j :: idx) = at_ x (j `mod` B :: idx).
Proof.
  intros n Hsh Hdim Hd0 Hsize.
  rewrite (replicate_tensor_ok x size dim B rest) by done. fold n.
  eexists. split; [done|]. split; [done|].
  intros j idx Hj Hv.
  set (S' := Z.to_nat size) in *.
  rewrite Hd0, Hsh. change (Z.to_nat 0) with 0. cbn [take drop app zip_with].
  rewrite repeat_ones by done.
  assert (HB : 0 < B) by nia.
  erewrite (at_view_init _ _ (0 :: j :: idx)); cycle 1.
  { constructor; [lia|]. constructor; [fold S'; lia|done]. }
  { cbn [ravel numel foldr]. lia. }
  cbn [zip_with]. rewrite (zip_with_mod_valid rest idx) by done.
  unfold at_. cbn [shape data]. rewrite Hsh. f_equal.
Qed.

(** X5: [replicate_tensor] returns exactly when the tensor has a dimension,
    [dim] names a place where one can be inserted and [size] is not
    negative; a tensor without dimension and a [dim] out of range raise
    [IndexError], a negative [size] raises [RuntimeError]. *)
Theorem replicate_tensor_returns (x : tensor F) (size dim : Z) :
  let n := Z.of_nat (S (length (shape x))) in
  ((exists out, Operations.replicate_tensor x size dim = ok out)
   <-> shape x <> [] /\ (- n <= dim < n)%Z /\ (0 <= size)%Z) /\
  (shape x = [] \/ ~ (- n <= dim < n)%Z ->
   Operations.replicate_tensor x size dim = raise IndexError) /\
  (shape x <> [] -> (- n <= dim < n)%Z -> (size < 0)%Z ->
   Operations.replicate_tensor x size dim = raise RuntimeError).
Proof.
  intros n.
  assert (Hidx : shape x = [] \/ ~ (- n <= dim < n)%Z ->
                 Operations.replicate_tensor x size dim = raise IndexError).
  { intros Hbad. unfold Operations.replicate_tensor.
    destruct (shape x) as [|B rest] eqn:Hsh; [done|].
    destruct Hbad as [?|Hbad]; [done|].
    unfold Torch.unsqueeze. cbv zeta. rewrite Hsh.
    by rewrite decide_False by exact Hbad. }
  assert (Hneg : shape x <> [] -> (- n <= dim < n)%Z -> (size < 0)%Z ->
                 Operations.replicate_tensor x size dim = raise RuntimeError).
  { intros Hne Hdim Hsize. unfold Operations.replicate_tensor.
    destruct (shape x) as [|B rest] eqn:Hsh; [done|].
    unfold Torch.unsqueeze. cbv zeta. rewrite Hsh.
    rewrite decide_True by exact Hdim.
    cbn [rbind ok]. unfold Torch.repeat. cbn [shape data forallb].
    replace (0 <=? size)%Z with false by (symmetry; apply Z.leb_gt; lia).
    by rewrite andb_false_r. }
  split; [|done]. split.
  - intros [out Hout].
    destruct (shape x) as [|B rest] eqn:Hsh.
    { rewrite Hidx in Hout by (by left). done. }
    destruct (decide (- n <= dim < n)%Z) as [Hdim|Hdim].
    2:{ rewrite Hidx in Hout by (by right). done. }
    destruct (decide (0 <= size)%Z) as [Hsize|Hsize]; [done|].
    rewrite Hneg in Hout by (try done; lia). done.
  - intros (Hne & Hdim & Hsize).
    assert (Hex : exists B rest, shape x = B :: rest).
    { clear -Hne. destruct (shape x) as [|B rest]; [done|by eexists _, _]. }
    destruct Hex as (B & rest & Hsh).
    rewrite (replicate_tensor_ok x size dim B rest) by done. by eexists.
Qed.

End ReplicateFacts.

Lemma replicate_tensor_by_row_witness :
  exists out,
    Operations.replicate_tensor Operations.squash_example_input 2 1 = ok out /\
    Tensor.shape out = [2 * Z.to_nat 2; 2] /\
    forall b s idx, b < 2 -> s < Z.to_nat 2 -> Tensor.valid_index [2] idx ->
      Tensor.at_ out ((b * Z.to_nat 2 + s) :: idx)
      = Tensor.at_ Operations.squash_example_input (b :: idx).
Proof.
  apply (replicate_tensor_by_row Operations.squash_example_input 2 1 2 [2]).
  - reflexivity.
  - by vm_compute.
  - by vm_compute.
  - lia.
Defined.

Example replicate_tensor_rows :
  Operations.replicate_tensor Operations.squash_example_input 2 1
  = ok (Tensor.mk_tensor [4; 2] [3; 4; 3; 4; 0; 1; 0; 1]%float).
Proof. vm_compute. reflexivity. Qed.

Lemma replicate_tensor_by_batch_witness :
  exists out,
    Operations.replicate_tensor Operations.squash_example_input 2 0 = ok out /\
    Tensor.shape out = [2 * Z.to_nat 2; 2] /\
    forall j idx, j < 2 * Z.to_nat 2 -> Tensor.valid_index [2] idx ->
      Tensor.at_ out (j :: idx)
      = Tensor.at_ Operations.squash_example_input (j `mod` 2 :: idx).
Proof.
  apply (replicate_tensor_by_batch Operations.squash_example_input 2 0 2 [2]).
  - reflexivity.
  - by vm_compute.
  - reflexivity.
  - lia.
Defined.

Example replicate_tensor_batches :
  Operations.replicate_tensor Operations.squash_example_input 2 0
  = ok (Tensor.mk_tensor [4; 2] [3; 4; 0; 1; 3; 4; 0; 1]%float).
Proof. vm_compute. reflexivity. Qed.

(** ** [squash]: the dimension *)

Section SquashErrors.
Context {F : Type} `{Scalar F, Inhabited F}.
Import Tensor.

(** X6: [squash] returns exactly when [dim] is a dimension of the input
    (counted from either end), the result has the shape of the input, and
    the only exception it raises is [IndexError]. *)
Theorem squash_returns (inputs : tensor F) (dim : Z) :
  let n := Z.of_nat (Nat.max (length (shape inputs)) 1) in
  match Operations.squash inputs dim with
  | inr out => (- n <= dim < n)%Z /\ shape out = shape inputs
  | inl e => e = IndexError /\ ~ (- n <= dim < n)%Z
  end.
Proof.
  intros n. unfold Operations.squash, Torch.sum_keepdim. cbv zeta.
  change (shape (Torch.pow inputs 2)) with (shape inputs).
  unfold wrap_dim. cbv zeta. fold n.
  destruct (decide (- n <= dim < n)%Z) as [Hdim|Hdim]; [|done].
  cbn [rbind ok].
  set (d := Z.to_nat (dim `mod` n)).
  set (sh := shape inputs).
  set (sq := init (<[d := 1]> sh) _).
  rewrite (binary_ok fdiv sq (unary _ sq) (<[d := 1]> sh))
    by apply broadcast_shapes_refl.
  cbn [rbind ok].
  rewrite (binary_ok fdiv inputs (unary _ (Torch.sqrt sq)) sh)
    by apply broadcast_shapes_keepdim_r.
  cbn [rbind ok].
  rewrite (binary_ok fmul _ _ sh) by apply broadcast_shapes_keepdim_l.
  done.
Qed.

End SquashErrors.

(** ** [combination]: the arguments out of range, and the symmetry *)

Section CombinationEdges.
Open Scope Z_scope.

Lemma range_empty_down (n k : Z) : k <= 0 -> Py.range n (n - k) (-1) = [].
Proof.
  intros Hk. unfold Py.range. cbn [Z.ltb Z.compare Z.opp].
  change (- (-1)) with 1. rewrite Z.div_1_r.
  by replace (Z.to_nat (n - (n - k) - -1 - 1)) with 0%nat by lia.
Qed.

Lemma range_empty_up (k : Z) : k <= 0 -> Py.range 1 (k + 1) 1 = [].
Proof.
  intros Hk. unfold Py.range. cbn [Z.ltb Z.compare].
  rewrite Z.div_1_r.
  by replace (Z.to_nat (k + 1 - 1 + 1 - 1)) with 0%nat by lia.
Qed.

(** X7: a size of combinations that is negative or larger than [n] gives
    1, not 0 and no exception. *)
Theorem combination_out_of_range (n r : Z) :
  r < 0 \/ n < r -> Operations.combination n r = ok 1.
Proof.
  intros Hr. unfold Operations.combination. cbv zeta.
  rewrite range_empty_down, range_empty_up by lia.
  vm_compute. reflexivity.
Qed.

(** X8: choosing [r] elements or leaving [r] elements are counted by the
    same computation: the results are equal, rounding and exceptions
    included. *)
Theorem combination_symmetric (n r : Z) :
  Operations.combination n (n - r) = Operations.combination n r.
Proof.
  unfold Operations.combination. cbv zeta.
  replace (Z.min (n - r) (n - (n - r))) with (Z.min r (n - r)) by lia.
  done.
Qed.

End CombinationEdges.

Lemma combination_out_of_range_witness : Operations.combination 3 5 = ok 1%Z.
Proof. apply (combination_out_of_range 3 5). lia. Defined.

(** ** [combination]: quotients that a float holds exactly *)

Section ExactQuotients.
Open Scope Z_scope.

Lemma Zdigits2_log2 (p : positive) : Zdigits2 (Z.pos p) = Z.log2 (Z.pos p) + 1.
Proof.
  cbn [Zdigits2]. rewrite digits2_pos_size.
  destruct p as [p|p|]; cbn [Z.log2 Pos.size]; lia.
Qed.

Lemma Zdigits2_pos_log2 (z : Z) : 0 < z -> Zdigits2 z = Z.log2 z + 1.
Proof. destruct z as [|p|p]; [lia| |lia]. intros _. apply Zdigits2_log2. Qed.

(** A mantissa [Q * 2^s] of 53 or 54 bits with the exponent [-s] is [Q]
    exactly: rounding drops at most one bit, and this bit is zero. *)
Lemma binary_round_aux_quotient (Q s : Z) :
  0 < Q -> Z.log2 Q < 53 ->
  s = 52 - Z.log2 Q \/ s = 53 - Z.log2 Q ->
  binary_round_aux 53 1024 false (Q * 2 ^ s) (- s) loc_Exact
  = S754_finite false (Z.to_pos (Q * 2 ^ (52 - Z.log2 Q))) (Z.log2 Q - 52).
Proof.
  intros HQ Hl Hs. set (l := Z.log2 Q) in *.
  assert (Hl0 : 0 <= l) by apply Z.log2_nonneg.
  set (m := Q * 2 ^ (52 - l)).
  assert (Hm : 0 < m) by (unfold m; apply Z.mul_pos_pos; [done|apply Z.pow_pos_nonneg; lia]).
  assert (Hdm : Zdigits2 m = 53).
  { rewrite Zdigits2_pos_log2 by done. unfold m.
    rewrite Z.log2_mul_pow2 by lia. fold l. lia. }
  assert (Hstage :
    (let '(mrs'', e'') := shr_fexp 53 1024 m (l - 52) loc_Exact in
     match shr_m mrs'' with
     | 0 => S754_zero false
     | Z.pos m0 =>
         if e'' <=? 1024 - 53 then S754_finite false m0 e'' else S754_infinity false
     | Z.neg _ => S754_nan
     end) = S754_finite false (Z.to_pos m) (l - 52)).
  { unfold shr_fexp. rewrite Hdm.
    replace (fexp 53 1024 (53 + (l - 52)) - (l - 52)) with 0 by (unfold fexp, emin; lia).
    cbn [shr shr_record_of_loc shr_m].
    destruct m as [|p|p]; [lia| |lia].
    destruct (Z.leb_spec (l - 52) (1024 - 53)); [done|lia]. }
  destruct Hs as [->| ->].
  - fold m. replace (- (52 - l)) with (l - 52) by lia.
    unfold binary_round_aux, shr_fexp at 1. rewrite Hdm.
    replace (fexp 53 1024 (53 + (l - 52)) - (l - 52)) with 0 by (unfold fexp, emin; lia).
    cbn [shr shr_record_of_loc shr_m loc_of_shr_record round_nearest_even].
    exact Hstage.
  - replace (Q * 2 ^ (53 - l)) with (2 * m)
      by (unfold m; replace (53 - l) with (Z.succ (52 - l)) by lia;
          rewrite Z.pow_succ_r by lia; lia).
    unfold binary_round_aux, shr_fexp at 1.
    assert (Hd2 : Zdigits2 (2 * m) = 54).
    { rewrite Zdigits2_pos_log2 by lia. rewrite Z.log2_double by done.
      rewrite Zdigits2_pos_log2 in Hdm by done. lia. }
    rewrite Hd2.
    replace (fexp 53 1024 (54 + - (53 - l)) - - (53 - l)) with 1 by (unfold fexp, emin; lia).
    replace (- (53 - l) + 1) with (l - 52) in * by lia.
    destruct m as [|p|p] eqn:Hmp; [lia| |lia].
    change (2 * Z.pos p) with (Z.pos p~0).
    cbn [shr shr_record_of_loc].
    change (SpecFloat.iter_pos shr_1 1 ?r) with (shr_1 r).
    cbn [shr_1 orb shr_m loc_of_shr_record round_nearest_even].
    replace (- (53 - l) + 1) with (l - 52) by lia.
    exact Hstage.
Qed.

Lemma div_eucl_exact (q b : Z) : 0 < b -> Z.div_eucl (q * b) b = (q, 0).
Proof.
  intros Hb. pose proof (Z.div_mul q b ltac:(lia)) as Hq.
  pose proof (Z.mod_mul q b ltac:(lia)) as Hr.
  unfold Z.div, Z.modulo in *. destruct (Z.div_eucl (q * b) b) as [q' r']. congruence.
Qed.

Lemma new_location_exact (b : Z) : new_location b 0 = loc_Exact.
Proof. unfold new_location. by destruct (Z.even b). Qed.

(** The quotient of two positive integers, when it is an integer below
    2^53, is what [a / b] returns and what [int] then gives back. *)
Lemma int_truediv_exact (a b Q : Z) :
  0 < b -> a = Q * b -> 0 < Q < 2 ^ 53 ->
  (let! q := Py.int_truediv a b in Py.int_of_float q) = ok Q.
Proof.
  intros Hb Ha HQ.
  assert (Ha0 : 0 < a) by nia.
  set (l := Z.log2 Q).
  assert (Hl : 0 <= l < 53).
  { split; [apply Z.log2_nonneg|]. apply Z.log2_lt_pow2; lia. }
  set (s := 53 - (Z.log2 a - Z.log2 b)).
  assert (Hs : s = 52 - l \/ s = 53 - l).
  { pose proof (Z.log2_mul_below Q b ltac:(lia) Hb).
    pose proof (Z.log2_mul_above Q b ltac:(lia) ltac:(lia)).
    rewrite <- Ha in *. unfold s, l. lia. }
  assert (Hcore : SFdiv_core_binary 53 1024 a 0 b 0 = (Q * 2 ^ s, - s, loc_Exact)).
  { unfold SFdiv_core_binary. cbv zeta.
    rewrite !Zdigits2_pos_log2 by done.
    replace (Z.min (fexp 53 1024 (Z.log2 a + 1 + 0 - (Z.log2 b + 1 + 0))) (0 - 0)) with (- s)
      by (unfold fexp, emin, s; lia).
    replace (0 - 0 - - s) with s by lia.
    assert (Hm' : match s with
                  | 0 => a
                  | Z.pos _ => Z.shiftl a s
                  | Z.neg _ => 0
                  end = (Q * 2 ^ s) * b).
    { destruct s as [|p|p] eqn:Hsp; [lia| |lia].
      - rewrite Z.shiftl_mul_pow2 by lia. lia. }
    rewrite Hm', div_eucl_exact by done. by rewrite new_location_exact. }
  unfold Py.int_truediv.
  destruct (Z.eqb_spec b 0) as [?|_]; [lia|].
  destruct a as [|pa|pa]; [lia| |lia]. destruct b as [|pb|pb]; [lia| |lia].
  cbn [Py.exact_int SFdiv xorb]. rewrite Hcore.
  rewrite binary_round_aux_quotient by (try done; lia).
  cbn [rbind ok Py.int_of_float]. fold l. f_equal.
  destruct (Z.leb_spec 0 (l - 52)).
  - replace l with 52 by lia. cbn [Z.sub Z.pow Z.pow_pos]. simpl.
    rewrite Z2Pos.id by lia. lia.
  - rewrite Z2Pos.id by (apply Z.mul_pos_pos; [lia|apply Z.pow_pos_nonneg; lia]).
    replace (- (l - 52)) with (52 - l) by lia.
    apply Z.div_mul. apply Z.pow_nonzero; lia.
Qed.

End ExactQuotients.

(** ** [combination]: the binomial coefficients below 2^53 *)

Section CombinationExact.
Open Scope Z_scope.

Lemma foldr_mul_scale (c : Z) (l : list Z) : foldr Z.mul c l = c * foldr Z.mul 1 l.
Proof. induction l as [|x l IH]; simpl; [lia|]. rewrite IH. lia. Qed.

Lemma fold_left_mul_scale (c : Z) (l : list Z) : fold_left Z.mul l c = c * fold_left Z.mul l 1.
Proof.
  revert c. induction l as [|x l IH]; intros c; simpl; [lia|].
  rewrite IH, (IH (1 * x)). lia.
Qed.

Lemma factorial_S (n : nat) :
  Operations.factorial (Z.of_nat (S n))
  = Z.of_nat (S n) * Operations.factorial (Z.of_nat n).
Proof.
  unfold Operations.factorial. rewrite !Nat2Z.id, seq_S, fmap_app, foldr_app.
  cbn [fmap list_fmap foldr]. rewrite foldr_mul_scale. cbn [Nat.add]. lia.
Qed.

Lemma factorial_pos (n : nat) : 0 < Operations.factorial (Z.of_nat n).
Proof.
  induction n as [|n IH]; [done|]. rewrite factorial_S. lia.
Qed.

Lemma pascal_gt (n k : nat) : (n < k)%nat -> Operations.pascal n k = 0%nat.
Proof.
  revert k. induction n as [|n IH]; intros [|k] Hk; simpl; try lia.
  rewrite !IH by lia. done.
Qed.

(** Pascal's number is [n! / (k! * (n - k)!)], without remainder. *)
Lemma pascal_factorial (n k : nat) :
  (k <= n)%nat ->
  Z.of_nat (Operations.pascal n k) * Operations.factorial (Z.of_nat k)
    * Operations.factorial (Z.of_nat (n - k))
  = Operations.factorial (Z.of_nat n).
Proof.
  revert k. induction n as [|n IH]; intros k Hk.
  - replace k with 0%nat by lia. done.
  - destruct k as [|k].
    + cbn [Operations.pascal Nat.sub]. change (Operations.factorial (Z.of_nat 0)) with 1. lia.
    + cbn [Operations.pascal Nat.sub]. rewrite Nat2Z.inj_add.
      destruct (decide (k = n)) as [->|Hne].
      * rewrite (pascal_gt n (S n)) by lia. specialize (IH n ltac:(lia)).
        rewrite Nat.sub_diag in *. rewrite factorial_S.
        change (Operations.factorial (Z.of_nat 0)) with 1 in *.
        revert IH. generalize (Z.of_nat (Operations.pascal n n))
                              (Operations.factorial (Z.of_nat n)) (Z.of_nat (S n)).
        intros P fn sn IH. apply (f_equal (Z.mul sn)) in IH. lia.
      * pose proof (IH k ltac:(lia)) as IH1. pose proof (IH (S k) ltac:(lia)) as IH2.
        replace (n - k)%nat with (S (n - S k)) in * by lia.
        rewrite !factorial_S in *.
        pose proof (factorial_pos k). pose proof (factorial_pos (n - S k)).
        replace (Z.of_nat (S n)) with (Z.of_nat (S k) + Z.of_nat (S (n - S k))) by lia.
        revert IH1 IH2.
        generalize (Z.of_nat (Operations.pascal n k)) (Z.of_nat (Operations.pascal n (S k)))
                   (Operations.factorial (Z.of_nat k)) (Operations.factorial (Z.of_nat (n - S k)))
                   (Operations.factorial (Z.of_nat n)) (Z.of_nat (S k)) (Z.of_nat (S (n - S k))).
        intros P1 P2 fk fnk fn sk snk IH1 IH2.
        apply (f_equal (Z.mul sk)) in IH1. apply (f_equal (Z.mul snk)) in IH2. lia.
Qed.

Lemma pascal_symmetric (n k : nat) :
  (k <= n)%nat -> Operations.pascal n (n - k) = Operations.pascal n k.
Proof.
  intros Hk. pose proof (pascal_factorial n k Hk) as H1.
  pose proof (pascal_factorial n (n - k) ltac:(lia)) as H2.
  replace (n - (n - k))%nat with k in H2 by lia.
  pose proof (factorial_pos k) as Hk1. pose proof (factorial_pos (n - k)) as Hk2.
  apply Nat2Z.inj. revert H1 H2 Hk1 Hk2.
  generalize (Z.of_nat (Operations.pascal n k)) (Z.of_nat (Operations.pascal n (n - k)))
             (Operations.factorial (Z.of_nat k)) (Operations.factorial (Z.of_nat (n - k)))
             (Operations.factorial (Z.of_nat n)).
  intros P1 P2 fk fnk fn H1 H2 Hk1 Hk2.
  assert (Heq : P2 * (fk * fnk) = P1 * (fk * fnk)) by lia.
  apply Z.mul_cancel_r in Heq; [done|nia].
Qed.

Lemma binomial_pascal (n k : nat) :
  (k <= n)%nat ->
  Operations.binomial (Z.of_nat n) (Z.of_nat k) = Z.of_nat (Operations.pascal n k).
Proof.
  intros Hk. unfold Operations.binomial.
  replace (Z.of_nat n - Z.of_nat k) with (Z.of_nat (n - k)) by lia.
  rewrite <- (pascal_factorial n k Hk), <- Z.mul_assoc.
  apply Z.div_mul.
  pose proof (factorial_pos k). pose proof (factorial_pos (n - k)). nia.
Qed.

(** The numerator: [n * (n - 1) * ... * (n - k + 1)]. *)
Lemma falling_product (n k : nat) :
  (k <= n)%nat ->
  fold_left Z.mul (map (fun i => Z.of_nat n + Z.of_nat i * -1) (seq 0 k)) 1
    * Operations.factorial (Z.of_nat (n - k))
  = Operations.factorial (Z.of_nat n).
Proof.
  induction k as [|k IH]; intros Hk.
  - rewrite Nat.sub_0_r. simpl. lia.
  - rewrite seq_S, map_app, fold_left_app. cbn [map fold_left Nat.add].
    rewrite <- IH by lia.
    replace (n - k)%nat with (S (n - S k)) by lia. rewrite factorial_S.
    replace (Z.of_nat (S (n - S k))) with (Z.of_nat n + Z.of_nat k * -1) by lia. lia.
Qed.

(** The denominator: [1 * 2 * ... * k]. *)
Lemma rising_product (k : nat) :
  fold_left Z.mul (map (fun i => 1 + Z.of_nat i * 1) (seq 0 k)) 1
  = Operations.factorial (Z.of_nat k).
Proof.
  induction k as [|k IH]; [done|].
  rewrite seq_S, map_app, fold_left_app. cbn [map fold_left Nat.add].
  rewrite IH, factorial_S.
  replace (Z.of_nat (S k)) with (1 + Z.of_nat k * 1) by lia. lia.
Qed.

Lemma range_down (n k : Z) :
  0 <= k ->
  Py.range n (n - k) (-1) = map (fun i => n + Z.of_nat i * -1) (seq 0 (Z.to_nat k)).
Proof.
  intros Hk. unfold Py.range. cbn [Z.ltb Z.compare Z.opp].
  change (- (-1)) with 1. rewrite Z.div_1_r.
  by replace (n - (n - k) - -1 - 1) with k by lia.
Qed.

Lemma range_up (k : Z) :
  Py.range 1 (k + 1) 1 = map (fun i => 1 + Z.of_nat i * 1) (seq 0 (Z.to_nat k)).
Proof.
  unfold Py.range. cbn [Z.ltb Z.compare]. rewrite Z.div_1_r.
  by replace (k + 1 - 1 + 1 - 1) with k by lia.
Qed.

(** The quotient of the two products is Pascal's number, and the float
    division returns it when it is below 2^53. *)
Lemma combination_pascal (n r : Z) :
  0 <= r <= n ->
  Z.of_nat (Operations.pascal (Z.to_nat n) (Z.to_nat r)) < 2 ^ 53 ->
  Operations.combination n r
  = ok (Z.of_nat (Operations.pascal (Z.to_nat n) (Z.to_nat r))).
Proof.
  intros Hr Hsmall.
  set (N := Z.to_nat n) in *. set (R := Z.to_nat r) in *.
  assert (HN : n = Z.of_nat N) by (unfold N; lia).
  assert (HR : r = Z.of_nat R) by (unfold R; lia).
  assert (HRN : (R <= N)%nat) by lia.
  unfold Operations.combination. cbv zeta.
  set (r' := Z.min r (n - r)). set (K := Z.to_nat r').
  assert (HK : r' = Z.of_nat K) by (unfold K, r'; lia).
  assert (HKN : (K <= N)%nat) by (unfold r' in HK; lia).
  assert (HP : Operations.pascal N K = Operations.pascal N R).
  { destruct (Z.min_spec r (n - r)) as [[_ Hm]|[_ Hm]]; fold r' in Hm.
    - by replace K with R by lia.
    - replace K with (N - R)%nat by lia. by apply pascal_symmetric. }
  rewrite range_down, range_up by lia. fold K. unfold Py.reduce.
  rewrite rising_product, HN.
  pose proof (falling_product N K HKN) as Hnum.
  pose proof (pascal_factorial N K HKN) as Hpas.
  pose proof (factorial_pos K) as HfK. pose proof (factorial_pos (N - K)) as HfNK.
  pose proof (factorial_pos N) as HfN.
  set (numer := fold_left Z.mul _ 1) in *.
  rewrite <- HP in *.
  apply int_truediv_exact; [done| |].
  - rewrite <- Hpas in Hnum. clear -Hnum HfNK. clearbody numer.
    revert Hnum HfNK. generalize (Operations.factorial (Z.of_nat K))
                                 (Operations.factorial (Z.of_nat (N - K)))
                                 (Z.of_nat (Operations.pascal N K)).
    intros fk fnk P Hnum HfNK.
    assert (Heq : numer * fnk = (P * fk) * fnk) by lia.
    apply Z.mul_cancel_r in Heq; [done|lia].
  - split; [|done].
    destruct (Operations.pascal N K) as [|p] eqn:HpK; [|lia].
    simpl in Hpas. lia.
Qed.

(** X9: whenever the binomial coefficient is below 2^53, [combination]
    returns it, and it is the number that Pascal's triangle gives. *)
Theorem combination_exact_below_2_53 (n r : Z) :
  0 <= r <= n ->
  Operations.binomial n r < 2 ^ 53 ->
  Operations.combination n r = ok (Operations.binomial n r) /\
  Operations.binomial n r = Z.of_nat (Operations.pascal (Z.to_nat n) (Z.to_nat r)).
Proof.
  intros Hr Hsmall.
  assert (Hbin : Operations.binomial n r
                 = Z.of_nat (Operations.pascal (Z.to_nat n) (Z.to_nat r))).
  { rewrite <- (Z2Nat.id n) at 1 by lia. rewrite <- (Z2Nat.id r) at 1 by lia.
    apply binomial_pascal. lia. }
  split; [|done]. rewrite Hbin in *. by apply combination_pascal.
Qed.

End CombinationExact.

Lemma combination_exact_below_2_53_witness :
  Operations.combination 56 28 = ok (Operations.binomial 56 28) /\
  Operations.binomial 56 28
  = Z.of_nat (Operations.pascal (Z.to_nat 56) (Z.to_nat 28)).
Proof.
  apply (combination_exact_below_2_53 56 28).
  - lia.
  - by vm_compute.
Defined.

(** ** [combination]: the exceptions *)

Section CombinationErrors.
Open Scope Z_scope.

Lemma shr_1_nonneg (r : shr_record) : 0 <= shr_m r -> 0 <= shr_m (shr_1 r).
Proof.
  destruct r as [m r s]. cbn [shr_m]. intros Hm. unfold shr_1.
  destruct m as [|[p|p|]|p]; cbn [shr_m]; lia.
Qed.

Lemma iter_shr_1_nonneg (p : positive) (r : shr_record) :
  0 <= shr_m r -> 0 <= shr_m (SpecFloat.iter_pos shr_1 p r).
Proof.
  revert r. induction p as [p IH|p IH|]; intros r Hr; cbn [SpecFloat.iter_pos].
  - by apply IH, IH, shr_1_nonneg.
  - by apply IH, IH.
  - by apply shr_1_nonneg.
Qed.

Lemma shr_fexp_nonneg (prec emax m e : Z) (l : location) :
  0 <= m -> 0 <= shr_m (shr_fexp prec emax m e l).1.
Proof.
  intros Hm. unfold shr_fexp, shr.
  assert (H0 : 0 <= shr_m (shr_record_of_loc m l)) by (by destruct l as [|[]]).
  destruct (fexp prec emax (Zdigits2 m + e) - e); cbn [fst]; [done| |done].
  by apply iter_shr_1_nonneg.
Qed.

Lemma round_nearest_even_nonneg (m : Z) (l : location) :
  0 <= m -> 0 <= round_nearest_even m l.
Proof.
  intros Hm. destruct l as [|[]]; cbn [round_nearest_even]; try lia.
  destruct (Z.even m); lia.
Qed.

(** Rounding a mantissa that is not negative never gives NaN. *)
Lemma binary_round_aux_not_nan (prec emax : Z) (s : bool) (m e : Z) (l : location) :
  0 <= m -> binary_round_aux prec emax s m e l <> S754_nan.
Proof.
  intros Hm. unfold binary_round_aux.
  pose proof (shr_fexp_nonneg prec emax m e l Hm) as H1.
  destruct (shr_fexp prec emax m e l) as [mrs' e']. cbn [fst] in H1.
  pose proof (shr_fexp_nonneg prec emax _ e' loc_Exact
                (round_nearest_even_nonneg _ (loc_of_shr_record mrs') H1)) as H2.
  destruct (shr_fexp prec emax _ e' loc_Exact) as [mrs'' e'']. cbn [fst] in H2.
  destruct (shr_m mrs'') as [|p|p]; [done| |lia].
  by destruct (e'' <=? emax - prec).
Qed.

Lemma int_truediv_positive (a b : Z) :
  0 < a -> 0 < b ->
  (exists v, (let! q := Py.int_truediv a b in Py.int_of_float q) = ok v)
  \/ (let! q := Py.int_truediv a b in Py.int_of_float q) = raise OverflowError.
Proof.
  intros Ha Hb. unfold Py.int_truediv.
  destruct (Z.eqb_spec b 0) as [?|_]; [lia|].
  destruct a as [|pa|pa]; [lia| |lia]. destruct b as [|pb|pb]; [lia| |lia].
  cbn [Py.exact_int SFdiv xorb].
  unfold SFdiv_core_binary. cbv zeta.
  set (m' := match _ with 0 => Z.pos pa | Z.pos _ => _ | Z.neg _ => 0 end).
  assert (Hm' : 0 <= m').
  { unfold m'. destruct (_ - _ - _); [lia| |lia]. apply Z.shiftl_nonneg. lia. }
  pose proof (Z.div_pos m' (Z.pos pb) Hm' ltac:(lia)) as Hq.
  unfold Z.div in Hq. destruct (Z.div_eucl m' (Z.pos pb)) as [q r].
  match goal with
  | |- context [binary_round_aux 53 1024 false q ?e ?l] =>
      pose proof (binary_round_aux_not_nan 53 1024 false q e l Hq) as Hnan;
      destruct (binary_round_aux 53 1024 false q e l) as [sg|sg| |sg m e0]; [| |done|]
  end.
  - left. by eexists.
  - by right.
  - left. by eexists.
Qed.

Lemma fold_left_mul_pos (l : list Z) :
  Forall (fun x => 0 < x) l -> 0 < fold_left Z.mul l 1.
Proof.
  intros Hl. induction Hl as [|x l Hx Hl IH]; [done|].
  cbn [fold_left]. rewrite fold_left_mul_scale. lia.
Qed.

(** X10: whatever the two integers, [combination] divides two positive
    integers: it returns, or the quotient is beyond the range of a float
    and it raises [OverflowError]; it never divides by zero. *)
Theorem combination_raises_only_OverflowError (n r : Z) :
  (exists v, Operations.combination n r = ok v)
  \/ Operations.combination n r = raise OverflowError.
Proof.
  unfold Operations.combination. cbv zeta. set (k := Z.min r (n - r)).
  apply int_truediv_positive; apply fold_left_mul_pos, Forall_forall; intros x Hx.
  - unfold Py.range in Hx. cbn [Z.ltb Z.compare Z.opp] in Hx.
    apply list_elem_of_In, in_map_iff in Hx as (i & <- & Hi). apply in_seq in Hi.
    change (- (-1)) with 1 in Hi. rewrite Z.div_1_r in Hi. unfold k in *. lia.
  - unfold Py.range in Hx. cbn [Z.ltb Z.compare] in Hx.
    apply list_elem_of_In, in_map_iff in Hx as (i & <- & Hi). lia.
Qed.

End CombinationErrors.

(** ** [SingleIndexEmbedding]: when [forward] returns *)

Section SingleIndexFacts.
Context {F : Type} `{Inhabited F}.
Import Tensor.

Lemma forallb_in_range_iff (n : Z) (l : list Z) :
  forallb (fun i => (0 <=? i)%Z && (i <? n)%Z) l = true
  <-> Forall (fun i => (0 <= i < n)%Z) l.
Proof.
  rewrite List.forallb_forall, Forall_forall. split; intros Hl i Hi.
  - apply list_elem_of_In, Hl in Hi. apply andb_true_iff in Hi as [H1 H2].
    apply Z.leb_le in H1. apply Z.ltb_lt in H2. lia.
  - apply list_elem_of_In, Hl in Hi. apply andb_true_iff.
    split; [apply Z.leb_le|apply Z.ltb_lt]; lia.
Qed.

Lemma single_index_forward_shape
    (self : SingleIndexEmbedding.layer F) (inputs : tensor Z) (out : tensor F) :
  SingleIndexEmbedding.forward self inputs = ok out ->
  shape out = shape inputs ++ [Torch.embedding_dim (SingleIndexEmbedding.embedding self)].
Proof.
  unfold SingleIndexEmbedding.forward, Torch.Embedding_forward.
  destruct (forallb _ (data inputs)); [|done]. cbn [rbind ok].
  case_decide; [|done]. by intros [= <-].
Qed.

(** X11: [forward] returns exactly on two-dimensional inputs whose indices
    all are rows of the table, with one more dimension of the width of the
    table; an index out of the table raises [IndexError], and inputs of
    another number of dimensions raise [RuntimeError] when the names are
    set. *)
Theorem single_index_forward_returns
    (self : SingleIndexEmbedding.layer F) (inputs : tensor Z) :
  let emb := SingleIndexEmbedding.embedding self in
  let in_table := Forall (fun i => (0 <= i < Torch.num_embeddings emb)%Z) (data inputs) in
  match SingleIndexEmbedding.forward self inputs with
  | inr out =>
      length (shape inputs) = 2 /\ in_table /\
      shape out = shape inputs ++ [Torch.embedding_dim emb]
  | inl e =>
      (e = IndexError /\ ~ in_table) \/
      (e = RuntimeError /\ in_table /\ length (shape inputs) <> 2)
  end.
Proof.
  intros emb in_table.
  unfold SingleIndexEmbedding.forward, Torch.Embedding_forward. fold emb.
  destruct (forallb _ (data inputs)) eqn:Hall.
  - apply forallb_in_range_iff in Hall. cbn [rbind ok]. rewrite shape_init, length_app.
    cbn [length]. case_decide.
    + split; [lia|]. by split.
    + right. split; [done|]. split; [done|lia].
  - cbn [rbind raise]. left. split; [done|]. intros Hin.
    apply forallb_in_range_iff in Hin. congruence.
Qed.

(** X12: on a (B, N) tensor of indices of the table, [forward] returns the
    (B, N, E) tensor whose vector at (b, n) is the row of the weight matrix
    that [inputs[b, n]] names, for every number [N] of columns. *)
Theorem single_index_forward_rows
    (self : SingleIndexEmbedding.layer F) (inputs : tensor Z) (B N : nat) :
  let emb := SingleIndexEmbedding.embedding self in
  shape inputs = [B; N] ->
  wf inputs ->
  (forall i, i ∈ data inputs -> (0 <= i < Torch.num_embeddings emb)%Z) ->
  (forall i, (0 <= i < Torch.num_embeddings emb)%Z ->
             length (Torch.weight emb i) = Torch.embedding_dim emb) ->
  exists out,
    SingleIndexEmbedding.forward self inputs = ok out /\
    shape out = [B; N; Torch.embedding_dim emb] /\
    forall b n, b < B -> n < N ->
      vector out [b; n] = Torch.weight emb (at_ inputs [b; n]).
Proof.
  intros emb Hsh Hwf Hr Hrows.
  unfold SingleIndexEmbedding.forward. fold emb.
  rewrite Embedding_forward_ok by done. cbn [rbind ok].
  rewrite Hsh. simpl.
  eexists. split; [done|]. split; [done|].
  intros b n Hb Hn. unfold vector. simpl.
  assert (Hv : valid_index (shape inputs) [b; n]).
  { rewrite Hsh. repeat constructor; lia. }
  etrans; [|apply (fmap_nth_seq inhabitant)].
  rewrite Hrows by (apply Hr; by apply at_elem_of).
  apply list_fmap_ext. intros i e He. apply lookup_seq in He as [-> He]. simpl.
  rewrite at_init; [done|]. repeat constructor; lia.
Qed.

(** X13: the attribute [length] that [__init__] sets is the size of the
    last dimension of every tensor that [forward] returns; with a
    pretrained table it is the width of that table, whatever [embed_size]
    is. *)
Theorem single_index_length_is_last_dim
    (embed_size : nat) (field_size : Z) (padding_idx : option Z)
    (nn_embedding : option (Torch.Embedding F)) (initial : Z -> list F)
    (inputs : tensor Z) (out : tensor F) :
  let self := SingleIndexEmbedding.init embed_size field_size padding_idx nn_embedding initial in
  SingleIndexEmbedding.forward self inputs = ok out ->
  List.last (shape out) 0 = SingleIndexEmbedding.length self /\
  SingleIndexEmbedding.length self
  = match nn_embedding with
    | Some pretrained => Torch.embedding_dim pretrained
    | None => embed_size
    end.
Proof.
  intros self Hout.
  apply single_index_forward_shape in Hout. rewrite Hout, last_last.
  unfold self, SingleIndexEmbedding.init. by destruct nn_embedding.
Qed.

End SingleIndexFacts.

Lemma single_index_forward_rows_witness :
  exists out,
    SingleIndexEmbedding.forward SingleIndexEmbedding.example_layer
      (Tensor.mk_tensor [1; 2] [2; 0]%Z) = ok out /\
    Tensor.shape out = [1; 2; 2] /\
    forall b n, b < 1 -> n < 2 ->
      Tensor.vector out [b; n]
      = Torch.weight (SingleIndexEmbedding.embedding SingleIndexEmbedding.example_layer)
          (Tensor.at_ (Tensor.mk_tensor [1; 2] [2; 0]%Z) [b; n]).
Proof.
  apply (single_index_forward_rows SingleIndexEmbedding.example_layer
           (Tensor.mk_tensor [1; 2] [2; 0]%Z) 1 2).
  - reflexivity.
  - reflexivity.
  - intros i Hi. simpl in *. rewrite !elem_of_cons, elem_of_nil in Hi. lia.
  - intros i Hi. reflexivity.
Defined.

Lemma single_index_length_is_last_dim_witness :
  List.last [2; 1; 2] 0 = SingleIndexEmbedding.length SingleIndexEmbedding.example_layer /\
  SingleIndexEmbedding.length SingleIndexEmbedding.example_layer = 2.
Proof.
  apply (single_index_length_is_last_dim 2 3%Z None None (fun i => [i; (i + 10)%Z])
           SingleIndexEmbedding.example_inputs
           (Tensor.mk_tensor [2; 1; 2] [2; 12; 0; 10]%Z)).
  reflexivity.
Defined.

(** ** [MultiIndicesFieldAwareEmbedding]: one table for all the fields *)

Section FieldAwareShifted.
Context {F : Type} `{Inhabited F}.
Import Tensor.

(** The first step of [forward], with field sizes that add up to less than
    2^24: every index is shifted by the sizes of the fields before its
    own. *)
Lemma field_aware_shift
    (embed_size : nat) (field_sizes : list Z) (weights : nat -> Z -> list F)
    (inputs : tensor Z) (B : nat) :
  let N := length field_sizes in
  let self := MultiIndicesFieldAwareEmbedding.init embed_size field_sizes weights in
  field_sizes <> [] ->
  Forall (fun s => 0 <= s)%Z field_sizes ->
  (foldr Z.add 0 field_sizes < 2 ^ 24)%Z ->
  shape inputs = [B; N] ->
  exists shifted,
    binary Z.add inputs (MultiIndicesFieldAwareEmbedding.offsets self) = ok shifted /\
    shape shifted = [B; N] /\
    (forall b i, b < B -> i < N ->
       at_ shifted [b; i]
       = (at_ inputs [b; i] + MultiIndicesFieldAwareEmbedding.prefix_sum field_sizes i)%Z) /\
    (forall x, x ∈ data shifted ->
       exists b i, b < B /\ i < N /\ x = at_ shifted [b; i]) /\
    wf shifted.
Proof.
  intros N self Hne Hpos Htotal Hsh.
  set (total := foldr Z.add 0%Z field_sizes) in *.
  assert (Hoff : MultiIndicesFieldAwareEmbedding.offsets self
                 = mk_tensor [1; N]
                     (MultiIndicesFieldAwareEmbedding.prefix_sum field_sizes <$> seq 0 N)).
  { unfold self, MultiIndicesFieldAwareEmbedding.init. cbn [MultiIndicesFieldAwareEmbedding.offsets].
    rewrite Tensor_long_exact.
    - rewrite offsets_tuple_spec by done. cbn [shape data].
      by rewrite length_fmap, length_seq.
    - rewrite offsets_tuple_spec by done. apply Forall_fmap, Forall_forall.
      intros i _. simpl. pose proof (prefix_sum_bounds field_sizes i Hpos) as Hb.
      fold total in Hb. lia. }
  assert (Hoffat : forall i, i < N ->
            at_ (MultiIndicesFieldAwareEmbedding.offsets self) [0; i]
            = MultiIndicesFieldAwareEmbedding.prefix_sum field_sizes i).
  { intros i Hi. rewrite Hoff. unfold at_. cbn [shape data ravel numel foldr].
    replace (0 * (N * 1) + (i * 1 + 0)) with i by lia.
    by rewrite nth_fmap_seq. }
  rewrite (binary_ok Z.add inputs _ [B; N]); cycle 1.
  { rewrite Hsh, Hoff. apply broadcast_shapes_batch. }
  rewrite Hsh.
  replace (shape (MultiIndicesFieldAwareEmbedding.offsets self)) with [1; N]
    by (by rewrite Hoff).
  set (shifted := Tensor.init [B; N] _).
  assert (Hshat : forall b i, b < B -> i < N ->
            at_ shifted [b; i]
            = (at_ inputs [b; i]
               + MultiIndicesFieldAwareEmbedding.prefix_sum field_sizes i)%Z).
  { intros b i Hb Hi. unfold shifted. rewrite at_init by solve_valid_index.
    rewrite broadcast_index_id by solve_valid_index.
    rewrite broadcast_index_batch by done. by rewrite Hoffat. }
  exists shifted. split; [done|]. split; [done|]. split; [done|].
  split; [|unfold wf, shifted, Tensor.init; cbn [data shape];
           by rewrite length_fmap, length_indices].
  intros x Hx. unfold shifted at 1, Tensor.init in Hx. cbn [data] in Hx.
  apply list_elem_of_fmap in Hx as (idx & Hxeq & Hidx).
  apply indices_valid in Hidx.
  inversion Hidx as [|b B' idx1 sh1 Hb Hidx1]; subst.
  inversion Hidx1 as [|i N' idx2 sh2 Hi Hidx2]; subst.
  inversion Hidx2; subst.
  exists b, i. split; [done|]. split; [done|].
  unfold shifted. by rewrite at_init by solve_valid_index.
Qed.

(** X14: no index is checked against the size of its own field: with field
    sizes that add up to less than 2^24, whenever every shifted index
    [inputs[b, i] + offset_i] is a row of the common table, [forward]
    returns the (B, N * N, E) tensor whose vector at (b, j * N + i) is that
    row of table [j], also when [inputs[b, i]] is not below the size of
    field [i]. *)
Theorem field_aware_forward_reads_shifted_rows
    (embed_size : nat) (field_sizes : list Z) (weights : nat -> Z -> list F)
    (inputs : tensor Z) (B : nat) :
  let N := length field_sizes in
  let self := MultiIndicesFieldAwareEmbedding.init embed_size field_sizes weights in
  let total := foldr Z.add 0%Z field_sizes in
  field_sizes <> [] ->
  Forall (fun s => 0 <= s)%Z field_sizes ->
  (total < 2 ^ 24)%Z ->
  shape inputs = [B; N] ->
  (forall b i, b < B -> i < N ->
     (0 <= at_ inputs [b; i] + MultiIndicesFieldAwareEmbedding.prefix_sum field_sizes i
      < total)%Z) ->
  (forall j r, length (weights j r) = embed_size) ->
  exists out,
    MultiIndicesFieldAwareEmbedding.forward self inputs = ok out /\
    shape out = [B; N * N; embed_size] /\
    forall b i j, b < B -> i < N -> j < N ->
      vector out [b; j * N + i]
      = weights j (at_ inputs [b; i]
                   + MultiIndicesFieldAwareEmbedding.prefix_sum field_sizes i)%Z.
Proof.
  intros N self total Hne Hpos Htotal Hsh Hin Hrows.
  assert (HN : 0 < N) by (unfold N; destruct field_sizes; [done|simpl; lia]).
  destruct (field_aware_shift embed_size field_sizes weights inputs B Hne Hpos Htotal Hsh)
    as (shifted & Hbin & Hshsh & Hshat & Hdata & Hwf).
  fold N self in Hbin, Hshat, Hdata.
  unfold MultiIndicesFieldAwareEmbedding.forward. rewrite Hbin. cbn [rbind ok].
  assert (Hrange : forall x, x ∈ data shifted -> (0 <= x < total)%Z).
  { intros x Hx. destruct (Hdata x Hx) as (b & i & Hb & Hi & ->).
    rewrite Hshat by done. by apply Hin. }
  set (table j := Tensor.init [B; N; embed_size]
         (fun idx => nth (nth 2 idx 0) (weights j (at_ shifted (take 2 idx))) inhabitant)).
  rewrite (rmapM_ok_fmap _ table); cycle 1.
  { intros j Hj. apply elem_of_seq in Hj.
    change (MultiIndicesFieldAwareEmbedding.num_fields self) with N in Hj.
    unfold self, MultiIndicesFieldAwareEmbedding.init.
    cbn [MultiIndicesFieldAwareEmbedding.embeddings].
    rewrite list_lookup_fmap, lookup_seq_lt by (fold N; lia).
    cbn [fmap option_fmap option_map].
    rewrite Embedding_forward_ok by done. by rewrite Hshsh. }
  cbn [rbind ok].
  change (MultiIndicesFieldAwareEmbedding.num_fields self) with N.
  rewrite (cat_ok_head (table 0)); cycle 1.
  { destruct N; [lia|done]. }
  { simpl. lia. }
  { intros t Ht. apply list_elem_of_fmap in Ht as (j & -> & _). done. }
  rewrite <- list_fmap_compose.
  change ((fun t : tensor F => nth 1 (shape t) 0) ∘ table) with (fun _ : nat => N).
  rewrite fmap_const_replicate, length_seq, sum_replicate.
  cbn [rbind ok]. rewrite shape_init.
  change (<[1 := N * N]> (shape (table 0))) with [B; N * N; embed_size].
  rewrite decide_True by done.
  eexists. split; [done|]. split; [done|].
  intros b i j Hb Hi Hj. unfold vector. rewrite shape_init. cbn [List.last].
  etrans; [|apply (fmap_nth_seq inhabitant)]. rewrite Hrows.
  apply list_fmap_ext. intros e' e He. apply lookup_seq in He as [-> He]. simpl.
  assert (Hji : j * N + i < N * N) by nia.
  rewrite at_init by solve_valid_index.
  cbn [nth]. rewrite cat_locate_uniform by done.
  rewrite nth_fmap_seq by done.
  change (<[1 := i]> [b; j * N + i; e']) with [b; i; e'].
  unfold table. rewrite at_init by solve_valid_index.
  cbn [nth take]. by rewrite Hshat.
Qed.

(** X15: with field sizes that add up to less than 2^24, an index that its
    offset takes out of the common table makes [forward] raise
    [IndexError]. *)
Theorem field_aware_forward_out_of_table
    (embed_size : nat) (field_sizes : list Z) (weights : nat -> Z -> list F)
    (inputs : tensor Z) (B b i : nat) :
  let N := length field_sizes in
  let self := MultiIndicesFieldAwareEmbedding.init embed_size field_sizes weights in
  let total := foldr Z.add 0%Z field_sizes in
  field_sizes <> [] ->
  Forall (fun s => 0 <= s)%Z field_sizes ->
  (total < 2 ^ 24)%Z ->
  shape inputs = [B; N] ->
  b < B -> i < N ->
  ~ (0 <= at_ inputs [b; i] + MultiIndicesFieldAwareEmbedding.prefix_sum field_sizes i
     < total)%Z ->
  MultiIndicesFieldAwareEmbedding.forward self inputs = raise IndexError.
Proof.
  intros N self total Hne Hpos Htotal Hsh Hb Hi Hout.
  destruct (field_aware_shift embed_size field_sizes weights inputs B Hne Hpos Htotal Hsh)
    as (shifted & Hbin & Hshsh & Hshat & Hdata & Hwf).
  fold N self in Hbin, Hshat, Hdata.
  unfold MultiIndicesFieldAwareEmbedding.forward. rewrite Hbin. cbn [rbind ok].
  change (MultiIndicesFieldAwareEmbedding.num_fields self) with N.
  destruct N as [|N'] eqn:HN; [lia|].
  cbn [seq rmapM].
  unfold self at 1, MultiIndicesFieldAwareEmbedding.init.
  cbn [MultiIndicesFieldAwareEmbedding.embeddings].
  rewrite list_lookup_fmap, lookup_seq_lt by lia.
  cbn [fmap option_fmap option_map].
  unfold Torch.Embedding_forward. cbn [Torch.num_embeddings].
  destruct (forallb _ (data shifted)) eqn:Hall; [|done].
  apply forallb_in_range_iff in Hall. rewrite Forall_forall in Hall.
  exfalso. apply Hout. rewrite <- Hshat by done. apply Hall.
  apply at_elem_of; [done|]. rewrite Hshsh. solve_valid_index.
Qed.

End FieldAwareShifted.

Lemma field_aware_forward_reads_shifted_rows_witness :
  exists out,
    MultiIndicesFieldAwareEmbedding.forward
      (MultiIndicesFieldAwareEmbedding.init 1 [3; 2]%Z
         MultiIndicesFieldAwareEmbedding.tagged_tables)
      (Tensor.mk_tensor [1; 2] [4; 0]%Z) = ok out /\
    Tensor.shape out = [1; 2 * 2; 1] /\
    forall b i j, b < 1 -> i < 2 -> j < 2 ->
      Tensor.vector out [b; j * 2 + i]
      = MultiIndicesFieldAwareEmbedding.tagged_tables j
          (Z.add (Tensor.at_ (Tensor.mk_tensor [1; 2] [4; 0]%Z) [b; i])
                 (MultiIndicesFieldAwareEmbedding.prefix_sum [3; 2]%Z i)).
Proof.
  apply (field_aware_forward_reads_shifted_rows 1 [3; 2]%Z
           MultiIndicesFieldAwareEmbedding.tagged_tables
           (Tensor.mk_tensor [1; 2] [4; 0]%Z) 1).
  - discriminate.
  - repeat constructor; lia.
  - by vm_compute.
  - reflexivity.
  - intros b i Hb Hi. simpl in Hi.
    destruct b as [|b]; [|lia]. destruct i as [|[|i]]; [| |lia]; by vm_compute.
  - reflexivity.
Defined.

Example field_aware_index_beyond_its_field :
  MultiIndicesFieldAwareEmbedding.forward
    (MultiIndicesFieldAwareEmbedding.init 1 [3; 2]%Z
       MultiIndicesFieldAwareEmbedding.tagged_tables)
    (Tensor.mk_tensor [1; 2] [4; 0]%Z)
  = ok (Tensor.mk_tensor [1; 4; 1] [4; 3; 100000004; 100000003]%Z).
Proof. vm_compute. reflexivity. Qed.

Lemma field_aware_forward_out_of_table_witness :
  MultiIndicesFieldAwareEmbedding.forward
    (MultiIndicesFieldAwareEmbedding.init 1 [3; 2]%Z
       MultiIndicesFieldAwareEmbedding.tagged_tables)
    (Tensor.mk_tensor [1; 2] [0; 2]%Z)
  = raise IndexError.
Proof.
  apply (field_aware_forward_out_of_table 1 [3; 2]%Z
           MultiIndicesFieldAwareEmbedding.tagged_tables
           (Tensor.mk_tensor [1; 2] [0; 2]%Z) 1 0 1).
  - discriminate.
  - repeat constructor; lia.
  - by vm_compute.
  - reflexivity.
  - lia.
  - simpl. lia.
  - vm_compute. intros [_ Hlt]. discriminate.
Defined.

Section FieldAwareShapes.
Context {F : Type} `{Inhabited F}.
Import Tensor.

Lemma rmapM_inv {X Y} (f : X -> result Y) (l : list X) (ys : list Y) :
  rmapM f l = ok ys -> Forall2 (fun x y => f x = ok y) l ys.
Proof.
  revert ys. induction l as [|x l IH]; intros ys Hys; simpl in Hys.
  - injection Hys as <-. constructor.
  - destruct (f x) as [e|y] eqn:Hx; [done|]. cbn [rbind] in Hys.
    destruct (rmapM f l) as [e|ys'] eqn:Hl; [done|]. cbn [rbind] in Hys.
    injection Hys as <-. constructor; [done|]. by apply IH.
Qed.

Lemma cat_shape {X} `{Inhabited X} (ts : list (tensor X)) (dim : nat) (out : tensor X) :
  Torch.cat ts dim = ok out ->
  exists t0, head ts = Some t0 /\
    shape out = <[dim := foldr Nat.add 0 ((fun t => nth dim (shape t) 0) <$> ts)]> (shape t0).
Proof.
  unfold Torch.cat. destruct ts as [|t0 ts]; [done|].
  destruct (_ && _); [|done]. intros [= <-]. by exists t0.
Qed.

(** X16: a layer built without any field cannot be used: [forward] raises
    [RuntimeError] on every input, for there is nothing to concatenate. *)
Theorem field_aware_forward_without_field
    (embed_size : nat) (weights : nat -> Z -> list F) (inputs : tensor Z) :
  MultiIndicesFieldAwareEmbedding.forward
    (MultiIndicesFieldAwareEmbedding.init embed_size [] weights) inputs
  = raise RuntimeError.
Proof.
  unfold MultiIndicesFieldAwareEmbedding.forward, binary.
  destruct (broadcast_shapes _ _); done.
Qed.

(** X17: whenever [forward] returns, the last dimension of the result has
    the size [length] that [__init__] set, which is [embed_size], and the
    second dimension is the number of fields times the number of columns
    of the indices. *)
Theorem field_aware_length_is_last_dim
    (embed_size : nat) (field_sizes : list Z) (weights : nat -> Z -> list F)
    (inputs : tensor Z) (out : tensor F) :
  let self := MultiIndicesFieldAwareEmbedding.init embed_size field_sizes weights in
  MultiIndicesFieldAwareEmbedding.forward self inputs = ok out ->
  MultiIndicesFieldAwareEmbedding.length self = embed_size /\
  List.last (shape out) 0 = MultiIndicesFieldAwareEmbedding.length self /\
  exists b n,
    broadcast_shapes (shape inputs) [1; length field_sizes] = Some [b; n] /\
    shape out = [b; length field_sizes * n; embed_size].
Proof.
  intros self.
  destruct (decide (field_sizes = [])) as [->|Hne].
  { unfold MultiIndicesFieldAwareEmbedding.forward, binary.
    destruct (broadcast_shapes _ _); done. }
  set (N := length field_sizes).
  assert (Hoffsh : shape (MultiIndicesFieldAwareEmbedding.offsets self) = [1; N]).
  { unfold self, MultiIndicesFieldAwareEmbedding.init, Torch.Tensor_long.
    cbn [MultiIndicesFieldAwareEmbedding.offsets shape].
    rewrite offsets_tuple_spec by done. by rewrite length_fmap, length_seq. }
  unfold MultiIndicesFieldAwareEmbedding.forward, binary. rewrite Hoffsh.
  destruct (broadcast_shapes (shape inputs) [1; N]) as [sh|] eqn:Hb; [|done].
  cbn [rbind ok]. set (shifted := Tensor.init sh _).
  destruct (rmapM _ (seq 0 _)) as [e|embedded] eqn:Hemb; [done|]. cbn [rbind ok].
  apply rmapM_inv in Hemb.
  destruct (Torch.cat embedded 1) as [e|outputs] eqn:Hcat; [done|]. cbn [rbind ok].
  case_decide as Hlen; [|done]. intros [= <-].
  apply cat_shape in Hcat as (t0 & Ht0 & Hshape).
  assert (Hall : Forall (fun t => shape t = sh ++ [embed_size]) embedded).
  { eapply Forall2_Forall_r; [exact Hemb|]. apply Forall_forall.
    intros j Hj t Ht. apply elem_of_seq in Hj.
    change (MultiIndicesFieldAwareEmbedding.num_fields self) with N in Hj.
    unfold self, MultiIndicesFieldAwareEmbedding.init in Ht.
    cbn [MultiIndicesFieldAwareEmbedding.embeddings] in Ht.
    rewrite list_lookup_fmap, lookup_seq_lt in Ht by (fold N; lia).
    cbn [fmap option_fmap option_map] in Ht.
    unfold Torch.Embedding_forward in Ht. destruct (forallb _ _); [|done].
    injection Ht as <-. done. }
  assert (Ht0sh : shape t0 = sh ++ [embed_size]).
  { rewrite Forall_forall in Hall. apply Hall.
    destruct embedded; [done|]. injection Ht0 as ->. by left. }
  assert (Hsizes : (fun t : tensor F => nth 1 (shape t) 0) <$> embedded
                   = replicate N (nth 1 (sh ++ [embed_size]) 0)).
  { pose proof (Forall2_length _ _ _ Hemb) as Hl. rewrite length_seq in Hl.
    change (MultiIndicesFieldAwareEmbedding.num_fields self) with N in Hl.
    rewrite Hl. clear -Hall. induction Hall as [|t ts Ht Hts IH]; [done|].
    cbn [fmap list_fmap length replicate]. rewrite Ht. f_equal. exact IH. }
  rewrite Hsizes, sum_replicate, Ht0sh in Hshape.
  rewrite Hshape, length_insert, length_app in Hlen. cbn [length] in Hlen.
  destruct sh as [|b [|n [|? ?]]]; simpl in Hlen; try lia.
  split; [done|]. split; [by rewrite Hshape|].
  exists b, n. split; [done|]. by rewrite Hshape.
Qed.

End FieldAwareShapes.

Lemma field_aware_length_is_last_dim_witness :
  MultiIndicesFieldAwareEmbedding.length
    (MultiIndicesFieldAwareEmbedding.init 1 [3; 2]%Z
       MultiIndicesFieldAwareEmbedding.tagged_tables) = 1 /\
  List.last [1; 4; 1] 0
  = MultiIndicesFieldAwareEmbedding.length
      (MultiIndicesFieldAwareEmbedding.init 1 [3; 2]%Z
         MultiIndicesFieldAwareEmbedding.tagged_tables) /\
  exists b n,
    Tensor.broadcast_shapes [1; 2] [1; 2] = Some [b; n] /\
    [1; 4; 1] = [b; 2 * n; 1].
Proof.
  apply (field_aware_length_is_last_dim 1 [3; 2]%Z
           MultiIndicesFieldAwareEmbedding.tagged_tables
           (Tensor.mk_tensor [1; 2] [4; 0]%Z)
           (Tensor.mk_tensor [1; 4; 1] [4; 3; 100000004; 100000003]%Z)).
  vm_compute. reflexivity.
Defined.

(** ** [ValueInputs] *)

Section ValueInputsFacts.
Context {A : Type} `{Inhabited A}.
Import Tensor.

(** X18: [forward] returns exactly on inputs of two or of three
    dimensions: a two-dimensional tensor gets a last dimension of size
    one and keeps its elements, a three-dimensional tensor is returned as
    it is, and any other raises [RuntimeError] when the names are set. *)
Theorem value_inputs_forward_returns (self : ValueInputs.layer) (inputs : tensor A) :
  match ValueInputs.forward self inputs with
  | inr out =>
      (length (shape inputs) = 2 /\ shape out = shape inputs ++ [1]
       /\ data out = data inputs)
      \/ (length (shape inputs) = 3 /\ out = inputs)
  | inl e =>
      e = RuntimeError /\ length (shape inputs) <> 2 /\ length (shape inputs) <> 3
  end.
Proof.
  unfold ValueInputs.forward.
  destruct (decide (length (shape inputs) = 2)) as [H2|H2].
  - destruct (shape inputs) as [|b [|n [|? ?]]] eqn:Hsh; try done.
    unfold Torch.unsqueeze. rewrite Hsh. cbn [rbind ok]. left. done.
  - cbn [rbind ok]. case_decide; [by right|done].
Qed.

(** X19: on a (B, N) tensor [forward] returns the (B, N, 1) tensor with
    the same values, [out[b, n, 0] = inputs[b, n]]: the new dimension is
    the last one and has the size [length] of the layer; applying
    [forward] to the result returns it unchanged. *)
Theorem value_inputs_forward_values
    (num_fields : Z) (inputs : tensor A) (B N : nat) :
  let self := ValueInputs.init num_fields in
  shape inputs = [B; N] ->
  exists out,
    ValueInputs.forward self inputs = ok out /\
    shape out = [B; N; ValueInputs.length self] /\
    ValueInputs.length self = 1 /\
    (forall b n, b < B -> n < N -> at_ out [b; n; 0] = at_ inputs [b; n]) /\
    ValueInputs.forward self out = ok out.
Proof.
  intros self Hsh. unfold ValueInputs.forward at 1, Torch.unsqueeze. rewrite Hsh.
  cbn [rbind ok]. eexists. split; [done|]. split; [done|]. split; [done|].
  split; [|done].
  intros b n Hb Hn. unfold at_. rewrite Hsh. cbn [shape data ravel numel foldr].
  f_equal; lia.
Qed.

End ValueInputsFacts.

Lemma value_inputs_forward_values_witness :
  exists out,
    ValueInputs.forward (ValueInputs.init 2) Operations.squash_example_input = ok out /\
    Tensor.shape out = [2; 2; ValueInputs.length (ValueInputs.init 2)] /\
    ValueInputs.length (ValueInputs.init 2) = 1 /\
    (forall b n, b < 2 -> n < 2 ->
       Tensor.at_ out [b; n; 0] = Tensor.at_ Operations.squash_example_input [b; n]) /\
    ValueInputs.forward (ValueInputs.init 2) out = ok out.
Proof.
  apply (value_inputs_forward_values 2 Operations.squash_example_input 2 2).
  reflexivity.
Defined.

(** ** Mixture of experts: the gates, and the layers without expert or gate *)

Section MixtureOfExpertsGates.
Import Tensor MixtureOfExperts.



(** X21: a layer without expert, or without gate, never returns: there is
    nothing to concatenate; and without expert the exception is
    [RuntimeError] whatever the input. *)
Theorem forward_needs_experts_and_gates (self : layer) (emb_inputs : tensor R) :
  experts self = [] \/ gates self = [] ->
  (exists e, forward self emb_inputs = raise e) /\
  (experts self = [] -> forward self emb_inputs = raise RuntimeError).
Proof.
  intros Hnone.
  assert (Hexp : experts self = [] -> forward self emb_inputs = raise RuntimeError).
  { intros He. unfold forward. rewrite He.
    destruct (flatten_NE emb_inputs) as [e|flat] eqn:Hf; [|done].
    unfold flatten_NE in Hf. by destruct (shape emb_inputs) as [|? [|? [|? [|? ?]]]]. }
  split; [|done].
  destruct Hnone as [He|Hg]; [by eexists; apply Hexp|].
  unfold forward. rewrite Hg.
  destruct (flatten_NE emb_inputs) as [e|flat]; [by eexists|]. cbn [rbind].
  destruct (rmapM _ (experts self)) as [e|outs]; [by eexists|]. cbn [rbind].
  destruct (Torch.cat outs 1) as [e|eo]; [by eexists|]. cbn [rbind rmapM ok Torch.cat].
  by eexists.
Qed.

End MixtureOfExpertsGates.


Lemma forward_needs_experts_and_gates_witness :
  (exists e, MixtureOfExperts.forward MixtureOfExperts.example_without_expert
               MixtureOfExperts.example_inputs = raise e) /\
  (MixtureOfExperts.experts MixtureOfExperts.example_without_expert = [] ->
   MixtureOfExperts.forward MixtureOfExperts.example_without_expert
     MixtureOfExperts.example_inputs = raise RuntimeError).
Proof.
  apply (forward_needs_experts_and_gates MixtureOfExperts.example_without_expert
           MixtureOfExperts.example_inputs).
  left. reflexivity.
Defined.

(** ** Mixture of experts: the keyword arguments of the experts *)

Section ExpertKwargs.
Import MixtureOfExperts.
Context {V : Type}.

Lemma str_from_append (pre post : string) :
  str_from (String.length pre) (String.append pre post) = post.
Proof.
  induction pre as [|c pre IH]; [by destruct post|].
  rewrite append_cons_l. exact IH.
Qed.

Lemma expert_key_iff (key k : string) :
  String.prefix "expert_" key = true /\ str_from 7 key = k
  <-> key = String.append "expert_" k.
Proof.
  rewrite prefix_iff_append. split.
  - intros [[post ->] Hk]. pose proof (str_from_append "expert_" post) as Hp.
    change (String.length "expert_") with 7 in Hp. rewrite Hp in Hk. by subst.
  - intros ->. split; [by eexists|]. apply (str_from_append "expert_" k).
Qed.

Lemma expert_kwargs_loop (kwargs : list (string * V)) (acc : gmap string V) (k : string) :
  NoDup kwargs.*1 ->
  fold_left
    (fun acc kv =>
       if String.prefix "expert_" kv.1 then <[str_from 7 kv.1 := kv.2]> acc else acc)
    kwargs acc !! k
  = match (list_to_map kwargs : gmap string V) !! String.append "expert_" k with
    | Some v => Some v
    | None => acc !! k
    end.
Proof.
  revert acc. induction kwargs as [|[key v] kwargs IH]; intros acc Hnd.
  - cbn [fold_left list_to_map foldr]. by rewrite lookup_empty.
  - rewrite fmap_cons in Hnd. apply NoDup_cons in Hnd as [Hnotin Hnd].
    cbn [fold_left list_to_map foldr fst snd]. rewrite IH by done.
    destruct (decide (key = String.append "expert_" k)) as [Hkey|Hkey].
    + subst key. rewrite lookup_insert_eq.
      rewrite (not_elem_of_list_to_map_1 kwargs (String.append "expert_" k)) by done.
      destruct (proj2 (expert_key_iff (String.append "expert_" k) k) eq_refl)
        as [Hpre Hfrom].
      rewrite Hpre, Hfrom. by rewrite lookup_insert_eq.
    + rewrite lookup_insert_ne by done.
      destruct (list_to_map kwargs !! String.append "expert_" k); [done|].
      destruct (String.prefix "expert_" key) eqn:Hpre; [|done].
      rewrite lookup_insert_ne; [done|].
      intros Hfrom. apply Hkey, expert_key_iff. by split.
Qed.

(** X22: of the keyword arguments of [__init__], the experts receive those
    whose name starts with ["expert_"], each under the rest of its name
    and with its value, and no other. *)
Theorem expert_kwargs_lookup (kwargs : list (string * V)) (k : string) :
  NoDup kwargs.*1 ->
  expert_kwargs kwargs !! k
  = (list_to_map kwargs : gmap string V) !! String.append "expert_" k.
Proof.
  intros Hnd. unfold expert_kwargs. rewrite expert_kwargs_loop by done.
  rewrite lookup_empty. by destruct (_ !! _).
Qed.

End ExpertKwargs.

Lemma expert_kwargs_lookup_witness :
  MixtureOfExperts.expert_kwargs
    [("expert_output_size", 16%Z); ("dropout", 0%Z)] !! "output_size"
  = (list_to_map [("expert_output_size", 16%Z); ("dropout", 0%Z)] : gmap string Z)
      !! String.append "expert_" "output_size".
Proof.
  apply (expert_kwargs_lookup [("expert_output_size", 16%Z); ("dropout", 0%Z)] "output_size").
  by apply (bool_decide_unpack _); vm_compute.
Defined.

Example expert_kwargs_run :
  MixtureOfExperts.expert_kwargs
    [("expert_output_size", 16%Z); ("dropout", 0%Z); ("expert_", 1%Z)]
  = {[ "output_size" := 16%Z; "" := 1%Z ]}.
Proof. by apply (bool_decide_unpack _); vm_compute. Qed.

(** ** [subsampling]: the table of the tokens *)

Section UniqueCounts.
Import Subsampler.
Open Scope Z_scope.

Lemma count_in_keys (x : Z) (l : list (Z * nat)) (y : Z) :
  y ∈ (Np.count_in x l).*1 <-> y = x \/ y ∈ l.*1.
Proof.
  induction l as [|[z c] l IH]; simpl.
  - rewrite list_elem_of_singleton, elem_of_nil. tauto.
  - destruct (Z.eqb_spec x z) as [->|Hne]; [simpl; rewrite elem_of_cons; tauto|].
    destruct (x <? z); simpl.
    + rewrite !elem_of_cons. tauto.
    + rewrite !elem_of_cons, IH. tauto.
Qed.

Lemma count_in_increasing (x : Z) (l : list (Z * nat)) :
  Np.increasing l.*1 -> Np.increasing (Np.count_in x l).*1.
Proof.
  induction l as [|[z c] l IH]; intros Hinc; simpl in *.
  - split; [constructor|done].
  - destruct Hinc as [Hz Hinc].
    destruct (Z.eqb_spec x z) as [->|Hne]; [done|].
    destruct (Z.ltb_spec x z) as [Hlt|Hge]; simpl.
    + split; [|done]. constructor; [done|].
      eapply Forall_impl; [exact Hz|]. intros y Hy. simpl in Hy. lia.
    + split; [|by apply IH]. apply Forall_forall. intros y Hy.
      apply count_in_keys in Hy as [->|Hy]; [lia|].
      rewrite Forall_forall in Hz. by apply Hz.
Qed.

Lemma count_in_lookup (x z : Z) (l : list (Z * nat)) :
  Np.increasing l.*1 ->
  (list_to_map (Np.count_in x l) : gmap Z nat) !! z
  = if decide (z = x) then Some (S (default 0%nat ((list_to_map l : gmap Z nat) !! x)))
    else (list_to_map l : gmap Z nat) !! z.
Proof.
  induction l as [|[y c] l IH]; intros Hinc.
  - cbn [Np.count_in list_to_map foldr].
    destruct (decide (z = x)) as [->|Hne].
    + by rewrite lookup_insert_eq, lookup_empty.
    + by rewrite lookup_insert_ne.
  - destruct Hinc as [Hy Hinc]. cbn [fmap list_fmap fst] in Hy.
    cbn [Np.count_in].
    destruct (Z.eqb_spec x y) as [->|Hxy].
    + cbn [list_to_map foldr]. destruct (decide (z = y)) as [->|Hne].
      * by rewrite !lookup_insert_eq.
      * by rewrite !lookup_insert_ne.
    + destruct (Z.ltb_spec x y) as [Hlt|Hge].
      * cbn [list_to_map foldr]. destruct (decide (z = x)) as [->|Hne].
        -- rewrite lookup_insert_eq, lookup_insert_ne by done.
           rewrite (not_elem_of_list_to_map_1 l x); [done|].
           intros Hin. rewrite Forall_forall in Hy. apply Hy in Hin. lia.
        -- by rewrite (lookup_insert_ne _ x z).
      * cbn [list_to_map foldr]. destruct (decide (z = y)) as [->|Hzy].
        -- rewrite !lookup_insert_eq. by rewrite decide_False by lia.
        -- rewrite !lookup_insert_ne by done. rewrite IH by done.
           by destruct (decide (z = x)).
Qed.

Lemma count_in_total (x : Z) (l : list (Z * nat)) :
  foldr Nat.add 0%nat (Np.count_in x l).*2 = S (foldr Nat.add 0%nat l.*2).
Proof.
  induction l as [|[y c] l IH]; [done|]. simpl.
  destruct (x =? y); [done|]. destruct (x <? y); [done|].
  simpl. change (list_fmap _ _ ?f ?l) with (f <$> l). rewrite IH. lia.
Qed.

Lemma occurrences_cons (z x : Z) (xs : list Z) :
  occurrences z (x :: xs)
  = if decide (z = x) then S (occurrences z xs) else occurrences z xs.
Proof.
  unfold occurrences. simpl.
  destruct (Z.eqb_spec z x); [by rewrite decide_True|by rewrite decide_False].
Qed.

Lemma occurrences_not_in (z : Z) (xs : list Z) : z ∉ xs -> occurrences z xs = 0%nat.
Proof.
  induction xs as [|x xs IH]; intros Hz; [done|].
  rewrite occurrences_cons. apply not_elem_of_cons in Hz as [Hne Hz].
  rewrite decide_False by done. by apply IH.
Qed.

(** The table that [np.unique] builds holds, for every token of the
    column, the number of its occurrences. *)
Lemma table_lookup (xs : list Z) (acc : list (Z * nat)) (z : Z) :
  Np.increasing acc.*1 ->
  let table := fold_left (fun acc x => Np.count_in x acc) xs acc in
  Np.increasing table.*1 /\
  foldr Nat.add 0%nat table.*2 = (foldr Nat.add 0 acc.*2 + length xs)%nat /\
  (list_to_map table : gmap Z nat) !! z
  = if decide (z ∈ xs)
    then Some (default 0 ((list_to_map acc : gmap Z nat) !! z) + occurrences z xs)%nat
    else (list_to_map acc : gmap Z nat) !! z.
Proof.
  revert acc. induction xs as [|x xs IH]; intros acc Hinc.
  - cbn [fold_left length]. split; [done|]. split; [lia|].
    rewrite decide_False; [done|]. apply not_elem_of_nil.
  - cbn [fold_left length].
    destruct (IH (Np.count_in x acc) (count_in_increasing x acc Hinc)) as (Hi & Ht & Hl).
    split; [done|]. split; [rewrite Ht, count_in_total; lia|].
    rewrite Hl, occurrences_cons, !count_in_lookup by done.
    destruct (decide (z = x)) as [->|Hne].
    + rewrite (decide_True (P := x ∈ x :: xs)) by (by left).
      destruct (decide (x ∈ xs)) as [Hin|Hnin]; simpl.
      * f_equal. lia.
      * rewrite (occurrences_not_in x xs Hnin). f_equal. lia.
    + destruct (decide (z ∈ xs)) as [Hin|Hnin].
      * by rewrite decide_True by (by right).
      * rewrite decide_False; [done|]. by apply not_elem_of_cons.
Qed.

End UniqueCounts.

(** ** [subsampling]: the rows that are kept, exactly *)

Section SubsamplingKept.
Import Subsampler.

Lemma zip_keys_fmap {X Y} (g : nat -> Y) (l : list (X * nat)) :
  zip l.*1 (g <$> l.*2) = prod_map Datatypes.id g <$> l.
Proof.
  rewrite <- (list_fmap_id l.*1) at 1. rewrite <- prod_map_zip. by rewrite zip_fst_snd.
Qed.

(** The dictionary [prob] holds for every token of the column the formula
    of its share of the rows. *)
Lemma prob_lookup (formula_func : float -> float -> float) (threshold : float)
    (column : list Z) (z : Z) :
  z ∈ column ->
  let table := fold_left (fun acc x => Np.count_in x acc) column [] in
  let total := foldr Nat.add 0 table.*2 in
  let freq := (fun c => (of_int (Z.of_nat c) / of_int (Z.of_nat total))%float)
                <$> table.*2 in
  let prob := (fun f => formula_func f threshold) <$> freq in
  (list_to_map (zip table.*1 prob) : gmap Z float) !! z
  = Some (token_prob formula_func threshold column z).
Proof.
  intros Hz table total freq prob.
  destruct (table_lookup column [] z I) as (_ & Htotal & Hlook).
  fold table in Htotal, Hlook. fold total in Htotal.
  unfold prob, freq. rewrite <- list_fmap_compose, zip_keys_fmap, list_to_map_fmap.
  rewrite lookup_fmap, Hlook, decide_True by done.
  cbn [list_to_map foldr fmap list_fmap] in *. rewrite lookup_empty.
  cbn [default Datatypes.id Nat.add option_fmap option_map fmap]. unfold token_prob, compose.
  by rewrite Htotal.
Qed.

(** The loop keeps the rows whose draw exceeds the probability of their
    token, and appends them in order. *)
Lemma sample_rows_filter {R} (sel : selectors R) (prob : gmap Z float)
    (rand_prob : nat -> float) (rows : list nat) (acc : list R)
    (tok : nat -> Z) (p : Z -> float) (get : nat -> R) :
  (forall i, i ∈ rows -> val_func sel i = ok (Hashable (tok i))) ->
  (forall i, i ∈ rows -> prob !! tok i = Some (p (tok i))) ->
  (forall i, i ∈ rows -> row_func sel i = ok (get i)) ->
  sample_rows sel prob rand_prob rows acc
  = ok (acc ++ (get <$> List.filter (fun i => PrimFloat.ltb (p (tok i)) (rand_prob i)) rows)).
Proof.
  revert acc. induction rows as [|i rows IH]; intros acc Hval Hprob Hrow.
  - cbn [sample_rows List.filter fmap list_fmap]. by rewrite app_nil_r.
  - cbn [sample_rows List.filter].
    rewrite Hval by (by left). cbn [rbind ok dict_getitem].
    rewrite Hprob by (by left). cbn [rbind ok].
    assert (Htail : forall acc',
              sample_rows sel prob rand_prob rows acc'
              = ok (acc' ++ (get <$> List.filter
                               (fun i => PrimFloat.ltb (p (tok i)) (rand_prob i)) rows))).
    { intros acc'. apply IH; intros j Hj; [apply Hval|apply Hprob|apply Hrow]; by right. }
    destruct (PrimFloat.ltb (p (tok i)) (rand_prob i)).
    + rewrite Hrow by (by left). cbn [rbind ok]. rewrite Htail.
      cbn [fmap list_fmap]. by rewrite <- app_assoc.
    + apply Htail.
Qed.

(** Everything after the selectors are bound, when the column can be read
    and every row has a scalar token: the kept rows are handed to the
    concatenation. *)
Lemma subsample_with_kept {R} (sel : selectors R)
    (formula_func : float -> float -> float) (threshold : float)
    (rand_prob : nat -> float) (column : list Z) (get : nat -> R) :
  col_func sel = ok column ->
  shape0 sel = length column ->
  (forall i, i < length column -> val_func sel i = ok (Hashable (nth i column 0%Z))) ->
  (forall i, i < length column -> row_func sel i = ok (get i)) ->
  subsample_with sel formula_func threshold rand_prob
  = cat_func sel (get <$> kept formula_func threshold rand_prob column).
Proof.
  intros Hcol Hshape Hval Hrow.
  unfold subsample_with, Np.unique_counts. rewrite Hcol. cbn [rbind ok]. cbv zeta.
  rewrite Hshape.
  rewrite (sample_rows_filter _ _ _ _ [] (fun i => nth i column 0%Z)
             (token_prob formula_func threshold column) get).
  - cbn [rbind ok app]. done.
  - intros i Hi. apply elem_of_seq in Hi. apply Hval. lia.
  - intros i Hi. apply elem_of_seq in Hi.
    apply (prob_lookup formula_func threshold column).
    apply list_elem_of_In, nth_In. lia.
  - intros i Hi. apply elem_of_seq in Hi. apply Hrow. lia.
Qed.

End SubsamplingKept.

Section SubsamplingKeptArrays.
Import Subsampler.

Lemma take_1_drop (l : list Z) (j : nat) :
  j < length l -> take 1 (drop j l) = [nth j l 0%Z].
Proof.
  revert j. induction l as [|x l IH]; intros j Hj; simpl in Hj; [lia|].
  destruct j as [|j]; simpl; [by rewrite take_0|]. apply IH. lia.
Qed.

Lemma nth_chunk (m i j : nat) (l : list Z) :
  j < m -> nth j (Np.chunk m l i) 0%Z = nth (i * m + j) l 0%Z.
Proof.
  intros Hj. unfold Np.chunk.
  by rewrite !nth_lookup, lookup_take_lt, lookup_drop.
Qed.

(** The cell of a well-formed two-dimensional array at a row and a
    column. *)
Lemma getitem2_cell (a : tensor Z) (n m i kk : nat) (k : Z) :
  Tensor.shape a = [n; m] -> Tensor.wf a -> Np.index m k = ok kk -> i < n ->
  Np.getitem2 a (Z.of_nat i) k
  = ok (Tensor.mk_tensor [] [nth (i * m + kk) (Tensor.data a) 0%Z]).
Proof.
  intros Hsh Hwf Hk Hi. unfold Np.getitem2.
  rewrite (getitem_row a n [m] i Hsh Hi). cbn [rbind ok].
  unfold Np.getitem. cbn [Tensor.shape Tensor.data]. rewrite Hk. cbn [rbind ok].
  pose proof (index_ok_lt _ _ _ Hk) as Hkk.
  f_equal. f_equal. cbn [Tensor.numel foldr]. rewrite Nat.mul_1_r.
  unfold Np.chunk at 1. rewrite Nat.mul_1_r, take_1_drop.
  - by rewrite nth_chunk.
  - rewrite (length_chunk m n); [done| |done].
    rewrite Hwf, Hsh. simpl. lia.
Qed.

(** X23: on a well-formed two-dimensional array and a column of it, with
    an allowed formula, [subsampling] returns exactly the rows whose draw
    exceeds the probability of their token, in the order of the input: row
    [i] is kept when [rand_prob i] is above the formula applied to the
    share of the rows that hold the token of row [i]; when no row is kept
    it raises [ValueError]. *)
Theorem subsampling_array_keeps_exactly
    (a : tensor Z) (k : Z) (formula : string) (formula_func : float -> float -> float)
    (threshold : float) (rand_prob : nat -> float) (n m kk : nat) :
  select_formula formula = ok formula_func ->
  Tensor.shape a = [n; m] -> Tensor.wf a -> Np.index m k = ok kk ->
  let column := (fun i => nth (i * m + kk) (Tensor.data a) 0%Z) <$> seq 0 n in
  let rows :=
    Np.chunk m (Tensor.data a) <$> kept formula_func threshold rand_prob column in
  subsampling (NdArray a) (KInt k) formula threshold rand_prob
  = match rows with
    | [] => raise ValueError
    | _ => ok (NdArray (Tensor.mk_tensor [length rows; m] (concat rows)))
    end.
Proof.
  intros Hf Hsh Hwf Hk column rows.
  assert (Hlen : length column = n) by (unfold column; by rewrite length_fmap, length_seq).
  unfold subsampling. rewrite Hf. cbn [rbind ok].
  rewrite (subsample_with_kept _ _ _ _ column
             (fun i => Tensor.mk_tensor [m] (Np.chunk m (Tensor.data a) i))).
  - change (cat_func (ndarray_selectors a (KInt k)) ?s)
      with (let! a' := Np.vstack s in ok (NdArray a')).
    rewrite (list_fmap_compose (Np.chunk m (Tensor.data a)) (Tensor.mk_tensor [m])).
    fold rows. destruct rows as [|r rows'] eqn:Hrows; [done|].
    by rewrite vstack_rows.
  - cbn [col_func ndarray_selectors]. unfold Np.column. rewrite Hsh, Hk. cbn [rbind ok].
    rewrite (rmapM_ok_fmap _
               (fun i => Tensor.mk_tensor [] [nth (i * m + kk) (Tensor.data a) 0%Z])).
    + cbn [rbind ok Tensor.data]. f_equal. unfold column.
      generalize (seq 0 n). intros l. induction l as [|i l IH]; [done|].
      cbn [fmap list_fmap concat Tensor.data app]. f_equal. exact IH.
    + intros i Hi. apply elem_of_seq in Hi. apply (getitem2_cell a n m); [done..|lia].
  - cbn [shape0 ndarray_selectors]. by rewrite Hsh, Hlen.
  - intros i Hi. rewrite Hlen in Hi. cbn [val_func ndarray_selectors].
    rewrite (getitem2_cell a n m i kk) by done. cbn [rbind ok as_dict_key Tensor.shape Tensor.data].
    unfold column. by rewrite nth_fmap_seq.
  - intros i Hi. rewrite Hlen in Hi. cbn [row_func ndarray_selectors].
    rewrite (getitem_row a n [m] i) by done. cbn [Tensor.numel foldr].
    by rewrite Nat.mul_1_r.
Qed.

End SubsamplingKeptArrays.

Section SubsamplingKeptFrames.
Import Subsampler.




End SubsamplingKeptFrames.

Lemma subsampling_array_keeps_exactly_witness :
  Subsampler.subsampling
    (Subsampler.NdArray (Tensor.mk_tensor [3; 2] [7; 1; 8; 2; 7; 3]%Z))
    (Subsampler.KInt 0) "paper" 1e-5%float Subsampler.sampling_example_draws
  = ok (Subsampler.NdArray (Tensor.mk_tensor [2; 2] [7; 1; 7; 3]%Z)).
Proof.
  apply (subsampling_array_keeps_exactly
           (Tensor.mk_tensor [3; 2] [7; 1; 8; 2; 7; 3]%Z) 0 "paper"
           (fun f t => (1 - PrimFloat.sqrt (t / f))%float) 1e-5%float
           Subsampler.sampling_example_draws 3 2 0).
  - reflexivity.
  - reflexivity.
  - reflexivity.
  - reflexivity.
Defined.


(** ** The deep field-aware factorization machine *)

Section DeepFFMInit.
Import DeepFieldAwareFactorizationMachineModel.
Open Scope Z_scope.

Lemma pascal_1 (n : nat) : Operations.pascal n 1 = n.
Proof.
  induction n as [|n IH]; [done|]. cbn [Operations.pascal].
  rewrite IH. by destruct n.
Qed.

Lemma pascal_2 (n : nat) : (2 * Operations.pascal n 2 = n * (n - 1))%nat.
Proof.
  induction n as [|n IH]; [done|].
  change (Operations.pascal (S n) 2)
    with (Operations.pascal n 1 + Operations.pascal n 2)%nat.
  rewrite pascal_1. nia.
Qed.

(** X25: [__init__] sizes the dense layer for the pairs of fields: with at
    least two fields (and fewer than 2^26) its input size is
    [num_fields * (num_fields - 1) / 2 * embed_size]; with fewer than two
    fields, where there is no pair, it is [embed_size] and not 0. *)
Theorem deep_ffm_init_inputs_size
    (embed_size num_fields : Z) (FFMLayer DNNLayer : Z -> MixtureOfExperts.module) :
  (2 <= num_fields < 2 ^ 26 ->
   init embed_size num_fields FFMLayer DNNLayer
   = ok {| ffm := FFMLayer num_fields;
           deep := DNNLayer (num_fields * (num_fields - 1) / 2 * embed_size) |}) /\
  (num_fields < 2 ->
   init embed_size num_fields FFMLayer DNNLayer
   = ok {| ffm := FFMLayer num_fields; deep := DNNLayer (1 * embed_size) |}).
Proof.
  split; intros Hn; unfold init.
  - pose proof (pascal_2 (Z.to_nat num_fields)) as Hp.
    assert (Hval : Z.of_nat (Operations.pascal (Z.to_nat num_fields) (Z.to_nat 2))
                   = num_fields * (num_fields - 1) / 2).
    { change (Z.to_nat 2) with 2%nat.
      apply Z.div_unique_exact; [lia|]. nia. }
    rewrite combination_pascal; [by rewrite Hval|lia|].
    rewrite Hval. apply Z.div_lt_upper_bound; [lia|].
    assert (num_fields * (num_fields - 1) < 2 ^ 26 * 2 ^ 26) by nia. lia.
  - unfold Operations.combination. cbv zeta.
    rewrite range_empty_down, range_empty_up by lia. done.
Qed.

End DeepFFMInit.

Section DeepFFMForward.
Import Tensor DeepFieldAwareFactorizationMachineModel.


End DeepFFMForward.

Lemma deep_ffm_init_inputs_size_witness :
  DeepFieldAwareFactorizationMachineModel.init 4 3 (fun _ x => ok x) (fun _ x => ok x)
  = ok {| DeepFieldAwareFactorizationMachineModel.ffm := fun x => ok x;
          DeepFieldAwareFactorizationMachineModel.deep := fun x => ok x |}.
Proof.
  apply (proj1 (deep_ffm_init_inputs_size 4 3 (fun _ x => ok x) (fun _ x => ok x))).
  lia.
Defined.


(** ** [show_attention]: the labels of the ticks *)

Section ShowAttentionFacts.
Context {A : Type}.

Lemma str_split_not_nil (sep : ascii) (s : string) : Operations.str_split sep s <> [].
Proof.
  destruct s as [|c s]; [done|]. cbn [Operations.str_split].
  destruct (Ascii.eqb c sep); [done|]. by destruct (Operations.str_split sep s).
Qed.

Lemma concat_cons_cons (sep x y : string) (l : list string) :
  String.concat sep (x :: y :: l)
  = String.append x (String.append sep (String.concat sep (y :: l))).
Proof. done. Qed.

(** Joining the parts with the separator gives the string back. *)
Lemma str_split_join (s : string) :
  String.concat "," (Operations.str_split "," s) = s.
Proof.
  induction s as [|c s IH]; [done|]. cbn [Operations.str_split].
  pose proof (str_split_not_nil "," s) as Hne.
  destruct (Ascii.eqb_spec c ",") as [->|Hc].
  - destruct (Operations.str_split "," s) as [|w ws]; [done|].
    rewrite concat_cons_cons, IH. done.
  - destruct (Operations.str_split "," s) as [|w [|w' ws]]; [done| |].
    + cbn [String.concat] in *. by rewrite IH.
    + rewrite concat_cons_cons in *. rewrite append_cons_l. by rewrite IH.
Qed.

Lemma str_split_parts (s : string) :
  Forall (fun w => Py.str_contains "," w = false) (Operations.str_split "," s).
Proof.
  induction s as [|c s IH]; [by repeat constructor|]. cbn [Operations.str_split].
  destruct (Ascii.eqb_spec c ",") as [->|Hc].
  - constructor; [done|exact IH].
  - pose proof (str_split_not_nil "," s) as Hne.
    destruct (Operations.str_split "," s) as [|w ws]; [done|].
    inversion IH as [|? ? Hw Hws]; subst. constructor; [|done].
    change (Py.str_contains "," (String c w))
      with (String.prefix "," (String c w) || Py.str_contains "," w).
    rewrite Hw, orb_false_r. cbn [String.prefix].
    by destruct (Ascii.ascii_dec "," c) as [<-|].
Qed.

(** X27: the labels that [show_attention] gives to the ticks of an axis
    described by a string are an empty label followed by the parts of the
    string between its commas: joined by commas they give the string
    back, and none of them holds a comma; with no description no label is
    set; and the figure is shown exactly when [savedir] is [None], and
    saved to [savedir] otherwise. *)
Theorem show_attention_calls
    (attentions : A) (xaxis yaxis : Operations.axis_arg) (savedir : option string) :
  let calls := Operations.show_attention attentions xaxis yaxis savedir in
  (forall s, xaxis = Operations.AxisStr s ->
     exists parts,
       Operations.AxSetXTickLabels (EmptyString :: parts) 90 ∈ calls /\
       String.concat "," parts = s /\
       Forall (fun w => Py.str_contains "," w = false) parts) /\
  (xaxis = Operations.AxisNone ->
     forall labels rotation, Operations.AxSetXTickLabels labels rotation ∉ calls) /\
  (Operations.PltShow ∈ calls <-> savedir = None) /\
  (forall fname, Operations.PltSavefig fname ∈ calls <-> savedir = Some fname).
Proof.
  intros calls. unfold calls, Operations.show_attention.
  split; [|split; [|split]].
  - intros s ->. exists (Operations.str_split "," s).
    split; [|split; [apply str_split_join|apply str_split_parts]].
    cbn [Operations.tick_labels]. rewrite !elem_of_app, !elem_of_cons. tauto.
  - intros -> labels rotation. cbn [Operations.tick_labels].
    rewrite !elem_of_app, !elem_of_cons, !elem_of_nil.
    destruct (Operations.tick_labels yaxis); rewrite ?elem_of_cons, ?elem_of_nil;
      destruct savedir; intuition congruence.
  - rewrite !elem_of_app, !elem_of_cons, !elem_of_nil.
    destruct (Operations.tick_labels xaxis), (Operations.tick_labels yaxis);
      rewrite ?elem_of_cons, ?elem_of_nil; destruct savedir; intuition congruence.
  - intros fname. rewrite !elem_of_app, !elem_of_cons, !elem_of_nil.
    destruct (Operations.tick_labels xaxis), (Operations.tick_labels yaxis);
      rewrite ?elem_of_cons, ?elem_of_nil; destruct savedir; intuition congruence.
Qed.

End ShowAttentionFacts.

(** ** [subsampling]: instances of the sources of the exceptions *)


Lemma subsampling_ValueError_sources_witness :
  ("paper" <> "code" /\ "paper" <> "paper") \/
  exists a, Subsampler.NdArray (Tensor.mk_tensor [0; 1] []) = Subsampler.NdArray a.
Proof.
  apply (subsampling_ValueError_sources
           (Subsampler.NdArray (Tensor.mk_tensor [0; 1] []))
           (Subsampler.KInt 0) "paper" 1e-5%float (fun _ => 0.5%float)).
  reflexivity.
Defined.
